(** * csi-powerstore: volume handles, array registry, connectivity probe and
      replication actions

    A shallow embedding of the Go sources
    - [pkg/array]      : [Locker], [GetPowerStoreArrays], [ParseVolumeID];
    - [pkg/controller] : [ValidateVolumeHostConnectivity], [IsIOInProgress],
                         [ExecuteAction], [validateRSState],
                         [DeleteStorageProtectionGroup];
    together with the properties the design document states about them.

    Go strings are byte strings: they are [string] here.  Go maps are [gmap]s,
    slices are lists, a pointer that may be [nil] is an [option].  Calls to the
    array's REST client change the array: they are threaded through a state
    monad that also records every call issued, and a Go panic is an outcome of
    its own. *)

From Stdlib Require Import ZArith QArith Ascii String DecimalString.
From stdpp Require Import base option list strings gmap.

Local Open Scope string_scope.

(** ** Go strings *)

Module GoStrings.

(** [strings.Split(s, sep)] for a one-byte separator: the pieces between the
    separators, [""] alone for the empty string. *)
Fixpoint Split (s : string) (sep : ascii) : list string :=
  match s with
  | EmptyString => [EmptyString]
  | String c s' =>
      if Ascii.eqb c sep then EmptyString :: Split s' sep
      else match Split s' sep with
           | [] => [String c EmptyString]
           | w :: ws => String c w :: ws
           end
  end.

(** [strings.ContainsRune] for a byte. *)
Fixpoint hasByte (c : ascii) (s : string) : bool :=
  match s with
  | EmptyString => false
  | String d s' => Ascii.eqb d c || hasByte c s'
  end.

(** [strings.Join] with a one-byte separator. *)
Fixpoint Join (l : list string) (sep : ascii) : string :=
  match l with
  | [] => EmptyString
  | [x] => x
  | x :: l' => x +:+ String sep (Join l' sep)
  end.

Definition isDigit (c : ascii) : bool :=
  let n := nat_of_ascii c in (48 <=? n)%nat && (n <=? 57)%nat.

(** The regular expression [^[0-9.]*$]. *)
Fixpoint onlyDigitsAndDots (s : string) : bool :=
  match s with
  | EmptyString => true
  | String c s' => (isDigit c || Ascii.eqb c ".") && onlyDigitsAndDots s'
  end.

End GoStrings.
Export GoStrings.

(** ** An address scanner *)

Module IPScan.

Fixpoint takeDigits (n : nat) (s : string) : string * string :=
  match n, s with
  | S n', String c s' =>
      if isDigit c then let '(d, r) := takeDigits n' s' in (String c d, r)
      else (EmptyString, s)
  | _, _ => (EmptyString, s)
  end.

(** One group of digits followed by a dot. *)
Definition dottedGroup (s : string) : option (string * string) :=
  match takeDigits 3 s with
  | (EmptyString, _) => None
  | (d, String "." r) => Some (d +:+ ".", r)
  | _ => None
  end.

Definition lastGroup (s : string) : option (string * string) :=
  match takeDigits 3 s with
  | (EmptyString, _) => None
  | (d, r) => Some (d, r)
  end.

Definition quadAt (s : string) : option (string * string) :=
  '(a, r1) ← dottedGroup s;
  '(b, r2) ← dottedGroup r1;
  '(c, r3) ← dottedGroup r2;
  '(d, r4) ← lastGroup r3;
  Some (a +:+ b +:+ c +:+ d, r4).

Fixpoint scan (fuel : nat) (s : string) : list string :=
  match fuel with
  | O => []
  | S fuel' =>
      match s with
      | EmptyString => []
      | String _ s' =>
          match quadAt s with
          | Some (ip, rest) => ip :: scan fuel' rest
          | None => scan fuel' s'
          end
      end
  end.

(** Modelled from the spec: [common.GetIPListFromString] lives in
    [pkg/common], outside the sources at hand.  The design document only says
    that an array reference may be "a literal IP address"; this scanner returns
    the dotted quads (four groups of one to three decimal digits) found in a
    string, left to right, and the empty list ([nil]) when there is none.
    The theorems below do not depend on it: they take the scanner as a
    parameter.  It serves the concrete examples only. *)
Definition GetIPListFromString (s : string) : list string :=
  scan (String.length s) s.

End IPScan.

(** ** Errors

    A Go [error] is one of: a gRPC status ([status.Errorf]), an error of the
    array's client ([gopowerstore.APIError], which classifies itself), or a
    plain error ([fmt.Errorf], [errors.New]). *)

Inductive Code :=
| InvalidArgument | FailedPrecondition | Aborted | Internal | Unknown
| Unimplemented.

Record APIError := {
  apiMessage : string;
  NotFound : bool;
  UnableToFailoverFromDestination : bool;
  VolumeNameIsAlreadyUse : bool;
}.

Inductive error :=
| StatusErr (c : Code) (msg : string)
| APIErr (e : APIError)
| PlainErr (msg : string).

Definition codeName (c : Code) : string :=
  match c with
  | InvalidArgument => "InvalidArgument"
  | FailedPrecondition => "FailedPrecondition"
  | Aborted => "Aborted"
  | Internal => "Internal"
  | Unknown => "Unknown"
  | Unimplemented => "Unimplemented"
  end.

(** [err.Error()]. *)
Definition Error (e : error) : string :=
  match e with
  | StatusErr c msg => "rpc error: code = " +:+ codeName c +:+ " desc = " +:+ msg
  | APIErr a => apiMessage a
  | PlainErr msg => msg
  end.

(** The guard [apiError, ok := err.(gopowerstore.APIError); ok && apiError.NotFound()]. *)
Definition isNotFoundAPIError (err : error) : bool :=
  match err with
  | APIErr a => NotFound a
  | _ => false
  end.

(** The guard [apiErr, ok := err.(gopowerstore.APIError); ok && !apiErr.NotFound()]
    applied to a possibly [nil] error. *)
Definition isAPIErrorNotNotFound (err : option error) : bool :=
  match err with
  | Some (APIErr a) => negb (NotFound a)
  | _ => false
  end.

(** ** The array's client

    The objects of [gopowerstore] the controller reads, with the fields it
    reads. *)

Record Volume := { vol_ID : string; vol_ProtectionPolicyID : string }.
Record FileSystem := { fs_ID : string }.
Record VolumeGroup := { vg_ID : string; vg_ProtectionPolicyID : string }.
Record ProtectionPolicy := {
  pp_ID : string;
  pp_Volumes : list Volume;
  pp_VolumeGroups : list VolumeGroup;
}.
Record ReplicationRule := {
  rr_ID : string;
  rr_ProtectionPolicies : list ProtectionPolicy;
}.
Record ReplicationSession := {
  rs_ID : string;
  rs_State : string;
  rs_Role : string;
}.

(** [gopowerstore.ActionType]. *)
Inductive ActionType :=
| RsActionFailover | RsActionReprotect | RsActionResume | RsActionPause
| RsActionSync.

Record FailoverParams := { IsPlanned : bool; Reverse : bool }.

(** One sample of a performance-metrics series.  [TotalIops] is a float in
    the source, compared with zero only; [Timestamp] is the instant, in
    nanoseconds since the Unix epoch, that [time.Parse] recovers from the
    sample's time stamp, [None] when it fails to parse. *)
Record PerformanceMetrics := {
  TotalIops : Q;
  Timestamp : option Z;
}.

(** The calls the controller issues to an array. *)
Inductive Call :=
| GetVolumeCall (id : string)
| GetFSCall (id : string)
| GetReplicationSessionByLocalResourceIDCall (id : string)
| ExecuteActionOnReplicationSessionCall
    (id : string) (action : ActionType) (params : option FailoverParams)
| GetVolumeGroupCall (id : string)
| ModifyVolumeGroupCall (protectionPolicyID : string) (id : string)
| DeleteVolumeGroupCall (id : string)
| GetProtectionPolicyByNameCall (name : string)
| DeleteProtectionPolicyCall (id : string)
| GetReplicationRuleByNameCall (name : string)
| DeleteReplicationRuleCall (id : string)
| PerformanceMetricsByVolumeCall (id : string)
| PerformanceMetricsByFileSystemCall (id : string).

(** A client answers a call from the calls issued so far: the array is a
    stateful peer, and its state is a function of that history.  A Go call
    returns a value and an error; both are kept, since the source reads the
    value of some calls whose error it ignores. *)
Record Client := {
  doGetVolume : list Call → string → Volume * option error;
  doGetFS : list Call → string → FileSystem * option error;
  doGetReplicationSessionByLocalResourceID :
    list Call → string → ReplicationSession * option error;
  doExecuteActionOnReplicationSession :
    list Call → string → ActionType → option FailoverParams → option error;
  doGetVolumeGroup : list Call → string → VolumeGroup * option error;
  doModifyVolumeGroup : list Call → string → string → option error;
  doDeleteVolumeGroup : list Call → string → option error;
  doGetProtectionPolicyByName :
    list Call → string → ProtectionPolicy * option error;
  doDeleteProtectionPolicy : list Call → string → option error;
  doGetReplicationRuleByName :
    list Call → string → ReplicationRule * option error;
  doDeleteReplicationRule : list Call → string → option error;
  doPerformanceMetricsByVolume :
    list Call → string → list PerformanceMetrics * option error;
  doPerformanceMetricsByFileSystem :
    list Call → string → list PerformanceMetrics * option error;
}.

(** ** The monad of controller code: the history of calls is the state, a
    panic ends the run. *)

Inductive outcome (A : Type) :=
| Returned (a : A)
| Panicked (msg : string).
Arguments Returned {A} a.
Arguments Panicked {A} msg.

Definition M (A : Type) : Type := list Call → outcome A * list Call.

Definition ret {A} (a : A) : M A := λ h, (Returned a, h).

Definition bind {A B} (m : M A) (k : A → M B) : M B :=
  λ h, match m h with
       | (Returned a, h') => k a h'
       | (Panicked msg, h') => (Panicked msg, h')
       end.

Definition panic {A} (msg : string) : M A := λ h, (Panicked msg, h).

#[global] Instance M_ret : MRet M := @ret.
#[global] Instance M_bind : MBind M := λ A B k m, bind m k.

(** Issue a call: answer it from the history, then record it. *)
Definition issue {A} (c : Call) (answer : list Call → A) : M A :=
  λ h, (Returned (answer h), (h ++ [c])%list).

(** [l[i]], which panics out of range. *)
Definition index {A} (l : list A) (i : nat) : M A :=
  match l !! i with
  | Some x => ret x
  | None => panic "index out of range"
  end.

Definition GetVolume (c : Client) (id : string) : M (Volume * option error) :=
  issue (GetVolumeCall id) (λ h, doGetVolume c h id).
Definition GetFS (c : Client) (id : string) : M (FileSystem * option error) :=
  issue (GetFSCall id) (λ h, doGetFS c h id).
Definition GetReplicationSessionByLocalResourceID (c : Client) (id : string)
  : M (ReplicationSession * option error) :=
  issue (GetReplicationSessionByLocalResourceIDCall id)
        (λ h, doGetReplicationSessionByLocalResourceID c h id).
Definition ExecuteActionOnReplicationSession (c : Client) (id : string)
    (action : ActionType) (params : option FailoverParams) : M (option error) :=
  issue (ExecuteActionOnReplicationSessionCall id action params)
        (λ h, doExecuteActionOnReplicationSession c h id action params).
Definition GetVolumeGroup (c : Client) (id : string)
  : M (VolumeGroup * option error) :=
  issue (GetVolumeGroupCall id) (λ h, doGetVolumeGroup c h id).
Definition ModifyVolumeGroup (c : Client) (protectionPolicyID id : string)
  : M (option error) :=
  issue (ModifyVolumeGroupCall protectionPolicyID id)
        (λ h, doModifyVolumeGroup c h protectionPolicyID id).
Definition DeleteVolumeGroup (c : Client) (id : string) : M (option error) :=
  issue (DeleteVolumeGroupCall id) (λ h, doDeleteVolumeGroup c h id).
Definition GetProtectionPolicyByName (c : Client) (name : string)
  : M (ProtectionPolicy * option error) :=
  issue (GetProtectionPolicyByNameCall name)
        (λ h, doGetProtectionPolicyByName c h name).
Definition DeleteProtectionPolicy (c : Client) (id : string)
  : M (option error) :=
  issue (DeleteProtectionPolicyCall id) (λ h, doDeleteProtectionPolicy c h id).
Definition GetReplicationRuleByName (c : Client) (name : string)
  : M (ReplicationRule * option error) :=
  issue (GetReplicationRuleByNameCall name)
        (λ h, doGetReplicationRuleByName c h name).
Definition DeleteReplicationRule (c : Client) (id : string)
  : M (option error) :=
  issue (DeleteReplicationRuleCall id) (λ h, doDeleteReplicationRule c h id).
Definition PerformanceMetricsByVolume (c : Client) (id : string)
  : M (list PerformanceMetrics * option error) :=
  issue (PerformanceMetricsByVolumeCall id)
        (λ h, doPerformanceMetricsByVolume c h id).
Definition PerformanceMetricsByFileSystem (c : Client) (id : string)
  : M (list PerformanceMetrics * option error) :=
  issue (PerformanceMetricsByFileSystemCall id)
        (λ h, doPerformanceMetricsByFileSystem c h id).

(** ** What the sources take from outside

    Library and platform functions the embedded code calls.  Nothing is
    assumed about them: every theorem holds for any [Platform]. *)

Record ClientOptions := { opt_Insecure : bool; opt_RateLimit : option Z }.

Class Platform := {
  (** [common.GetIPListFromString]: the IP addresses found in a string,
      [nil] when there is none. *)
  GetIPListFromString : string → list string;
  (** [strings.ToUpper] *)
  ToUpper : string → string;
  (** [strconv.Atoi] *)
  Atoi : string → option Z;
  (** [filepath.Clean] *)
  Clean : string → string;
  (** [csictx.LookupEnv] on the process environment *)
  LookupEnv : string → option string;
  (** [common.EnvThrottlingRateLimit] *)
  EnvThrottlingRateLimit : string;
  (** [gopowerstore.NewClientWithArgs] *)
  NewClientWithArgs : string → string → string → ClientOptions → Client + error;
  (** [time.Now()], in nanoseconds since the Unix epoch, read after the calls
      issued so far *)
  Now : list Call → Z;
  (** [Service.QueryArrayStatus]: asks the node's status endpoint whether the
      array is connected *)
  QueryArrayStatus : string → bool * option error;
  (** [common.APIPort] and [common.ArrayStatus] *)
  APIPort : string;
  ArrayStatus : string;
  (** the order in which [range] visits the keys of a map, which Go leaves
      unspecified *)
  rangeOrder : gset string → list string;
}.

(** ** Package array *)

(** [PowerStoreArray]; the Go field [Client] is [ArrayClient] here, [None]
    until a client is bound. *)
Record PowerStoreArray := {
  Endpoint : string;
  GlobalID : string;
  Username : string;
  Password : string;
  NasName : string;
  BlockProtocol : string;
  Insecure : bool;
  IsDefault : bool;
  NfsAcls : string;
  ArrayClient : option Client;
  IP : string;
}.

(** [csi.VolumeCapability], as far as [ParseVolumeID] reads it. *)
Record MountVolume := { FsType : string }.
Record VolumeCapability := { Mount : option MountVolume }.

(** The five strings [ParseVolumeID] returns next to its error. *)
Record VolumeHandle := {
  localVolumeID : string;
  arrayID : string;
  protocol : string;
  remoteVolumeID : string;
  remoteArrayID : string;
}.

Definition lookupString (m : gmap string string) (k : string) : string :=
  default "" (m !! k).

Section ParseVolumeID.
Context `{Platform}.

(** The legacy branch: a volume handle that is a bare volume ID.  [inl] is an
    early return of the whole function, [inr] the array ID and protocol. *)
Definition classifyLegacy (localVolumeID : string)
    (defaultArray : option PowerStoreArray) (vc : option VolumeCapability)
  : M ((VolumeHandle * option error) + (string * string)) :=
  match defaultArray with
  | None => panic "invalid memory address or nil pointer dereference"
  | Some arr =>
      let arrayID := GlobalID arr in
      match vc ≫= Mount with
      | Some mnt =>
          if String.eqb (FsType mnt) "nfs" then mret (inr (arrayID, "nfs"))
          else mret (inr (arrayID, "scsi"))
      | None =>
          match ArrayClient arr with
          | None => panic "invalid memory address or nil pointer dereference"
          | Some client =>
              '(_, err) ← GetVolume client localVolumeID;
              match err with
              | None => mret (inr (arrayID, "scsi"))
              | Some _ =>
                  '(_, err) ← GetFS client localVolumeID;
                  match err with
                  | None => mret (inr (arrayID, "nfs"))
                  | Some err =>
                      if isNotFoundAPIError err then
                        mret (inl (Build_VolumeHandle localVolumeID arrayID "" "" "",
                                   Some err))
                      else
                        mret (inl (Build_VolumeHandle localVolumeID arrayID "" "" "",
                                   Some (StatusErr Unknown
                                     ("failure checking volume status: "
                                        +:+ Error err))))
                  end
              end
          end
      end
  end.

(** [ParseVolumeID]; [IPToArray] is the package variable it reads. *)
Definition ParseVolumeID (IPToArray : gmap string string) (volumeHandle : string)
    (defaultArray : option PowerStoreArray) (vc : option VolumeCapability)
  : M (VolumeHandle * option error) :=
  if String.eqb volumeHandle "" then
    mret (Build_VolumeHandle "" "" "" "" "",
          Some (StatusErr FailedPrecondition
                  "unable to parse volume handle. volumeHandle is empty"))
  else
    let volumeHandles := Split volumeHandle ":" in
    first ← index volumeHandles 0;
    let localVolumeHandle := Split first "/" in
    localVolumeID ← index localVolumeHandle 0;
    r ← (if (length localVolumeHandle =? 1)%nat then
           classifyLegacy localVolumeID defaultArray vc
         else
           ref ← index localVolumeHandle 1;
           let arrayID :=
             match GetIPListFromString ref with
             | ip :: _ => lookupString IPToArray ip
             | [] => ref
             end in
           protocol ← index localVolumeHandle 2;
           mret (inr (arrayID, protocol)));
    match r with
    | inl early => mret early
    | inr (arrayID, protocol) =>
        '(remoteVolumeID, remoteArrayID) ←
          (if (1 <? length volumeHandles)%nat then
             second ← index volumeHandles 1;
             let remoteVolumeHandle := Split second "/" in
             remoteVolumeID ← index remoteVolumeHandle 0;
             remoteArrayID ← index remoteVolumeHandle 1;
             mret (remoteVolumeID, remoteArrayID)
           else mret ("", ""));
        mret (Build_VolumeHandle localVolumeID arrayID protocol
                                 remoteVolumeID remoteArrayID, None)
    end.

End ParseVolumeID.

(** Modelled from the spec: the encoder of volume handles is not among the
    sources at hand.  The design document gives the wire grammar
    [localID/arrayRef/protocol[:remoteID/remoteArrayID]] and says that
    "encode is the inverse join": the three local fields joined by [/], then,
    for a metro pair, a colon and the two remote fields joined by [/].  A
    handle has a remote part when one of its remote fields is not empty. *)
Definition EncodeVolumeID (v : VolumeHandle) : string :=
  let loc := Join [localVolumeID v; arrayID v; protocol v] "/" in
  if String.eqb (remoteVolumeID v) "" && String.eqb (remoteArrayID v) "" then loc
  else loc +:+ ":" +:+ Join [remoteVolumeID v; remoteArrayID v] "/".

(** *** The registry of arrays

    [GetPowerStoreArrays] works on pointers: the arrays of the configuration
    are objects that the loop updates in place, and the maps and the default
    array it returns point to them.  The store of these objects is a list, a
    pointer is a position in it, [None] is [nil]. *)

Abbreviation ptr := nat.
Abbreviation Store := (list PowerStoreArray).

(** Modelled from the spec: the constant [common.AutoDetectTransport] is
    declared in [pkg/common]; the design document lists the transports
    [AUTO, ISCSI, FC, NVME, NFS]. *)
Definition AutoDetectTransport : string := "AUTO".

(** [fs.Interface], as far as the registry uses it. *)
Record FS := { ReadFile : string → string + error }.

(** [yaml.Unmarshal] into [config]: the arrays listed, [None] for an entry
    that is [null].  Each array listed becomes a new object of the store. *)
Class Yaml := { Unmarshal : string → list (option PowerStoreArray) + error }.

Fixpoint allocate (st : Store) (entries : list (option PowerStoreArray))
  : Store * list (option ptr) :=
  match entries with
  | [] => (st, [])
  | None :: es => let '(st', ps) := allocate st es in (st', None :: ps)
  | Some a :: es =>
      let '(st', ps) := allocate (st ++ [a])%list es in
      (st', Some (length st) :: ps)
  end.

(** What [GetPowerStoreArrays] returns. *)
Record Arrays := {
  arrayMap : gmap string ptr;
  mapper : gmap string string;
  defaultArrayPtr : option ptr;
  loadErr : option error;
}.

Section Registry.
Context `{Platform} `{Yaml}.

Definition clientOptionsFor (array : PowerStoreArray) : ClientOptions :=
  let clientOptions := {| opt_Insecure := Insecure array; opt_RateLimit := None |} in
  match LookupEnv EnvThrottlingRateLimit with
  | Some throttlingRateLimit =>
      match Atoi throttlingRateLimit with
      | None => clientOptions
      | Some rateLimit =>
          if (rateLimit <? 0)%Z then clientOptions
          else {| opt_Insecure := Insecure array; opt_RateLimit := Some rateLimit |}
      end
  | None => clientOptions
  end.

(** The body of the loop for one array that is not [nil] and has a GlobalID:
    the object as the iteration leaves it, and the error it returns if any. *)
Definition initArray (array : PowerStoreArray) : PowerStoreArray * option error :=
  match NewClientWithArgs (Endpoint array) (Username array) (Password array)
                          (clientOptionsFor array) with
  | inr e =>
      (array, Some (StatusErr FailedPrecondition
                      ("unable to create PowerStore client: " +:+ Error e)))
  | inl c =>
      let blockProtocol :=
        ToUpper (if String.eqb (BlockProtocol array) "" then AutoDetectTransport
                 else BlockProtocol array) in
      let withClient ip :=
        {| Endpoint := Endpoint array; GlobalID := GlobalID array;
           Username := Username array; Password := Password array;
           NasName := NasName array; BlockProtocol := blockProtocol;
           Insecure := Insecure array; IsDefault := IsDefault array;
           NfsAcls := NfsAcls array; ArrayClient := Some c; IP := ip |} in
      let failed :=
        (withClient (IP array),
         Some (PlainErr ("can't get ips from endpoint: " +:+ Endpoint array))) in
      match GetIPListFromString (Endpoint array) with
      | [] =>
          match Split (Endpoint array) "/" !! 2%nat with
          | Some host =>
              if onlyDigitsAndDots host then failed
              else (withClient host, None)
          | None => failed
          end
      | ip :: _ => (withClient ip, None)
      end
  end.

(** The [for] loop over [cfg.Arrays], with the variables it updates. *)
Fixpoint loadArrays (arrays : list (option ptr)) (st : Store)
    (arrayMap : gmap string ptr) (mapper : gmap string string)
    (defaultArray : option ptr) (foundDefault : bool) : Arrays * Store :=
  match arrays with
  | [] => (Build_Arrays arrayMap mapper defaultArray None, st)
  | None :: _ => (Build_Arrays arrayMap mapper defaultArray None, st)
  | Some p :: rest =>
      match st !! p with
      | None => (Build_Arrays arrayMap mapper defaultArray None, st)
      | Some array =>
          if String.eqb (GlobalID array) "" then
            (Build_Arrays ∅ ∅ None
               (Some (PlainErr "no GlobalID field found in config.yaml - update config.yaml according to the documentation")),
             st)
          else
            match initArray array with
            | (array', Some e) =>
                (Build_Arrays ∅ ∅ None (Some e), <[p := array']> st)
            | (array', None) =>
                let st' := <[p := array']> st in
                let arrayMap' := <[GlobalID array' := p]> arrayMap in
                let mapper' := <[IP array' := GlobalID array']> mapper in
                if IsDefault array' && negb foundDefault then
                  loadArrays rest st' arrayMap' mapper' (Some p) true
                else
                  loadArrays rest st' arrayMap' mapper' defaultArray foundDefault
            end
      end
  end.

Definition GetPowerStoreArrays (fs : FS) (filePath : string) (st : Store)
  : Arrays * Store :=
  match ReadFile fs (Clean filePath) with
  | inr e => (Build_Arrays ∅ ∅ None (Some e), st)
  | inl data =>
      match Unmarshal data with
      | inr e => (Build_Arrays ∅ ∅ None (Some e), st)
      | inl entries =>
          let '(st, cfgArrays) := allocate st entries in
          match cfgArrays with
          | [] => (Build_Arrays ∅ ∅ None None, st)
          | first :: _ => loadArrays cfgArrays st ∅ ∅ first false
          end
      end
  end.

(** [Locker], with the package variable [IPToArray] and the store next to
    it. *)
Record Locker := {
  arrays : gmap string ptr;
  defaultArray : option ptr;
}.

Record Registry := {
  locker : Locker;
  IPToArray : gmap string string;
  store : Store;
}.

Definition SetArrays (s : Locker) (arrays : gmap string ptr) : Locker :=
  {| arrays := arrays; defaultArray := defaultArray s |}.

Definition SetDefaultArray (s : Locker) (array : option ptr) : Locker :=
  {| arrays := arrays s; defaultArray := array |}.

Definition DefaultArray (s : Locker) : option ptr := defaultArray s.

Definition UpdateArrays (r : Registry) (configPath : string) (fs : FS)
  : Registry * option error :=
  let '(res, st) := GetPowerStoreArrays fs configPath (store r) in
  match loadErr res with
  | Some e =>
      ({| locker := locker r; IPToArray := IPToArray r; store := st |},
       Some (PlainErr ("can't get config for arrays: " +:+ Error e)))
  | None =>
      ({| locker := SetDefaultArray (SetArrays (locker r) (arrayMap res))
                                    (defaultArrayPtr res);
          IPToArray := mapper res; store := st |}, None)
  end.

End Registry.

(** ** Package controller *)

(** [Service] embeds the [Locker]; [s.Arrays()[id]] and [s.DefaultArray()]
    are pointers, read through the store. *)
Record Service := {
  registry : Registry;
  replicationContextPrefix : string;
}.

Definition deref (s : Service) (p : ptr) : option PowerStoreArray :=
  store (registry s) !! p.

Definition ArraysAt (s : Service) (id : string) : option PowerStoreArray :=
  arrays (locker (registry s)) !! id ≫= deref s.

Definition ServiceDefaultArray (s : Service) : option PowerStoreArray :=
  DefaultArray (locker (registry s)) ≫= deref s.

(** [Locker.GetOneArray] *)
Definition GetOneArray (s : Service) (globalID : string)
  : option PowerStoreArray * option error :=
  match arrays (locker (registry s)) !! globalID with
  | Some p => (deref s p, None)
  | None => (None, Some (PlainErr "array not found"))
  end.

(** *** Replication actions *)

(** [validateRSState]: is the session in the state the action leads to, and
    if not, does the action have to be issued. *)
Definition validateRSState (session : ReplicationSession) (action : ActionType)
  : bool * bool * option error :=
  let state := rs_State session in
  match action with
  | RsActionResume =>
      if String.eqb state "OK" then (true, false, None) else (false, true, None)
  | RsActionReprotect =>
      if String.eqb state "OK" then (true, false, None) else (false, true, None)
  | RsActionPause =>
      if String.eqb state "Paused" || String.eqb state "Paused_For_Migration"
         || String.eqb state "Paused_For_NDU"
      then (true, false, None) else (false, true, None)
  | RsActionFailover =>
      if String.eqb state "Failing_Over" then (false, false, None)
      else if String.eqb state "Failed_Over" then (true, false, None)
      else (false, true, None)
  | RsActionSync => (false, true, None)
  end.

Definition isUnableToFailoverFromDestination (e : error) : bool :=
  match e with
  | APIErr a => UnableToFailoverFromDestination a
  | _ => false
  end.

(** The function [ExecuteAction]: validates the state of the session and
    executes the action on it. *)
Definition ExecuteAction (session : ReplicationSession) (pstoreClient : Client)
    (action : ActionType) (failoverParams : option FailoverParams)
  : M (option error) :=
  let '(inDesiredState, actionRequired, err) := validateRSState session action in
  match err with
  | Some e => mret (Some e)
  | None =>
      if negb inDesiredState then
        if negb actionRequired then
          mret (Some (StatusErr Aborted
                 ("Execute action: RS (" +:+ rs_ID session
                    +:+ ") is still executing previous action")))
        else
          err ← ExecuteActionOnReplicationSession pstoreClient (rs_ID session)
                                                  action failoverParams;
          match err with
          | Some e =>
              if isUnableToFailoverFromDestination e then
                mret (Some (StatusErr Internal
                       ("Execute action: Failed to modify RS (" +:+ rs_ID session
                          +:+ ") - Error (" +:+ Error e +:+ ")")))
              else mret None
          | None => mret None
          end
      else mret None
  end.

(** [csiext.ActionTypes]; [ActionTypes_OTHER] stands for the values the
    controller does not support. *)
Inductive ActionTypes :=
| ActionTypes_FAILOVER_REMOTE
| ActionTypes_UNPLANNED_FAILOVER_LOCAL
| ActionTypes_REPROTECT_LOCAL
| ActionTypes_SUSPEND
| ActionTypes_RESUME
| ActionTypes_SYNC
| ActionTypes_OTHER (name : string).

Inductive StorageProtectionGroupStatus_State :=
| SYNCHRONIZED | FAILEDOVER | SUSPENDED | SYNC_IN_PROGRESS | INVALID | UNKNOWN.

Record StorageProtectionGroupStatus := {
  State : StorageProtectionGroupStatus_State;
  IsSource : bool;
}.

Record ExecuteActionRequest := {
  ea_ProtectionGroupId : string;
  ea_ProtectionGroupAttributes : gmap string string;
  ea_Action : ActionTypes;
}.

Record ExecuteActionResponse := {
  Success : bool;
  Action : ActionTypes;
  Status : StorageProtectionGroupStatus;
}.

(** The [switch] of [Service.ExecuteAction]: the action of the array and its
    parameters for a requested action, [None] for an unsupported one. *)
Definition actionFor (action : ActionTypes)
  : option (ActionType * option FailoverParams) :=
  match action with
  | ActionTypes_FAILOVER_REMOTE =>
      Some (RsActionFailover, Some {| IsPlanned := true; Reverse := false |})
  | ActionTypes_UNPLANNED_FAILOVER_LOCAL =>
      Some (RsActionFailover, Some {| IsPlanned := false; Reverse := false |})
  | ActionTypes_SUSPEND => Some (RsActionPause, None)
  | ActionTypes_RESUME => Some (RsActionResume, None)
  | ActionTypes_SYNC => Some (RsActionSync, None)
  | ActionTypes_REPROTECT_LOCAL => Some (RsActionReprotect, None)
  | ActionTypes_OTHER _ => None
  end.

Definition projectState (state : string) : StorageProtectionGroupStatus_State :=
  if String.eqb state "OK" then SYNCHRONIZED
  else if String.eqb state "Failed_Over" then FAILEDOVER
  else if String.eqb state "Paused" || String.eqb state "Paused_For_Migration"
          || String.eqb state "Paused_For_NDU" || String.eqb state "System_Paused"
  then SUSPENDED
  else if String.eqb state "Failing_Over" || String.eqb state "Failing_Over_For_DR"
          || String.eqb state "Resuming" || String.eqb state "Reprotecting"
          || String.eqb state "Partial_Cutover_For_Migration"
          || String.eqb state "Synchronizing" || String.eqb state "Initializing"
  then SYNC_IN_PROGRESS
  else if String.eqb state "Error" then INVALID
  else UNKNOWN.

Definition nilPointer {A} : M A :=
  panic "invalid memory address or nil pointer dereference".

(** [arr.GetClient()] followed by a call on it. *)
Definition withClient {A} (arr : PowerStoreArray) (k : Client → M A) : M A :=
  match ArrayClient arr with
  | Some c => k c
  | None => nilPointer
  end.

(** [Service.GetStorageProtectionGroupStatus] *)
Definition GetStorageProtectionGroupStatus (s : Service)
    (localParams : gmap string string) (groupID : string)
  : M (option StorageProtectionGroupStatus * option error) :=
  match localParams !! (replicationContextPrefix s +:+ "globalID") with
  | None =>
      mret (None, Some (StatusErr InvalidArgument
                          "missing globalID in protection group attributes"))
  | Some globalID =>
      match ArraysAt s globalID with
      | None =>
          mret (None, Some (StatusErr InvalidArgument
                              ("can't find array with global id " +:+ globalID)))
      | Some arr =>
          withClient arr (λ client,
            '(rs, err) ← GetReplicationSessionByLocalResourceID client groupID;
            match err with
            | Some e => mret (None, Some e)
            | None =>
                mret (Some {| State := projectState (rs_State rs);
                              IsSource := negb (String.eqb (rs_Role rs) "Destination") |},
                      None)
            end)
      end
  end.

(** The method [Service.ExecuteAction]. *)
Definition ServiceExecuteAction (s : Service) (req : ExecuteActionRequest)
  : M (option ExecuteActionResponse * option error) :=
  let localParams := ea_ProtectionGroupAttributes req in
  let protectionGroupID := ea_ProtectionGroupId req in
  match localParams !! (replicationContextPrefix s +:+ "globalID") with
  | None =>
      mret (None, Some (StatusErr InvalidArgument
                          "missing globalID in protection group attributes"))
  | Some globalID =>
      match ArraysAt s globalID with
      | None =>
          mret (None, Some (StatusErr InvalidArgument
                              ("can't find array with global id " +:+ globalID)))
      | Some arr =>
          withClient arr (λ pstoreClient,
            '(rs, err) ← GetReplicationSessionByLocalResourceID pstoreClient
                                                                 protectionGroupID;
            match err with
            | Some e => mret (None, Some e)
            | None =>
                match actionFor (ea_Action req) with
                | None =>
                    mret (None, Some (StatusErr Unknown
                      "The requested action does not match with supported actions"))
                | Some (execAction, params) =>
                    resErr ← ExecuteAction rs pstoreClient execAction params;
                    match resErr with
                    | Some e => mret (None, Some e)
                    | None =>
                        '(statusResp, err) ←
                          GetStorageProtectionGroupStatus s localParams
                                                          protectionGroupID;
                        match statusResp, err with
                        | _, Some e =>
                            mret (None, Some (StatusErr Internal
                              ("can't get storage protection group status: "
                                 +:+ Error e)))
                        | Some st, None =>
                            mret (Some {| Success := true;
                                          Action := ea_Action req;
                                          Status := st |}, None)
                        | None, None => nilPointer
                        end
                    end
                end
            end)
      end
  end.

(** *** Deleting a protection group *)

(** What [Service.DeleteStorageProtectionGroup] returns: the response, which
    carries nothing, and the error. *)
Definition DeleteReply : Type := option unit * option error.

Definition internal (msg : string) : DeleteReply :=
  (None, Some (StatusErr Internal msg)).

(** The three parts of [Service.DeleteStorageProtectionGroup].  Each issues
    its calls and yields [Some] for a [return] of the whole function, [None]
    to go on. *)

(** Un-assign the protection policy from the volume group and delete the
    group, if the array still has it. *)
Definition deleteVolumeGroup (client : Client) (groupID : string)
  : M (option DeleteReply) :=
  '(vg, err) ← GetVolumeGroup client groupID;
  if isAPIErrorNotNotFound err then
    mret (Some (internal "Error: Unable to get Volume Group"))
  else if negb (String.eqb (vg_ID vg) "") then
    r ← (if negb (String.eqb (vg_ProtectionPolicyID vg) "") then
           err ← ModifyVolumeGroup client "" groupID;
           if isAPIErrorNotNotFound err then
             mret (Some (internal "Error: Unable to un-assign PP from Volume Group"))
           else mret None
         else mret None);
    match r with
    | Some early => mret (Some early)
    | None =>
        err ← DeleteVolumeGroup client groupID;
        match err with
        | Some (APIErr apiError) =>
            if negb (NotFound apiError) then
              mret (Some (internal ("Error: " +:+ Error (APIErr apiError)
                                      +:+ ": Unable to delete Volume Group")))
            else mret None
        | _ => mret None
        end
    end
  else mret None.

(** Delete the protection policy [pp-<vgName>] if it owns nothing. *)
Definition deleteProtectionPolicy (client : Client) (vgName : string)
  : M (option DeleteReply) :=
  '(pp, err) ← GetProtectionPolicyByName client ("pp-" +:+ vgName);
  if isAPIErrorNotNotFound err then
    mret (Some (internal "Error: Unable to get the PP"))
  else if negb (String.eqb (pp_ID pp) "")
          && (length (pp_Volumes pp) =? 0)%nat
          && (length (pp_VolumeGroups pp) =? 0)%nat then
    err ← DeleteProtectionPolicy client (pp_ID pp);
    if isAPIErrorNotNotFound err then
      mret (Some (internal "Error: Unable to delete PP"))
    else mret None
  else mret None.

(** Delete the replication rule [rr-<vgName>] if no policy refers to it. *)
Definition deleteReplicationRule (client : Client) (vgName : string)
  : M (option DeleteReply) :=
  '(rr, err) ← GetReplicationRuleByName client ("rr-" +:+ vgName);
  if isAPIErrorNotNotFound err then
    mret (Some (internal "Error: RR not found"))
  else if negb (String.eqb (rr_ID rr) "")
          && (length (rr_ProtectionPolicies rr) =? 0)%nat then
    err ← DeleteReplicationRule client (rr_ID rr);
    if isAPIErrorNotNotFound err then
      mret (Some (internal "Error: Unable to delete replication rule"))
    else mret None
  else mret None.

(** [Service.DeleteStorageProtectionGroup] *)
Definition DeleteStorageProtectionGroup (s : Service)
    (localParams : gmap string string) (groupID : string) : M DeleteReply :=
  match localParams !! (replicationContextPrefix s +:+ "globalID") with
  | None =>
      mret (None, Some (StatusErr InvalidArgument
                          "missing globalID in protection group attributes"))
  | Some globalID =>
      match ArraysAt s globalID with
      | None =>
          mret (None, Some (StatusErr InvalidArgument
                              ("can't find array with global id " +:+ globalID)))
      | Some arr =>
          withClient arr (λ client,
            r ← deleteVolumeGroup client groupID;
            match r with
            | Some early => mret early
            | None =>
                match localParams !! (replicationContextPrefix s
                                        +:+ "VolumeGroupName") with
                | None => mret (internal "Error: Unable to get volume group name")
                | Some vgName =>
                    r ← deleteProtectionPolicy client vgName;
                    match r with
                    | Some early => mret early
                    | None =>
                        r ← deleteReplicationRule client vgName;
                        match r with
                        | Some early => mret early
                        | None => mret (Some (), None)
                        end
                    end
                end
            end)
      end
  end.

(** *** Connectivity of a node and IO in progress *)

Record ValidateVolumeHostConnectivityRequest := {
  VolumeIds : list string;
  ArrayId : string;
  NodeId : string;
}.

Record ValidateVolumeHostConnectivityResponse := {
  Connected : bool;
  IosInProgress : bool;
  Messages : list string;
}.

(** [time.Now()] *)
Definition clock `{Platform} : M Z := λ h, (Returned (Now h), h).

(** [checkIfEntryIsLatest]: the time stamp parsed, and less than sixty seconds
    before [currentTime]. *)
Definition checkIfEntryIsLatest (currentTime : Z) (timestamp : option Z) : bool :=
  match timestamp with
  | None => false
  | Some timeFromResponse =>
      (currentTime - timeFromResponse <? 60 * 1000000000)%Z
  end.

(** [TotalIops > 0.0] *)
Definition positiveIops (m : PerformanceMetrics) : bool :=
  negb (Qle_bool (TotalIops m) 0).

(** The loop [for i := len(resp) - 1; i >= len(resp)-4 && i >= 0; i--] over
    the samples; [fuel] bounds the number of iterations. *)
Fixpoint lastEntriesLoop (fuel : nat) (resp : list PerformanceMetrics)
    (i : Z) (currentTime : Z) : bool :=
  match fuel with
  | O => false
  | S fuel' =>
      if (Z.of_nat (length resp) - 4 <=? i)%Z && (0 <=? i)%Z then
        match resp !! Z.to_nat i with
        | Some m =>
            if positiveIops m && checkIfEntryIsLatest currentTime (Timestamp m)
            then true
            else lastEntriesLoop fuel' resp (i - 1) currentTime
        | None => false
        end
      else false
  end.

Definition lastEntries (resp : list PerformanceMetrics) (currentTime : Z) : bool :=
  lastEntriesLoop (S (length resp)) resp (Z.of_nat (length resp) - 1) currentTime.

Section Connectivity.
Context `{Platform}.

(** [Service.IsIOInProgress]: [nil] when IO is in progress, an error
    otherwise. *)
Definition IsIOInProgress (volID : string) (arrayConfig : PowerStoreArray)
    (protocol : string) : M (option error) :=
  match ArrayClient arrayConfig with
  | None => nilPointer
  | Some client =>
      '(resp, err) ←
        (if String.eqb protocol "scsi" then PerformanceMetricsByVolume client volID
         else PerformanceMetricsByFileSystem client volID);
      match err with
      | Some e =>
          mret (Some (PlainErr ("error " +:+ Error e
                                  +:+ " while while checking IsIOInProgress")))
      | None =>
          currentTime ← clock;
          if lastEntries resp currentTime then mret None
          else mret (Some (PlainErr "no IOInProgress"))
      end
  end.

(** [Service.checkIfNodeIsConnected]: the response as the check leaves it,
    and the error it returns. *)
Definition checkIfNodeIsConnected (arrayID nodeID : string)
    (rep : ValidateVolumeHostConnectivityResponse)
  : ValidateVolumeHostConnectivityResponse * option error :=
  let rep := {| Connected := false; IosInProgress := IosInProgress rep;
                Messages := Messages rep |} in
  match last (GetIPListFromString nodeID) with
  | None => (rep, Some (PlainErr "failed to parse node ID"))
  | Some ip =>
      let url := "http://" +:+ ip +:+ APIPort +:+ ArrayStatus +:+ "/" +:+ arrayID in
      let '(connected, err) := QueryArrayStatus url in
      let messages :=
        match err with
        | Some e =>
            (Messages rep ++
               ["connectivity unknown for array " +:+ arrayID +:+ " to node "
                  +:+ nodeID +:+ " due to " +:+ Error e])%list
        | None => Messages rep
        end in
      if connected then
        ({| Connected := true; IosInProgress := IosInProgress rep;
            Messages := (messages ++ ["array " +:+ arrayID
                           +:+ " is connected to node " +:+ nodeID])%list |}, None)
      else
        ({| Connected := false; IosInProgress := IosInProgress rep;
            Messages := (messages ++ ["array " +:+ arrayID
                           +:+ " is not connected to node " +:+ nodeID])%list |}, None)
  end.

(** What a call returns: the response, [None] for [nil], and the error. *)
Definition Reply : Type :=
  option ValidateVolumeHostConnectivityResponse * option error.

(** The loop over the volume IDs that collects the arrays to check.  The
    controller reads the result of [ParseVolumeID] as one value with the
    fields [LocalUUID], [LocalArrayGlobalID] and [Protocol]: they are
    [localVolumeID], [arrayID] and [protocol] of [VolumeHandle]. *)
Fixpoint collectGlobalIDs (s : Service) (volumeIds : list string)
    (globalIDs : gset string) : M (gset string) :=
  match volumeIds with
  | [] => mret globalIDs
  | volID :: rest =>
      '(volumeHandle, err) ←
        ParseVolumeID (IPToArray (registry s)) volID (ServiceDefaultArray s) None;
      let globalID := arrayID volumeHandle in
      if bool_decide (err ≠ None) || String.eqb globalID "" then
        match ServiceDefaultArray s with
        | None => nilPointer
        | Some d => collectGlobalIDs s rest ({[GlobalID d]} ∪ globalIDs)
        end
      else collectGlobalIDs s rest ({[globalID]} ∪ globalIDs)
  end.

(** The loop over the volume IDs that looks for IO in progress on the array
    [globalID]: [Some] is a [return] of the whole call, [None] the end of the
    loop. *)
Fixpoint checkVolumes (s : Service) (globalID : string) (volumeIds : list string)
    (rep : ValidateVolumeHostConnectivityResponse) : M (option Reply) :=
  match volumeIds with
  | [] => mret None
  | volID :: rest =>
      '(volumeHandle, _) ←
        ParseVolumeID (IPToArray (registry s)) volID (ServiceDefaultArray s) None;
      let id := localVolumeID volumeHandle in
      let globalIDForVol := arrayID volumeHandle in
      let protocol := protocol volumeHandle in
      if negb (String.eqb globalIDForVol globalID) then
        mret (Some (None, Some (PlainErr ("invalid globalId " +:+ globalID
                                            +:+ " is provided"))))
      else
        match GetOneArray s globalID with
        | (_, Some e) => mret (Some (None, Some e))
        | (None, None) => nilPointer
        | (Some arraysConfig, None) =>
            err ← IsIOInProgress id arraysConfig protocol;
            match err with
            | None =>
                mret (Some (Some {| Connected := Connected rep;
                                    IosInProgress := true;
                                    Messages := Messages rep |}, None))
            | Some _ => checkVolumes s globalID rest rep
            end
        end
  end.

(** The loop [for globalID := range globalIDs]. *)
Fixpoint checkArrays (s : Service) (req : ValidateVolumeHostConnectivityRequest)
    (globalIDs : list string) (rep : ValidateVolumeHostConnectivityResponse)
  : M Reply :=
  match globalIDs with
  | [] => mret (Some rep, None)
  | globalID :: rest =>
      match checkIfNodeIsConnected globalID (NodeId req) rep with
      | (rep, Some e) => mret (Some rep, Some e)
      | (rep, None) =>
          if (0 <? length (VolumeIds req))%nat then
            r ← checkVolumes s globalID (VolumeIds req) rep;
            match r with
            | Some reply => mret reply
            | None => checkArrays s req rest rep
            end
          else checkArrays s req rest rep
      end
  end.

(** [Service.ValidateVolumeHostConnectivity] *)
Definition ValidateVolumeHostConnectivity (s : Service)
    (req : ValidateVolumeHostConnectivityRequest) : M Reply :=
  let rep := {| Connected := false; IosInProgress := false; Messages := [] |} in
  if ((length (VolumeIds req) =? 0)%nat || String.eqb (ArrayId req) "")
     && String.eqb (NodeId req) "" then
    mret (Some {| Connected := false; IosInProgress := false;
                  Messages := ["ValidateVolumeHostConnectivity is implemented"] |},
          None)
  else if String.eqb (NodeId req) "" then
    mret (None, Some (PlainErr "the NodeID is a required field"))
  else
    globalIDs ←
      (if String.eqb (ArrayId req) "" then
         globalIDs ←
           (if (length (VolumeIds req) =? 0)%nat then
              match ServiceDefaultArray s with
              | None => nilPointer
              | Some d => mret ({[GlobalID d]} : gset string)
              end
            else mret (∅ : gset string));
         collectGlobalIDs s (VolumeIds req) globalIDs
       else mret ({[ArrayId req]} : gset string));
    checkArrays s req (rangeOrder globalIDs) rep.

End Connectivity.

(** ** The wire grammar of volume handles

    [localID/arrayRef/protocol], followed for a metro pair by
    [:remoteID/remoteArrayID]. *)

(** A field holds neither separator. *)
Definition isField (s : string) : bool :=
  negb (hasByte "/" s) && negb (hasByte ":" s).

Definition handleOf (localID arrayRef protocol : string)
    (remote : option (string * string)) : string :=
  let loc := localID +:+ "/" +:+ arrayRef +:+ "/" +:+ protocol in
  match remote with
  | None => loc
  | Some (remoteID, remoteArrayID) =>
      loc +:+ ":" +:+ remoteID +:+ "/" +:+ remoteArrayID
  end.

(** The array ID [ParseVolumeID] takes from an array reference: the entry of
    the IP index for the first address in it, the reference itself when it
    holds no address. *)
Definition arrayOfRef `{Platform} (IPToArray : gmap string string) (ref : string)
  : string :=
  match GetIPListFromString ref with
  | ip :: _ => lookupString IPToArray ip
  | [] => ref
  end.

(** The remote part of a handle: two fields. *)
Definition isRemoteFields (remote : option (string * string)) : bool :=
  match remote with
  | None => true
  | Some (remoteID, remoteArrayID) => isField remoteID && isField remoteArrayID
  end.

(** The remote part of a well-formed handle: two fields, not both empty. *)
Definition isRemote (remote : option (string * string)) : bool :=
  match remote with
  | None => true
  | Some (remoteID, remoteArrayID) =>
      isField remoteID && isField remoteArrayID
      && negb (String.eqb remoteID "" && String.eqb remoteArrayID "")
  end.

(** Every error the client answers is the array's "not found". *)
Definition answersNotFound (e : option error) : Prop :=
  match e with
  | Some e => isNotFoundAPIError e = true
  | None => True
  end.

Record onlyNotFound (c : Client) : Prop := {
  nf_GetVolumeGroup h id : answersNotFound (doGetVolumeGroup c h id).2;
  nf_ModifyVolumeGroup h pp id : answersNotFound (doModifyVolumeGroup c h pp id);
  nf_DeleteVolumeGroup h id : answersNotFound (doDeleteVolumeGroup c h id);
  nf_GetProtectionPolicyByName h n :
    answersNotFound (doGetProtectionPolicyByName c h n).2;
  nf_DeleteProtectionPolicy h id : answersNotFound (doDeleteProtectionPolicy c h id);
  nf_GetReplicationRuleByName h n :
    answersNotFound (doGetReplicationRuleByName c h n).2;
  nf_DeleteReplicationRule h id : answersNotFound (doDeleteReplicationRule c h id);
}.

(** *** What a run of [DeleteStorageProtectionGroup] deletes *)

(** Among the [calls] issued after [hist], every call [del id] comes right
    after a call [lookup name], and what the array answered to that lookup
    is [ok] for [id]. *)
Definition guardedBy (del lookup : string → Call)
    (ok : list Call → string → string → Prop) (hist calls : list Call) : Prop :=
  ∀ before id after,
    calls = (before ++ del id :: after)%list →
    ∃ before' name,
      before = (before' ++ [lookup name])%list ∧ ok (hist ++ before')%list name id.

(** Every deletion of a protection policy comes right after the lookup of a
    policy by name, and the array answered that lookup with the policy
    deleted, owning no volume and no volume group. *)
Definition policyGuard (client : Client) : list Call → list Call → Prop :=
  guardedBy DeleteProtectionPolicyCall GetProtectionPolicyByNameCall
    (λ h name id,
       let pp := (doGetProtectionPolicyByName client h name).1 in
       pp_ID pp = id ∧ pp_Volumes pp = [] ∧ pp_VolumeGroups pp = []).

(** Likewise, every deletion of a replication rule comes right after the
    lookup of a rule by name, and the array answered that lookup with the rule
    deleted, referred to by no protection policy. *)
Definition ruleGuard (client : Client) : list Call → list Call → Prop :=
  guardedBy DeleteReplicationRuleCall GetReplicationRuleByNameCall
    (λ h name id,
       let rr := (doGetReplicationRuleByName client h name).1 in
       rr_ID rr = id ∧ rr_ProtectionPolicies rr = []).

(** *** The errors of a connectivity check *)

(** The errors [ValidateVolumeHostConnectivity] returns. *)
Inductive callError : error → Prop :=
| NodeIDRequired : callError (PlainErr "the NodeID is a required field")
| NodeIDUnparsable : callError (PlainErr "failed to parse node ID")
| InvalidGlobalID globalID :
    callError (PlainErr ("invalid globalId " +:+ globalID +:+ " is provided"))
| ArrayNotFound : callError (PlainErr "array not found").

(** The errors of a probe, [IsIOInProgress]: the query of the metrics failed,
    or the samples show no IO. *)
Inductive probeError : error → Prop :=
| QueryFailed e :
    probeError (PlainErr ("error " +:+ Error e
                            +:+ " while while checking IsIOInProgress"))
| NoIOInProgress : probeError (PlainErr "no IOInProgress").

(** ** Concrete platforms, clients and services for the examples *)

Module Examples.

#[export] Instance platform : Platform := {|
  GetIPListFromString := IPScan.GetIPListFromString;
  ToUpper := λ s, s;
  Atoi := λ _, None;
  Clean := λ p, p;
  LookupEnv := λ _, None;
  EnvThrottlingRateLimit := "X_CSI_POWERSTORE_THROTTLING_RATE_LIMIT";
  NewClientWithArgs := λ _ _ _ _, inr (PlainErr "no route to host");
  Now := λ _, 1700000000000000000%Z;
  QueryArrayStatus := λ _, (true, None);
  APIPort := ":9028";
  ArrayStatus := "/array-status";
  rangeOrder := elements;
|}.

(** A client that answers every call with the same error, or with none, and
    every metrics query with the same series. *)
Definition client (e : option error) (series : list PerformanceMetrics) : Client := {|
  doGetVolume := λ _ id, ({| vol_ID := ""; vol_ProtectionPolicyID := "" |}, e);
  doGetFS := λ _ id, ({| fs_ID := "" |}, e);
  doGetReplicationSessionByLocalResourceID := λ _ id,
    ({| rs_ID := ""; rs_State := ""; rs_Role := "" |}, e);
  doExecuteActionOnReplicationSession := λ _ _ _ _, e;
  doGetVolumeGroup := λ _ _, ({| vg_ID := ""; vg_ProtectionPolicyID := "" |}, e);
  doModifyVolumeGroup := λ _ _ _, e;
  doDeleteVolumeGroup := λ _ _, e;
  doGetProtectionPolicyByName := λ _ _,
    ({| pp_ID := ""; pp_Volumes := []; pp_VolumeGroups := [] |}, e);
  doDeleteProtectionPolicy := λ _ _, e;
  doGetReplicationRuleByName := λ _ _,
    ({| rr_ID := ""; rr_ProtectionPolicies := [] |}, e);
  doDeleteReplicationRule := λ _ _, e;
  doPerformanceMetricsByVolume := λ _ _, (series, e);
  doPerformanceMetricsByFileSystem := λ _ _, (series, e);
|}.

Definition serverError : error :=
  APIErr {| apiMessage := "internal server error"; NotFound := false;
            UnableToFailoverFromDestination := false;
            VolumeNameIsAlreadyUse := false |}.

Definition notFound : error :=
  APIErr {| apiMessage := "not found"; NotFound := true;
            UnableToFailoverFromDestination := false;
            VolumeNameIsAlreadyUse := false |}.

(** A client of an array that holds the session [rs-1], in state [OK], and
    refuses every action on it with a server error. *)
Definition rejecting : Client := {|
  doGetVolume := doGetVolume (client None []);
  doGetFS := doGetFS (client None []);
  doGetReplicationSessionByLocalResourceID := λ _ _,
    ({| rs_ID := "rs-1"; rs_State := "OK"; rs_Role := "Source" |}, None);
  doExecuteActionOnReplicationSession := λ _ _ _ _, Some serverError;
  doGetVolumeGroup := doGetVolumeGroup (client None []);
  doModifyVolumeGroup := doModifyVolumeGroup (client None []);
  doDeleteVolumeGroup := doDeleteVolumeGroup (client None []);
  doGetProtectionPolicyByName := doGetProtectionPolicyByName (client None []);
  doDeleteProtectionPolicy := doDeleteProtectionPolicy (client None []);
  doGetReplicationRuleByName := doGetReplicationRuleByName (client None []);
  doDeleteReplicationRule := doDeleteReplicationRule (client None []);
  doPerformanceMetricsByVolume := doPerformanceMetricsByVolume (client None []);
  doPerformanceMetricsByFileSystem :=
    doPerformanceMetricsByFileSystem (client None []);
|}.

Definition suspend : ExecuteActionRequest := {|
  ea_ProtectionGroupId := "vg-1";
  ea_ProtectionGroupAttributes := {["powerstore/globalID" := "PS1"]};
  ea_Action := ActionTypes_SUSPEND |}.

Definition array (c : Client) : PowerStoreArray := {|
  Endpoint := "https://10.0.0.1/api/rest"; GlobalID := "PS1";
  Username := "admin"; Password := ""; NasName := ""; BlockProtocol := "AUTO";
  Insecure := true; IsDefault := false; NfsAcls := "";
  ArrayClient := Some c; IP := "10.0.0.1" |}.

(** A service that manages the one array [PS1], its default array. *)
Definition service (c : Client) : Service := {|
  registry := {|
    locker := {| arrays := {["PS1" := 0%nat]}; defaultArray := Some 0%nat |};
    IPToArray := {["10.0.0.1" := "PS1"]};
    store := [array c] |};
  replicationContextPrefix := "powerstore/" |}.

(** A configuration of two arrays, neither marked as the default. *)
Definition configured (globalID endpoint : string) : PowerStoreArray := {|
  Endpoint := endpoint; GlobalID := globalID;
  Username := "admin"; Password := ""; NasName := ""; BlockProtocol := "";
  Insecure := true; IsDefault := false; NfsAcls := "";
  ArrayClient := None; IP := "" |}.

Definition twoArrays : list (option PowerStoreArray) :=
  [Some (configured "PS1" "https://10.0.0.1/api/rest");
   Some (configured "PS2" "https://10.0.0.2/api/rest")].

#[export] Instance yaml : Yaml := {| Unmarshal := λ _, inl twoArrays |}.

(** A platform on which clients can be created. *)
Definition reachable : Platform := {|
  GetIPListFromString := IPScan.GetIPListFromString;
  ToUpper := λ s, s;
  Atoi := λ _, None;
  Clean := λ p, p;
  LookupEnv := λ _, None;
  EnvThrottlingRateLimit := "X_CSI_POWERSTORE_THROTTLING_RATE_LIMIT";
  NewClientWithArgs := λ _ _ _ _, inl (client None []);
  Now := λ _, 1700000000000000000%Z;
  QueryArrayStatus := λ _, (true, None);
  APIPort := ":9028";
  ArrayStatus := "/array-status";
  rangeOrder := elements;
|}.

Definition files : FS := {| ReadFile := λ _, inl "arrays: ..." |}.

Definition emptyRegistry : Registry := {|
  locker := {| arrays := ∅; defaultArray := None |};
  IPToArray := ∅;
  store := [] |}.

(** The clients of three arrays: one answers every call with a server error,
    one with "not found", one with no error and no sample. *)
Definition failing : Client := client (Some serverError) [].
Definition absent : Client := client (Some notFound) [].
Definition idle : Client := client None [].

(** A session in state [OK]. *)
Definition session : ReplicationSession :=
  {| rs_ID := "rs-1"; rs_State := "OK"; rs_Role := "Source" |}.

(** The reply to [probeRequest] when no probe finds IO. *)
Definition noIO : ValidateVolumeHostConnectivityResponse := {|
  Connected := true; IosInProgress := false;
  Messages := ["array PS1 is connected to node csi-node-003c684ccb0c4ca0a9c99423563dfd2c-127.0.0.1"] |}.

(** The metro handle of the source's documentation. *)
Definition metro : string :=
  "9f840c56-96e6-4de9-b5a3-27e7c20eaa77/PSabcdef0123/scsi:9f840c56-96e6-4de9-b5a3-27e7c20eaa77/PS0123abcdef".

(** The registry after the configuration [twoArrays] is loaded into the
    empty one. *)
Definition reloaded : Registry :=
  (@UpdateArrays reachable yaml emptyRegistry "config.yaml" files).1.

(** A request to check two volumes of [PS1] from a node. *)
Definition probeRequest : ValidateVolumeHostConnectivityRequest := {|
  VolumeIds := ["vol-1/PS1/scsi"; "vol-2/PS1/scsi"];
  ArrayId := "";
  NodeId := "csi-node-003c684ccb0c4ca0a9c99423563dfd2c-127.0.0.1" |}.

(** A request that names an array and volumes, but no node. *)
Definition noNodeRequest : ValidateVolumeHostConnectivityRequest := {|
  VolumeIds := ["vol-1/PS1/scsi"]; ArrayId := "PS1"; NodeId := "" |}.

(** A series whose last sample but one shows IO five seconds before the time
    of [platform]. *)
Definition busy : list PerformanceMetrics :=
  [ {| TotalIops := 0; Timestamp := None |};
    {| TotalIops := 49 # 10; Timestamp := Some 1699999995000000000%Z |};
    {| TotalIops := 0; Timestamp := Some 1699999995000000000%Z |} ].

(** The series of the repository's tests, [getActiveIOVolumeMetrics] and
    [getInactiveIOVolumeMetrics]: six samples, the third to the fifth read at
    the time of [platform], the others without a time stamp. *)
Definition sample (iops : Q) (fresh : bool) : PerformanceMetrics :=
  {| TotalIops := iops;
     Timestamp := if fresh then Some 1700000000000000000%Z
                  else Some (-62135596800000000000)%Z |}.

Definition activeIOVolumeMetrics : list PerformanceMetrics :=
  [sample 0 false; sample 0 false; sample (49 # 10) true; sample 0 true;
   sample (46 # 10) true; sample 0 false].

Definition inactiveIOVolumeMetrics : list PerformanceMetrics :=
  [sample 0 false; sample 0 false; sample 0 true; sample 0 true;
   sample 0 true; sample 0 false].

(** A configuration whose second array is marked as the default. *)
Definition secondIsDefault : list (option PowerStoreArray) :=
  [Some (configured "PS1" "https://10.0.0.1/api/rest");
   Some {| Endpoint := "https://10.0.0.2/api/rest"; GlobalID := "PS2";
           Username := "admin"; Password := ""; NasName := "";
           BlockProtocol := ""; Insecure := true; IsDefault := true;
           NfsAcls := ""; ArrayClient := None; IP := "" |}].

(** The attributes of a protection group of [PS1]. *)
Definition attributes : gmap string string :=
  {[ "powerstore/globalID" := "PS1"; "powerstore/VolumeGroupName" := "vg" ]}.

End Examples.

(** ** Handles of local volumes, for the statements about requests *)



(** A run that returned, as opposed to one that panicked. *)
Definition returned {A} (o : outcome A) : Prop :=
  match o with
  | Returned _ => True
  | Panicked _ => False
  end.

(** ** More of package controller *)

(** [csiext.ReplicationCapability_RPC_Type], as far as the controller
    advertises it. *)
Inductive ReplicationCapability_RPC_Type :=
| CREATE_REMOTE_VOLUME
| CREATE_PROTECTION_GROUP
| DELETE_PROTECTION_GROUP
| REPLICATION_ACTION_EXECUTION
| MONITOR_PROTECTION_GROUP.

Record GetReplicationCapabilityResponse := {
  Capabilities : list ReplicationCapability_RPC_Type;
  Actions : list ActionTypes;
}.

(** [Service.GetReplicationCapabilities] *)
Definition GetReplicationCapabilities : GetReplicationCapabilityResponse := {|
  Capabilities :=
    [CREATE_REMOTE_VOLUME; CREATE_PROTECTION_GROUP; DELETE_PROTECTION_GROUP;
     REPLICATION_ACTION_EXECUTION; MONITOR_PROTECTION_GROUP];
  Actions :=
    [ActionTypes_FAILOVER_REMOTE; ActionTypes_UNPLANNED_FAILOVER_LOCAL;
     ActionTypes_REPROTECT_LOCAL; ActionTypes_SUSPEND; ActionTypes_RESUME;
     ActionTypes_SYNC];
|}.

(** [vgsext.CreateVolumeGroupSnapshotRequest] *)
Record CreateVolumeGroupSnapshotRequest := {
  vgs_Name : string;
  vgs_Description : string;
  vgs_SourceVolumeIDs : list string;
}.

(** [validateCreateVGSreq]: the request has a name of at most 27 bytes and
    source volumes. *)
Definition validateCreateVGSreq (request : CreateVolumeGroupSnapshotRequest)
  : option error :=
  if String.eqb (vgs_Name request) "" then
    Some (StatusErr InvalidArgument
            "CreateVolumeGroupSnapshotRequest needs Name to be set")
  else if (27 <? String.length (vgs_Name request))%nat then
    Some (StatusErr InvalidArgument
            ("Requested name " +:+ vgs_Name request
               +:+ " longer than 27 character max"))
  else if (length (vgs_SourceVolumeIDs request) =? 0)%nat then
    Some (StatusErr InvalidArgument "Source volumes are not present")
  else None.

(** *** The calls of a deletion, by what they are about *)

Inductive Subject := AboutVolumeGroup | AboutProtectionPolicy | AboutReplicationRule.

Definition subjectOf (c : Call) : option Subject :=
  match c with
  | GetVolumeGroupCall _ | ModifyVolumeGroupCall _ _ | DeleteVolumeGroupCall _ =>
      Some AboutVolumeGroup
  | GetProtectionPolicyByNameCall _ | DeleteProtectionPolicyCall _ =>
      Some AboutProtectionPolicy
  | GetReplicationRuleByNameCall _ | DeleteReplicationRuleCall _ =>
      Some AboutReplicationRule
  | _ => None
  end.

(** No error the client answers to the calls of a deletion is an error of
    the array's API other than "not found": its errors, if any, are "not
    found" or are not of the API at all, as a failure of the transport is. *)
Definition passes (e : option error) : Prop := isAPIErrorNotNotFound e = false.

Record noAPIFailure (c : Client) : Prop := {
  ok_GetVolumeGroup h id : passes (doGetVolumeGroup c h id).2;
  ok_ModifyVolumeGroup h pp id : passes (doModifyVolumeGroup c h pp id);
  ok_DeleteVolumeGroup h id : passes (doDeleteVolumeGroup c h id);
  ok_GetProtectionPolicyByName h n : passes (doGetProtectionPolicyByName c h n).2;
  ok_DeleteProtectionPolicy h id : passes (doDeleteProtectionPolicy c h id);
  ok_GetReplicationRuleByName h n : passes (doGetReplicationRuleByName c h n).2;
  ok_DeleteReplicationRule h id : passes (doDeleteReplicationRule c h id);
}.

(** ** More scenarios *)

Module Scenarios.

(** A reload of [Examples.reloaded] on a platform that cannot reach the
    arrays. *)
Definition cutOff : Registry * option error :=
  @UpdateArrays Examples.platform Examples.yaml Examples.reloaded
                "config.yaml" Examples.files.

(** The load of [Examples.twoArrays] into an empty store. *)
Definition loaded : Arrays * Store :=
  @GetPowerStoreArrays Examples.reachable Examples.yaml Examples.files
                       "config.yaml" [].



(** A request that names an array and a node, but no volume. *)
Definition noVolumeRequest : ValidateVolumeHostConnectivityRequest := {|
  VolumeIds := []; ArrayId := "PS1";
  NodeId := "csi-node-003c684ccb0c4ca0a9c99423563dfd2c-127.0.0.1" |}.

Definition second (c : Client) : PowerStoreArray := {|
  Endpoint := "https://10.0.0.2/api/rest"; GlobalID := "PS2";
  Username := "admin"; Password := ""; NasName := ""; BlockProtocol := "AUTO";
  Insecure := true; IsDefault := false; NfsAcls := "";
  ArrayClient := Some c; IP := "10.0.0.2" |}.



(** A client that cannot reach its array: every call fails with an error
    that is not an error of the API. *)
Definition unreachable : Client := Examples.client (Some (PlainErr "connection refused")) [].

End Scenarios.

(** ** Volumes, protection policies and replication rules

    [DeleteLocalVolume] and the [Ensure...] functions issue calls of the
    client that the functions above do not issue.  A run of them has a
    history of requests: the calls above, as [Earlier], and the further
    ones. *)

Record RemoteSystem := {
  sys_ID : string;
  sys_Name : string;
  sys_ManagementAddress : string;
  sys_SerialNumber : string;
}.

(** [gopowerstore.ReplicationRuleCreate]; an [RPOEnum] is a string. *)
Record ReplicationRuleCreate := {
  rrc_Name : string;
  rrc_Rpo : string;
  rrc_RemoteSystemID : string;
}.

(** [gopowerstore.ProtectionPolicyCreate] *)
Record ProtectionPolicyCreate := {
  ppc_Name : string;
  ppc_ReplicationRuleIDs : list string;
}.

(** [gopowerstore.CreateResponse] *)
Record CreateResponse := { cr_ID : string }.

(** A volume group as [GetVolumeGroupsByVolumeID] lists it, with the fields
    that are read of it. *)
Record VolumeGroupOfVolume := { vgv_ID : string; vgv_Name : string }.

(** [gopowerstore.Cluster] *)
Record Cluster := { cl_Name : string; cl_ManagementAddress : string }.

(** [gopowerstore.StorageElementPair] *)
Record StorageElementPair := {
  LocalStorageElementID : string;
  RemoteStorageElementID : string;
}.

(** The fields of a replication session that the functions above do not
    read. *)
Record SessionDetails := {
  rs_LocalResourceID : string;
  rs_RemoteResourceID : string;
  rs_RemoteSystemID : string;
  rs_StorageElementPairs : list StorageElementPair;
}.

(** [gopowerstore.VolumeGroupCreate] *)
Record VolumeGroupCreate := {
  vgc_Name : string;
  vgc_Description : string;
  vgc_VolumeIDs : list string;
}.

(** [gopowerstore.VolumeGroupSnapshotCreate] *)
Record VolumeGroupSnapshotCreate := {
  vgsc_Name : string;
  vgsc_Description : string;
}.

(** [gopowerstore.VolumeGroupMembers] *)
Record VolumeGroupMembers := { vgm_VolumeIDs : list string }.

(** A volume as a volume group lists it, with the fields that are read of
    it; [sv_SourceID] is [ProtectionData.SourceID]. *)
Record MemberVolume := {
  sv_ID : string;
  sv_Name : string;
  sv_State : string;
  sv_Size : Z;
  sv_SourceID : string;
}.

(** The fields of a volume group that the functions above do not read.
    [vg_CreationTimeStamp] is the Unix time, in seconds, that [time.Parse]
    recovers from the time stamp, [None] when it fails to parse. *)
Record VolumeGroupDetails := {
  vg_CreationTimeStamp : option Z;
  vg_Volumes : list MemberVolume;
}.

Inductive Request :=
| Earlier (c : Call)
| GetVolumeGroupByNameCall (name : string)
| AddMembersToVolumeGroupCall (members : VolumeGroupMembers) (id : string)
| CreateVolumeGroupCall (group : VolumeGroupCreate)
| CreateVolumeGroupSnapshotCall (id : string) (snapshot : VolumeGroupSnapshotCreate)
| GetVolumeGroupsByVolumeIDCall (id : string)
| DeleteVolumeCall (id : string)
| GetRemoteSystemByNameCall (name : string)
| GetRemoteSystemCall (id : string)
| GetClusterCall
| CreateReplicationRuleCall (rule : ReplicationRuleCreate)
| CreateProtectionPolicyCall (policy : ProtectionPolicyCreate).

(** The answers of a client to the further calls, from the requests issued
    so far.  [GetReplicationSessionByLocalResourceID], [GetVolume] and
    [GetVolumeGroup] are calls above; [doSessionDetails], [doVolumeSize] and
    [doVolumeGroupDetails] give the fields of their answers that the
    functions above do not read. *)
Record Management := {
  doGetVolumeGroupsByVolumeID :
    list Request → string → list VolumeGroupOfVolume * option error;
  doDeleteVolume : list Request → string → option error;
  doGetRemoteSystemByName : list Request → string → RemoteSystem * option error;
  doCreateReplicationRule :
    list Request → ReplicationRuleCreate → CreateResponse * option error;
  doCreateProtectionPolicy :
    list Request → ProtectionPolicyCreate → CreateResponse * option error;
  doGetRemoteSystem : list Request → string → RemoteSystem * option error;
  doGetCluster : list Request → Cluster * option error;
  doSessionDetails : list Request → string → SessionDetails;
  doVolumeSize : list Request → string → Z;
  doGetVolumeGroupByName : list Request → string → VolumeGroup * option error;
  doAddMembersToVolumeGroup :
    list Request → VolumeGroupMembers → string → option error;
  doCreateVolumeGroup :
    list Request → VolumeGroupCreate → CreateResponse * option error;
  doCreateVolumeGroupSnapshot :
    list Request → string → VolumeGroupSnapshotCreate
    → CreateResponse * option error;
  doVolumeGroupDetails : list Request → string → VolumeGroupDetails;
}.

(** A client answers the further calls too. *)
Class Gopowerstore := management : Client → Management.

(** The monad of these functions: as [M], over requests. *)
Definition MR (A : Type) : Type := list Request → outcome A * list Request.

#[global] Instance MR_ret : MRet MR := λ A a h, (Returned a, h).
#[global] Instance MR_bind : MBind MR := λ A B k m h,
  match m h with
  | (Returned a, h') => k a h'
  | (Panicked msg, h') => (Panicked msg, h')
  end.

Definition request {A} (r : Request) (answer : list Request → A) : MR A :=
  λ h, (Returned (answer h), (h ++ [r])%list).

(** The calls above among the requests. *)
Definition earlierCalls (h : list Request) : list Call :=
  omap (λ r, match r with Earlier c => Some c | _ => None end) h.

(** A run of the functions above amid requests: it reads the calls above
    that were issued, and what it issues is added to the requests. *)
Definition earlier {A} (m : M A) : MR A := λ h,
  let '(out, calls) := m (earlierCalls h) in
  (out, (h ++ (Earlier <$> drop (length (earlierCalls h)) calls))%list).

Definition withManagedClient {A} (arr : PowerStoreArray) (k : Client → MR A)
  : MR A :=
  match ArrayClient arr with
  | Some c => k c
  | None => λ h, (Panicked "invalid memory address or nil pointer dereference", h)
  end.

Section Management.
Context `{Gopowerstore}.

Definition GetVolumeGroupsByVolumeID (c : Client) (id : string)
  : MR (list VolumeGroupOfVolume * option error) :=
  request (GetVolumeGroupsByVolumeIDCall id)
          (λ h, doGetVolumeGroupsByVolumeID (management c) h id).
Definition DeleteVolume (c : Client) (id : string) : MR (option error) :=
  request (DeleteVolumeCall id) (λ h, doDeleteVolume (management c) h id).
Definition GetRemoteSystemByName (c : Client) (name : string)
  : MR (RemoteSystem * option error) :=
  request (GetRemoteSystemByNameCall name)
          (λ h, doGetRemoteSystemByName (management c) h name).
Definition CreateReplicationRule (c : Client) (rule : ReplicationRuleCreate)
  : MR (CreateResponse * option error) :=
  request (CreateReplicationRuleCall rule)
          (λ h, doCreateReplicationRule (management c) h rule).
Definition CreateProtectionPolicy (c : Client) (policy : ProtectionPolicyCreate)
  : MR (CreateResponse * option error) :=
  request (CreateProtectionPolicyCall policy)
          (λ h, doCreateProtectionPolicy (management c) h policy).

(** [csiext.DeleteLocalVolumeRequest] *)
Record DeleteLocalVolumeRequest := { dlv_VolumeHandle : string }.

Definition unableToDelete : option unit * option error :=
  (None, Some (StatusErr Internal "Error: Unable to delete volume")).

(** [Service.DeleteLocalVolume] *)
Definition DeleteLocalVolume (s : Service) (req : DeleteLocalVolumeRequest)
  : MR (option unit * option error) :=
  match Split (dlv_VolumeHandle req) "/" with
  | [volumeID; globalID; _] =>
      match ArraysAt s globalID with
      | None =>
          mret (None, Some (StatusErr InvalidArgument
                              ("can't find array with global ID " +:+ globalID)))
      | Some arr =>
          withManagedClient arr (λ client,
            '(vol, err) ← earlier (GetVolume client volumeID);
            match err with
            | Some e =>
                if isNotFoundAPIError e then mret (Some (), None)
                else mret (None, Some (StatusErr Internal
                                         "Error: Unable to get volume for deletion"))
            | None =>
                '(vgs, err) ← GetVolumeGroupsByVolumeID client volumeID;
                match err with
                | Some e =>
                    if negb (isNotFoundAPIError e) then mret (Some (None, Some e))
                    else mret None
                | None => mret None
                end ≫= λ early,
                match early with
                | Some reply => mret reply
                | None =>
                    if negb (length vgs =? 0)%nat then mret unableToDelete
                    else if negb (String.eqb (vol_ProtectionPolicyID vol) "") then
                      mret unableToDelete
                    else
                      err ← DeleteVolume client volumeID;
                      match err with
                      | Some e =>
                          if negb (isNotFoundAPIError e) then mret unableToDelete
                          else mret (Some (), None)
                      | None => mret (Some (), None)
                      end
                end
            end)
      end
  | _ =>
      mret (None, Some (StatusErr InvalidArgument
                          "can't delete volume of improper handle format"))
  end.

(** [EnsureReplicationRuleExists] *)
Definition EnsureReplicationRuleExists (arr : PowerStoreArray)
    (vgName remoteSystemID rpoEnum : string) : MR (string * option error) :=
  let rrName := "rr-" +:+ vgName in
  withManagedClient arr (λ client,
    '(rr, err) ← earlier (GetReplicationRuleByName client rrName);
    match err with
    | Some _ =>
        '(newRr, err) ← CreateReplicationRule client
                          {| rrc_Name := rrName; rrc_Rpo := rpoEnum;
                             rrc_RemoteSystemID := remoteSystemID |};
        match err with
        | Some e =>
            mret ("", Some (StatusErr Internal
                              ("can't create replication rule: " +:+ Error e)))
        | None => mret (cr_ID newRr, None)
        end
    | None => mret (rr_ID rr, None)
    end).

(** [EnsureProtectionPolicyExists] *)
Definition EnsureProtectionPolicyExists (arr : PowerStoreArray)
    (vgName remoteSystemName rpoEnum : string) : MR (string * option error) :=
  withManagedClient arr (λ client,
    '(rs, err) ← GetRemoteSystemByName client remoteSystemName;
    match err with
    | Some e =>
        mret ("", Some (StatusErr Internal
                          ("can't query remote system by name: " +:+ Error e)))
    | None =>
        let ppName := "pp-" +:+ vgName in
        '(pp, err) ← earlier (GetProtectionPolicyByName client ppName);
        match err with
        | None => mret (pp_ID pp, None)
        | Some _ =>
            '(rrID, err) ← EnsureReplicationRuleExists arr vgName (sys_ID rs) rpoEnum;
            match err with
            | Some _ =>
                mret ("", Some (StatusErr Internal
                                  "can't ensure that replication rule exists"))
            | None =>
                '(newPp, err) ← CreateProtectionPolicy client
                                  {| ppc_Name := ppName;
                                     ppc_ReplicationRuleIDs := [rrID] |};
                match err with
                | Some e =>
                    mret ("", Some (StatusErr Internal
                                      ("can't create protection policy: "
                                         +:+ Error e)))
                | None => mret (cr_ID newPp, None)
                end
            end
        end
    end).

End Management.

Module ManagedScenarios.

(** An array that lists no volume group for a volume, deletes what it is
    asked to delete, knows the remote system [PS2] and creates rules and
    policies. *)
#[export] Instance manager : Gopowerstore := λ _, {|
  doGetVolumeGroupsByVolumeID := λ _ _, ([], None);
  doDeleteVolume := λ _ _, None;
  doGetRemoteSystemByName := λ _ name,
    ({| sys_ID := "remote-1"; sys_Name := name;
        sys_ManagementAddress := "10.0.0.2"; sys_SerialNumber := "PS2" |}, None);
  doCreateReplicationRule := λ _ rule, ({| cr_ID := "rule-1" |}, None);
  doCreateProtectionPolicy := λ _ policy, ({| cr_ID := "policy-1" |}, None);
  doGetRemoteSystem := λ _ id,
    ({| sys_ID := id; sys_Name := "remote";
        sys_ManagementAddress := "10.0.0.2"; sys_SerialNumber := "PS2" |}, None);
  doGetCluster := λ _,
    ({| cl_Name := "local"; cl_ManagementAddress := "10.0.0.1" |}, None);
  doSessionDetails := λ _ id,
    {| rs_LocalResourceID := id; rs_RemoteResourceID := "vg-2";
       rs_RemoteSystemID := "remote-1";
       rs_StorageElementPairs :=
         [{| LocalStorageElementID := "vol-1";
             RemoteStorageElementID := "vol-2" |}] |};
  doVolumeSize := λ _ _, 8589934592%Z;
  doGetVolumeGroupByName := λ _ _,
    ({| vg_ID := ""; vg_ProtectionPolicyID := "" |}, None);
  doAddMembersToVolumeGroup := λ _ _ _, None;
  doCreateVolumeGroup := λ _ _, ({| cr_ID := "vg-1" |}, None);
  doCreateVolumeGroupSnapshot := λ _ _ _, ({| cr_ID := "snap-group-1" |}, None);
  doVolumeGroupDetails := λ _ _,
    {| vg_CreationTimeStamp := Some 1700000000%Z;
       vg_Volumes :=
         [{| sv_ID := "snap-1"; sv_Name := "snapshot-0"; sv_State := "Ready";
             sv_Size := 8589934592; sv_SourceID := "vol-1" |}] |};
|}.

Definition deleteRequest : DeleteLocalVolumeRequest :=
  {| dlv_VolumeHandle := "vol-1/PS1/scsi" |}.

End ManagedScenarios.

(** ** Replicas and protection groups *)

(** [strings.TrimPrefix] *)
Definition TrimPrefix (s prefix : string) : string :=
  if String.prefix prefix s then
    substring (String.length prefix) (String.length s - String.length prefix) s
  else s.

(** A map literal: its entries are added in the order in which they are
    written. *)
Definition mapOf (entries : list (string * string)) : gmap string string :=
  foldl (λ m kv, <[kv.1 := kv.2]> m) ∅ entries.

(** What the code below takes from the packages of host-based NFS:
    [nfs.CsiNfsParameter] and [array.GetVolumeUUIDPrefix]. *)
Class HostBasedNFS := {
  CsiNfsParameter : string;
  GetVolumeUUIDPrefix : string → string;
}.

(** [csiext.Volume] *)
Record CSIVolume := {
  CapacityBytes : Z;
  VolumeId : string;
  VolumeContext : gmap string string;
}.

(** [getRemoteCSIVolume]; a [nil] volume context is the empty map. *)
Definition getRemoteCSIVolume (volumeID : string) (size : Z) : CSIVolume :=
  {| CapacityBytes := size; VolumeId := volumeID; VolumeContext := ∅ |}.

Record CreateRemoteVolumeRequest := {
  crv_VolumeHandle : string;
  crv_Parameters : gmap string string;
}.

Record CreateRemoteVolumeResponse := { RemoteVolume : CSIVolume }.

Record CreateStorageProtectionGroupRequest := {
  spg_VolumeHandle : string;
  spg_Parameters : gmap string string;
}.

Record CreateStorageProtectionGroupResponse := {
  LocalProtectionGroupId : string;
  RemoteProtectionGroupId : string;
  LocalProtectionGroupAttributes : gmap string string;
  RemoteProtectionGroupAttributes : gmap string string;
}.

Section Replicas.
Context `{Platform} `{Gopowerstore} `{HostBasedNFS}.

Definition GetRemoteSystem (c : Client) (id : string)
  : MR (RemoteSystem * option error) :=
  request (GetRemoteSystemCall id) (λ h, doGetRemoteSystem (management c) h id).
Definition GetCluster (c : Client) : MR (Cluster * option error) :=
  request GetClusterCall (λ h, doGetCluster (management c) h).

(** [GetReplicationSessionByLocalResourceID], with all the fields of the
    session that are read. *)
Definition GetReplicationSession (c : Client) (id : string)
  : MR (ReplicationSession * SessionDetails * option error) :=
  λ h, let '(rs, err) :=
         doGetReplicationSessionByLocalResourceID c (earlierCalls h) id in
       (Returned (rs, doSessionDetails (management c) h id, err),
        (h ++ [Earlier (GetReplicationSessionByLocalResourceIDCall id)])%list).

(** [GetVolume], with the size of the volume. *)
Definition GetVolumeWithSize (c : Client) (id : string)
  : MR (Volume * Z * option error) :=
  λ h, let '(vol, err) := doGetVolume c (earlierCalls h) id in
       (Returned (vol, doVolumeSize (management c) h id, err),
        (h ++ [Earlier (GetVolumeCall id)])%list).

(** The prefix of a volume ID of host-based NFS and the ID without it; no
    prefix and the ID as it is for other volumes. *)
Definition splitPrefix (params : gmap string string) (id : string)
  : string * string :=
  match params !! CsiNfsParameter with
  | Some accessMode =>
      if negb (String.eqb accessMode "") then
        let volPrefix := GetVolumeUUIDPrefix id in
        (volPrefix, TrimPrefix id volPrefix)
      else ("", id)
  | None => ("", id)
  end.

(** The loop over the storage element pairs of a session: the remote element
    of the last pair whose local element is [id]. *)
Definition remoteElement (pairs : list StorageElementPair) (id : string) : string :=
  foldl (λ remoteVolumeID sp,
           if String.eqb (LocalStorageElementID sp) id
           then RemoteStorageElementID sp else remoteVolumeID)
        "" pairs.

(** [Service.CreateRemoteVolume] *)
Definition CreateRemoteVolume (s : Service) (req : CreateRemoteVolumeRequest)
  : MR (option CreateRemoteVolumeResponse * option error) :=
  let volID := crv_VolumeHandle req in
  if String.eqb volID "" then
    mret (None, Some (StatusErr InvalidArgument "volume ID is required"))
  else
    let params := crv_Parameters req in
    '(volumeHandle, err) ←
      earlier (ParseVolumeID (IPToArray (registry s)) volID
                             (ServiceDefaultArray s) None);
    match err with
    | Some e => mret (None, Some e)
    | None =>
        let arrayID := arrayID volumeHandle in
        let protocol := protocol volumeHandle in
        let '(volPrefix, id) := splitPrefix params (localVolumeID volumeHandle) in
        match ArraysAt s arrayID with
        | None =>
            mret (None, Some (StatusErr InvalidArgument
                                "failed to find array with given IP"))
        | Some arr =>
            withManagedClient arr (λ client,
              '(vgs, err) ← GetVolumeGroupsByVolumeID client id;
              match err, vgs with
              | Some e, _ => mret (None, Some e)
              | None, [] =>
                  mret (None, Some (StatusErr Unimplemented
                    "replication of volumes that aren't assigned to group is not implemented yet"))
              | None, vg :: _ =>
                  '(rs, details, err) ← GetReplicationSession client (vgv_ID vg);
                  match err with
                  | Some e => mret (None, Some e)
                  | None =>
                      let remoteVolumeID :=
                        remoteElement (rs_StorageElementPairs details) id in
                      if String.eqb remoteVolumeID "" then
                        mret (None, Some (StatusErr Internal
                          ("couldn't find volume id " +:+ id
                             +:+ " in storage element pairs of replication session")))
                      else
                        '(vol, size, err) ← GetVolumeWithSize client id;
                        match err with
                        | Some e =>
                            mret (None, Some (StatusErr Internal
                                                ("can't query volume: " +:+ Error e)))
                        | None =>
                            '(localSystem, err) ← GetCluster client;
                            match err with
                            | Some e => mret (None, Some e)
                            | None =>
                                '(remoteSystem, err) ←
                                  GetRemoteSystem client (rs_RemoteSystemID details);
                                match err with
                                | Some e => mret (None, Some e)
                                | None =>
                                    let p := replicationContextPrefix s in
                                    let remoteParams := mapOf
                                      [("remoteSystem", cl_Name localSystem);
                                       (p +:+ "arrayID", sys_SerialNumber remoteSystem);
                                       (p +:+ "managementAddress",
                                        sys_ManagementAddress remoteSystem)] in
                                    let remoteVolume := getRemoteCSIVolume
                                      (volPrefix +:+ remoteVolumeID +:+ "/"
                                         +:+ lookupString remoteParams (p +:+ "arrayID")
                                         +:+ "/" +:+ protocol)
                                      size in
                                    mret (Some {| RemoteVolume :=
                                            {| CapacityBytes := CapacityBytes remoteVolume;
                                               VolumeId := VolumeId remoteVolume;
                                               VolumeContext := remoteParams |} |},
                                          None)
                                end
                            end
                        end
                  end
              end)
        end
    end.

(** [Service.CreateStorageProtectionGroup] *)
Definition CreateStorageProtectionGroup (s : Service)
    (req : CreateStorageProtectionGroupRequest)
  : MR (option CreateStorageProtectionGroupResponse * option error) :=
  let volID := spg_VolumeHandle req in
  if String.eqb volID "" then
    mret (None, Some (StatusErr InvalidArgument "volume ID is required"))
  else
    let params := spg_Parameters req in
    '(volumeHandle, err) ←
      earlier (ParseVolumeID (IPToArray (registry s)) volID
                             (ServiceDefaultArray s) None);
    match err with
    | Some e => mret (None, Some e)
    | None =>
        let arrayID := arrayID volumeHandle in
        let protocol := protocol volumeHandle in
        let id := (splitPrefix params (localVolumeID volumeHandle)).2 in
        match ArraysAt s arrayID with
        | None =>
            mret (None, Some (StatusErr InvalidArgument
                                "failed to find array with given ID"))
        | Some arr =>
            if String.eqb protocol "nfs" then
              mret (None, Some (StatusErr InvalidArgument
                                  "replication is not supported for NFS volumes"))
            else
              withManagedClient arr (λ client,
                '(vgs, err) ← GetVolumeGroupsByVolumeID client id;
                match err, vgs with
                | Some e, _ => mret (None, Some e)
                | None, [] =>
                    mret (None, Some (StatusErr Unimplemented
                      "replication of volumes that aren't assigned to group is not implemented yet"))
                | None, vg :: _ =>
                    '(rs, details, err) ← GetReplicationSession client (vgv_ID vg);
                    match err with
                    | Some e => mret (None, Some e)
                    | None =>
                        '(localSystem, err) ← GetCluster client;
                        match err with
                        | Some e => mret (None, Some e)
                        | None =>
                            '(remoteSystem, err) ←
                              GetRemoteSystem client (rs_RemoteSystemID details);
                            match err with
                            | Some e => mret (None, Some e)
                            | None =>
                                let p := replicationContextPrefix s in
                                let localParams := mapOf
                                  [(p +:+ "systemName", cl_Name localSystem);
                                   (p +:+ "managementAddress",
                                    cl_ManagementAddress localSystem);
                                   (p +:+ "remoteSystemName", sys_Name remoteSystem);
                                   (p +:+ "remoteManagementAddress",
                                    sys_ManagementAddress remoteSystem);
                                   (p +:+ "globalID", arrayID);
                                   (p +:+ "remoteGlobalID",
                                    sys_SerialNumber remoteSystem);
                                   (p +:+ "VolumeGroupName", vgv_Name vg)] in
                                let remoteParams := mapOf
                                  [(p +:+ "systemName", sys_Name remoteSystem);
                                   (p +:+ "managementAddress",
                                    sys_ManagementAddress remoteSystem);
                                   (p +:+ "remoteSystemName", cl_Name localSystem);
                                   (p +:+ "remoteManagementAddress",
                                    cl_ManagementAddress localSystem);
                                   (p +:+ "globalID", sys_SerialNumber remoteSystem);
                                   (p +:+ "VolumeGroupName", vgv_Name vg)] in
                                mret (Some {|
                                        LocalProtectionGroupId :=
                                          rs_LocalResourceID details;
                                        RemoteProtectionGroupId :=
                                          rs_RemoteResourceID details;
                                        LocalProtectionGroupAttributes := localParams;
                                        RemoteProtectionGroupAttributes := remoteParams
                                      |}, None)
                            end
                        end
                    end
                end)
        end
    end.

End Replicas.

(** The requests that read the state of an array and do not change it. *)
Definition readsOnly (r : Request) : bool :=
  match r with
  | Earlier (GetVolumeCall _) | Earlier (GetFSCall _)
  | Earlier (GetReplicationSessionByLocalResourceIDCall _)
  | Earlier (GetVolumeGroupCall _)
  | Earlier (GetProtectionPolicyByNameCall _)
  | Earlier (GetReplicationRuleByNameCall _)
  | Earlier (PerformanceMetricsByVolumeCall _)
  | Earlier (PerformanceMetricsByFileSystemCall _)
  | GetVolumeGroupsByVolumeIDCall _ | GetRemoteSystemByNameCall _
  | GetRemoteSystemCall _ | GetClusterCall => true
  | _ => false
  end.

Definition isLookup (c : Call) : Prop := readsOnly (Earlier c) = true.

Module ReplicaScenarios.

(** An array on which the volume [vol-1] is in the volume group [vg], which
    a session replicates to the remote system [PS2]. *)
Definition replicating : Gopowerstore := λ _, {|
  doGetVolumeGroupsByVolumeID := λ _ _,
    ([{| vgv_ID := "vg-1"; vgv_Name := "vg" |}], None);
  doDeleteVolume := λ _ _, None;
  doGetRemoteSystemByName := λ _ name,
    ({| sys_ID := "remote-1"; sys_Name := name;
        sys_ManagementAddress := "10.0.0.2"; sys_SerialNumber := "PS2" |}, None);
  doCreateReplicationRule := λ _ rule, ({| cr_ID := "rule-1" |}, None);
  doCreateProtectionPolicy := λ _ policy, ({| cr_ID := "policy-1" |}, None);
  doGetRemoteSystem := λ _ id,
    ({| sys_ID := id; sys_Name := "remote";
        sys_ManagementAddress := "10.0.0.2"; sys_SerialNumber := "PS2" |}, None);
  doGetCluster := λ _,
    ({| cl_Name := "local"; cl_ManagementAddress := "10.0.0.1" |}, None);
  doSessionDetails := λ _ id,
    {| rs_LocalResourceID := id; rs_RemoteResourceID := "vg-2";
       rs_RemoteSystemID := "remote-1";
       rs_StorageElementPairs :=
         [{| LocalStorageElementID := "vol-1";
             RemoteStorageElementID := "vol-2" |}] |};
  doVolumeSize := λ _ _, 8589934592%Z;
  doGetVolumeGroupByName := λ _ _,
    ({| vg_ID := ""; vg_ProtectionPolicyID := "" |}, None);
  doAddMembersToVolumeGroup := λ _ _ _, None;
  doCreateVolumeGroup := λ _ _, ({| cr_ID := "vg-1" |}, None);
  doCreateVolumeGroupSnapshot := λ _ _ _, ({| cr_ID := "snap-group-1" |}, None);
  doVolumeGroupDetails := λ _ _,
    {| vg_CreationTimeStamp := Some 1700000000%Z;
       vg_Volumes :=
         [{| sv_ID := "snap-1"; sv_Name := "snapshot-0"; sv_State := "Ready";
             sv_Size := 8589934592; sv_SourceID := "vol-1" |}] |};
|}.

(** Host-based NFS with the parameter [csi-nfs] and the prefix [nfs-]. *)
Definition hostBasedNFS : HostBasedNFS := {|
  CsiNfsParameter := "csi-nfs";
  GetVolumeUUIDPrefix := λ id, if String.prefix "nfs-" id then "nfs-" else "";
|}.

Definition groupRequest : CreateStorageProtectionGroupRequest :=
  {| spg_VolumeHandle := "vol-1/PS1/scsi"; spg_Parameters := ∅ |}.

(** The protection group of [vol-1]. *)
Definition protectionGroup : CreateStorageProtectionGroupResponse := {|
  LocalProtectionGroupId := "vg-1";
  RemoteProtectionGroupId := "vg-2";
  LocalProtectionGroupAttributes := mapOf
    [("powerstore/systemName", "local");
     ("powerstore/managementAddress", "10.0.0.1");
     ("powerstore/remoteSystemName", "remote");
     ("powerstore/remoteManagementAddress", "10.0.0.2");
     ("powerstore/globalID", "PS1");
     ("powerstore/remoteGlobalID", "PS2");
     ("powerstore/VolumeGroupName", "vg")];
  RemoteProtectionGroupAttributes := mapOf
    [("powerstore/systemName", "remote");
     ("powerstore/managementAddress", "10.0.0.2");
     ("powerstore/remoteSystemName", "local");
     ("powerstore/remoteManagementAddress", "10.0.0.1");
     ("powerstore/globalID", "PS2");
     ("powerstore/VolumeGroupName", "vg")] |}.

Definition replicaRequest : CreateRemoteVolumeRequest :=
  {| crv_VolumeHandle := "vol-1/PS1/scsi"; crv_Parameters := ∅ |}.

(** The replica of [vol-1]. *)
Definition replica : CreateRemoteVolumeResponse := {|
  RemoteVolume := {|
    CapacityBytes := 8589934592;
    VolumeId := "vol-2/PS2/scsi";
    VolumeContext := mapOf
      [("remoteSystem", "local");
       ("powerstore/arrayID", "PS2");
       ("powerstore/managementAddress", "10.0.0.2")] |} |}.

End ReplicaScenarios.

(** ** Snapshots of volume groups *)

(** [vgsext.Snapshot] *)
Record Snapshot := {
  snap_Name : string;
  SnapId : string;
  ReadyToUse : bool;
  snap_CapacityBytes : Z;
  SourceId : string;
  snap_CreationTime : Z;
}.

(** [vgsext.CreateVolumeGroupSnapshotResponse] *)
Record CreateVolumeGroupSnapshotResponse := {
  SnapshotGroupID : string;
  Snapshots : list Snapshot;
  CreationTime : Z;
}.

(** An [int64] product wraps around. *)
Definition wrap64 (z : Z) : Z := ((z + 2 ^ 63) mod 2 ^ 64 - 2 ^ 63)%Z.

(** [time.Time.Unix] of the zero time, which [time.Parse] returns when it
    fails. *)
Definition zeroTimeUnix : Z := (-62135596800)%Z.

(** The guard [apiError, ok := err.(gopowerstore.APIError);
    !(ok && apiError.VolumeNameIsAlreadyUse())]. *)
Definition isNotNameInUse (err : error) : bool :=
  match err with
  | APIErr a => negb (VolumeNameIsAlreadyUse a)
  | _ => true
  end.

Definition StateReady : string := "Ready".

Section Snapshots.
Context `{Gopowerstore}.

Definition GetVolumeGroupByName (c : Client) (name : string)
  : MR (VolumeGroup * option error) :=
  request (GetVolumeGroupByNameCall name)
          (λ h, doGetVolumeGroupByName (management c) h name).
Definition AddMembersToVolumeGroup (c : Client) (members : VolumeGroupMembers)
    (id : string) : MR (option error) :=
  request (AddMembersToVolumeGroupCall members id)
          (λ h, doAddMembersToVolumeGroup (management c) h members id).
Definition CreateVolumeGroup (c : Client) (group : VolumeGroupCreate)
  : MR (CreateResponse * option error) :=
  request (CreateVolumeGroupCall group)
          (λ h, doCreateVolumeGroup (management c) h group).
Definition CreateVolumeGroupSnapshotOnArray (c : Client) (id : string)
    (snapshot : VolumeGroupSnapshotCreate) : MR (CreateResponse * option error) :=
  request (CreateVolumeGroupSnapshotCall id snapshot)
          (λ h, doCreateVolumeGroupSnapshot (management c) h id snapshot).

(** [GetVolumeGroup], with all the fields of the group that are read. *)
Definition GetVolumeGroupWithDetails (c : Client) (id : string)
  : MR (VolumeGroup * VolumeGroupDetails * option error) :=
  λ h, let '(vg, err) := doGetVolumeGroup c (earlierCalls h) id in
       (Returned (vg, doVolumeGroupDetails (management c) h id, err),
        (h ++ [Earlier (GetVolumeGroupCall id)])%list).

(** The array that the first source volume names: the second field of its
    handle, the empty string when it has none. *)
Definition arrayOfHandle (first : string) : string :=
  match Split first "/" with
  | _ :: arr :: _ => arr
  | _ => ""
  end.

(** The loop over the volumes of the snapshot group: one snapshot for each,
    none when the first source handle has fewer than three fields. *)
Definition snapshotsOf (first arr : string) (int64CreationTime : Z)
    (volumes : list MemberVolume) : list Snapshot :=
  flat_map (λ v,
    let snapState := String.eqb (sv_State v) StateReady in
    match Split first "/" with
    | _ :: _ :: protocol :: _ =>
        [{| snap_Name := sv_Name v;
            SnapId := sv_ID v +:+ "/" +:+ arr +:+ "/" +:+ protocol;
            ReadyToUse := snapState;
            snap_CapacityBytes := sv_Size v;
            SourceId := sv_SourceID v +:+ "/" +:+ arr +:+ "/" +:+ protocol;
            snap_CreationTime := int64CreationTime |}]
    | _ => []
    end) volumes.

Definition failed (msg : string) (e : error)
  : option CreateVolumeGroupSnapshotResponse * option error :=
  (None, Some (StatusErr Internal (msg +:+ Error e))).

Definition SnapshotReply : Type :=
  option CreateVolumeGroupSnapshotResponse * option error.

(** The two parts of [Service.CreateVolumeGroupSnapshot] after the lookup of
    the volume group by name. *)

(** The volume group to take the snapshot of: the group of the name, after
    the volumes are added to it; else the first group of the first volume;
    else a new group.  [inl] is a [return] of the whole function, [inr] the
    value of [existingVgID]. *)
Definition ensureVolumeGroup (client : Client) (vgParams : VolumeGroupCreate)
    (gotVg : VolumeGroup) : MR (SnapshotReply + string) :=
  let sourceVols := vgc_VolumeIDs vgParams in
  if negb (String.eqb (vg_ID gotVg) "") then
    err ← AddMembersToVolumeGroup client
            {| vgm_VolumeIDs := sourceVols |} (vg_ID gotVg);
    match err with
    | Some e =>
        if isNotNameInUse e then
          mret (inl (failed "Error adding volume group members: " e))
        else mret (inr (vg_ID gotVg))
    | None => mret (inr (vg_ID gotVg))
    end
  else
    '(r, err) ← GetVolumeGroupsByVolumeID client (default "" (head sourceVols));
    match err with
    | Some e =>
        if negb (isNotFoundAPIError e) then
          mret (Some (failed "Error getting volume group by volume ID: " e))
        else mret None
    | None => mret None
    end ≫= λ early,
    match early with
    | Some reply => mret (inl reply)
    | None =>
        match r with
        | [] =>
            '(resp, err) ← CreateVolumeGroup client vgParams;
            match err with
            | Some e =>
                if isNotNameInUse e then
                  mret (inl (failed "Error creating volume group: " e))
                else mret (inr (cr_ID resp))
            | None => mret (inr (cr_ID resp))
            end
        | g :: _ => mret (inr (vgv_ID g))
        end
    end.

(** The snapshot of the group, if there is a group, and the response. *)
Definition snapshotVolumeGroup (client : Client)
    (reqParams : VolumeGroupSnapshotCreate) (first arr existingVgID : string)
  : MR SnapshotReply :=
  if negb (String.eqb existingVgID "") then
    '(resp, err) ← CreateVolumeGroupSnapshotOnArray client existingVgID reqParams;
    match err with
    | Some e =>
        if isNotNameInUse e then
          mret (Some (failed "Error creating volume group snapshot: " e))
        else mret None
    | None => mret None
    end ≫= λ early,
    match early with
    | Some reply => mret reply
    | None =>
        '(volGroup, details, err) ← GetVolumeGroupWithDetails client (cr_ID resp);
        match err with
        | Some e =>
            if isNotNameInUse e then
              mret (Some (failed "Error getting volume group snapshot: " e))
            else mret None
        | None => mret None
        end ≫= λ early,
        match early with
        | Some reply => mret reply
        | None =>
            let etime := default zeroTimeUnix (vg_CreationTimeStamp details) in
            let int64CreationTime := wrap64 (etime * 1000000000) in
            mret (Some {| SnapshotGroupID := vg_ID volGroup;
                          Snapshots := snapshotsOf first arr int64CreationTime
                                                   (vg_Volumes details);
                          CreationTime := int64CreationTime |}, None)
        end
    end
  else
    mret (Some {| SnapshotGroupID := ""; Snapshots := []; CreationTime := 0 |},
          None).

(** [Service.CreateVolumeGroupSnapshot].  [strings.Split] returns no empty
    list, so that the first field of a handle is there. *)
Definition CreateVolumeGroupSnapshot (s : Service)
    (request : CreateVolumeGroupSnapshotRequest) : MR SnapshotReply :=
  match validateCreateVGSreq request with
  | Some err => mret (None, Some err)
  | None =>
      let reqParams := {| vgsc_Name := vgs_Name request;
                          vgsc_Description := vgs_Description request |} in
      match vgs_SourceVolumeIDs request with
      | [] => λ h, (Panicked "index out of range", h)
      | first :: _ =>
          let arr := arrayOfHandle first in
          let sourceVols :=
            (λ v, default "" (head (Split v "/"))) <$> vgs_SourceVolumeIDs request in
          let vgParams := {| vgc_Name := vgs_Name request;
                             vgc_Description := vgs_Description request;
                             vgc_VolumeIDs := sourceVols |} in
          match ArraysAt s arr with
          | None =>
              λ h, (Panicked "invalid memory address or nil pointer dereference", h)
          | Some array =>
              withManagedClient array (λ client,
                '(gotVg, err) ← GetVolumeGroupByName client (vgs_Name request);
                match err with
                | Some e =>
                    if negb (isNotFoundAPIError e) then
                      mret (None, Some (StatusErr Internal
                              ("Error getting volume group by name: " +:+ Error e)))
                    else
                      group ← ensureVolumeGroup client vgParams gotVg;
                      match group with
                      | inl reply => mret reply
                      | inr existingVgID =>
                          snapshotVolumeGroup client reqParams first arr existingVgID
                      end
                | None =>
                    group ← ensureVolumeGroup client vgParams gotVg;
                    match group with
                    | inl reply => mret reply
                    | inr existingVgID =>
                        snapshotVolumeGroup client reqParams first arr existingVgID
                    end
                end)
          end
      end
  end.

End Snapshots.

(** The calls of the first part of a snapshot: the volumes are added to the
    group of the name; or the groups of the first volume are listed and, when
    there is none, the group is created. *)
Definition groupCalls `{Gopowerstore} (client : Client)
    (vgParams : VolumeGroupCreate) (gotVg : VolumeGroup) (h : list Request)
    (calls : list Request) : Prop :=
  let first := default "" (head (vgc_VolumeIDs vgParams)) in
  (vg_ID gotVg ≠ ""
   ∧ calls = [AddMembersToVolumeGroupCall
                {| vgm_VolumeIDs := vgc_VolumeIDs vgParams |} (vg_ID gotVg)])
  ∨ (vg_ID gotVg = ""
     ∧ (calls = [GetVolumeGroupsByVolumeIDCall first]
        ∨ (doGetVolumeGroupsByVolumeID (management client) h first).1 = []
          ∧ calls = [GetVolumeGroupsByVolumeIDCall first;
                     CreateVolumeGroupCall vgParams])).

(** The calls of the second part: none without a group; else the snapshot of
    the group and, when it is taken, the lookup of the snapshot's group. *)
Definition snapshotCalls (reqParams : VolumeGroupSnapshotCreate)
    (existingVgID : string) (calls : list Request) : Prop :=
  (existingVgID = "" ∧ calls = [])
  ∨ (existingVgID ≠ ""
     ∧ (calls = [CreateVolumeGroupSnapshotCall existingVgID reqParams]
        ∨ ∃ created,
            calls = [CreateVolumeGroupSnapshotCall existingVgID reqParams;
                     Earlier (GetVolumeGroupCall created)])).

(** A reply of [CreateVolumeGroupSnapshot] after the validation: an error of
    status Internal, or a response whose snapshots are those of the volumes
    of a group. *)
Definition snapshotReply (first : string) (reply : SnapshotReply) : Prop :=
  (∃ msg, reply = (None, Some (StatusErr Internal msg)))
  ∨ (∃ resp t volumes,
       reply = (Some resp, None)
       ∧ Snapshots resp = snapshotsOf first (arrayOfHandle first) t volumes).

Module SnapshotScenarios.

(** A snapshot of the group of [vol-1], on the array of
    [ReplicaScenarios.replicating]. *)
Definition request : CreateVolumeGroupSnapshotRequest := {|
  vgs_Name := "nightly"; vgs_Description := "";
  vgs_SourceVolumeIDs := ["vol-1/PS1/scsi"] |}.

Definition snapshot (protocol : string) : Snapshot := {|
  snap_Name := "snapshot-0";
  SnapId := "snap-1/PS1/" +:+ protocol;
  ReadyToUse := true;
  snap_CapacityBytes := 8589934592;
  SourceId := "vol-1/PS1/" +:+ protocol;
  snap_CreationTime := 1700000000000000000 |}.

Definition response (protocol : string) : CreateVolumeGroupSnapshotResponse := {|
  SnapshotGroupID := "";
  Snapshots := [snapshot protocol];
  CreationTime := 1700000000000000000 |}.

Definition calls : list Request :=
  [GetVolumeGroupByNameCall "nightly";
   GetVolumeGroupsByVolumeIDCall "vol-1";
   CreateVolumeGroupSnapshotCall "vg-1"
     {| vgsc_Name := "nightly"; vgsc_Description := "" |};
   Earlier (GetVolumeGroupCall "snap-group-1")].

(** The same for a metro volume. *)
Definition metroRequest : CreateVolumeGroupSnapshotRequest := {|
  vgs_Name := "nightly"; vgs_Description := "";
  vgs_SourceVolumeIDs := ["vol-1/PS1/scsi:vol-9/PS2"] |}.

End SnapshotScenarios.

(** * Package node: the helpers of [base.go] that read the mounts *)

Module Node.

(** [gofsutil.Info], with the fields that are read. *)
Record Info := {
  Device : string;
  Path : string;
  Source : string;
  Opts : list string;
}.

(** [fs.Interface], as far as these helpers use it.  The content of a file
    may change from a read to the next: a read is answered from the number
    of reads before it. *)
Record Files := {
  ReadFile : nat → string → string + error;
  ParseProcMounts : string → list Info + error;
}.

(** The monad of these helpers: the number of reads is the state. *)
Definition Reads (A : Type) : Type := nat → A * nat.

(** [%d] *)
Definition Itoa (z : Z) : string := NilZero.string_of_int (Z.to_int z).

(** [strings.Contains] *)
Fixpoint Contains (s substr : string) : bool :=
  String.prefix substr s
  || match s with
     | EmptyString => false
     | String _ s' => Contains s' substr
     end.

(** [%s] of a slice of strings. *)
Definition showList (l : list string) : string := "[" +:+ Join l " " +:+ "]".

Section Helpers.
Context `{Platform}.
(** The constants [procMountsPath] and [procMountsRetries] of the package. *)
Variable procMountsPath : string.
Variable procMountsRetries : Z.

(** The loop of [consistentRead]: [left] more reads at most. *)
Fixpoint consistentLoop (fs : Files) (name oldContent : string) (left : nat)
    (exhausted : error) : Reads (string + error) :=
  match left with
  | 0%nat => λ n, (inr exhausted, n)
  | S left' => λ n,
      match ReadFile fs n name with
      | inr err => (inr err, S n)
      | inl newContent =>
          if String.eqb oldContent newContent then (inl newContent, S n)
          else consistentLoop fs name newContent left' exhausted (S n)
      end
  end.

(** [consistentRead] *)
Definition consistentRead (filename : string) (retry : Z) (fs : Files)
  : Reads (string + error) := λ n,
  match ReadFile fs n (Clean filename) with
  | inr err => (inr err, S n)
  | inl oldContent =>
      consistentLoop fs (Clean filename) oldContent (Z.to_nat retry)
        (PlainErr ("could not get consistent content of " +:+ filename
                     +:+ " after " +:+ Itoa retry +:+ " attempts"))
        (S n)
  end.

(** [getMounts] *)
Definition getMounts (fs : Files) : Reads (list Info + error) := λ n,
  match consistentRead procMountsPath procMountsRetries fs n with
  | (inr err, n') => (inr err, n')
  | (inl data, n') => (ParseProcMounts fs data, n')
  end.

Definition noMount : Info :=
  {| Device := ""; Path := ""; Source := ""; Opts := [] |}.

Definition unreliable : error :=
  StatusErr Internal "could not reliably determine existing mount status".

(** The loop of [getTargetMount]: the first mount at [target]. *)
Fixpoint firstAt (mounts : list Info) (target : string) : Info * bool :=
  match mounts with
  | [] => (noMount, false)
  | mount :: rest =>
      if String.eqb (Path mount) target then (mount, true)
      else firstAt rest target
  end.

(** [getTargetMount] *)
Definition getTargetMount (target : string) (fs : Files)
  : Reads (Info * bool * option error) := λ n,
  match getMounts fs n with
  | (inr _, n') => ((noMount, false, Some unreliable), n')
  | (inl mounts, n') =>
      let '(targetMount, found) := firstAt mounts target in
      ((targetMount, found, None), n')
  end.

(** [getRemnantTargetMounts] *)
Definition getRemnantTargetMounts (target : string) (fs : Files)
  : Reads (list Info * bool * option error) := λ n,
  match getMounts fs n with
  | (inr _, n') => (([], false, Some unreliable), n')
  | (inl mounts, n') =>
      let targetMounts := filter (λ mount, Contains (Path mount) target = true)
                                 mounts in
      ((targetMounts, negb (length targetMounts =? 0)%nat, None), n')
  end.

(** [contains] *)
Definition contains (list : list string) (item : string) : bool :=
  existsb (λ x, String.eqb x item) list.

(** [getStagedDev] *)
Definition getStagedDev (stagePath : string) (fs : Files)
  : Reads (string * option error) := λ n,
  match getTargetMount stagePath fs n with
  | ((_, _, Some err), n') =>
      (("", Some (StatusErr Internal
                    ("can't check mounts for path " +:+ stagePath +:+ ": "
                       +:+ Error err))), n')
  | ((mountInfo, found, None), n') =>
      if negb found then (("", None), n')
      else
        let sourceDev := Device mountInfo in
        if String.eqb sourceDev "devtmpfs" || String.eqb sourceDev "udev" then
          ((Source mountInfo, None), n')
        else ((sourceDev, None), n')
  end.

(** [isAlreadyPublished] *)
Definition isAlreadyPublished (targetPath rwMode : string) (fs : Files)
  : Reads (bool * option error) := λ n,
  match getTargetMount targetPath fs n with
  | ((_, _, Some err), n') =>
      ((false, Some (StatusErr Internal
                       ("can't check mounts for path " +:+ targetPath +:+ ": "
                          +:+ Error err))), n')
  | ((mount, found, None), n') =>
      if negb found then ((false, None), n')
      else if negb (contains (Opts mount) rwMode) then
        ((false, Some (StatusErr FailedPrecondition
                         ("volume already mounted but with different capabilities: "
                            +:+ showList (Opts mount)))), n')
      else ((true, None), n')
  end.

End Helpers.

End Node.

Module NodeScenarios.

Definition target : string := "/var/lib/kubelet/pods/p1/volumes/vol-1/mount".

(** A volume published read-write at [target], and a later bind mount of a
    device node at the same path. *)
Definition published : Node.Info := {|
  Node.Device := "/dev/mapper/mpatha"; Node.Path := target;
  Node.Source := "/dev/mapper/mpatha"; Node.Opts := ["rw"; "relatime"] |}.

Definition shadowed : Node.Info := {|
  Node.Device := "devtmpfs"; Node.Path := target;
  Node.Source := "/dev/sdb"; Node.Opts := ["ro"] |}.

Definition mounts : list Node.Info := [published; shadowed].

(** A mount table that does not change. *)
Definition files : Node.Files := {|
  Node.ReadFile := λ _ _, inl "mounts";
  Node.ParseProcMounts := λ _, inl mounts |}.

Definition procMountsPath : string := "/proc/self/mountinfo".
Definition procMountsRetries : Z := 30.

End NodeScenarios.

Local Open Scope list_scope.

(** ** Proof steps *)

(** Unfold the monad. *)
Ltac run :=
  unfold mbind, M_bind, bind, mret, M_ret, ret, index, panic, nilPointer,
    withClient, issue, clock; cbn.

(** The calls issued are those listed: none of them is [c]. *)
Ltac not_issued :=
  let Hin := fresh in
  intros ? Hin; rewrite ?elem_of_app, ?elem_of_cons, ?elem_of_nil in Hin;
  intuition discriminate.

(** A run that has come to its end: its calls, collected after [hist]. *)
Ltac leaf :=
  rewrite <- ?(assoc_L (++)); eexists _, _; split; [reflexivity|].

(** * Properties *)

(** ** Splitting strings *)

Section SplitFacts.

Lemma hasByte_app c a b : hasByte c (a +:+ b) = hasByte c a || hasByte c b.
Proof.
  induction a as [|d a IH]; simpl; [done|].
  rewrite IH. by destruct (Ascii.eqb d c).
Qed.

Lemma Split_whole sep s : hasByte sep s = false → Split s sep = [s].
Proof.
  induction s as [|c s IH]; simpl; [done|].
  intros [Hc Hs]%orb_false_iff. by rewrite Hc, (IH Hs).
Qed.

Lemma Split_first sep a b :
  hasByte sep a = false → Split (a +:+ String sep b) sep = a :: Split b sep.
Proof.
  induction a as [|c a IH]; simpl.
  - intros _. by rewrite Ascii.eqb_refl.
  - intros [Hc Ha]%orb_false_iff. by rewrite Hc, (IH Ha).
Qed.

Lemma Split_field sep a b :
  hasByte sep a = false →
  Split (a +:+ String sep "" +:+ b) sep = a :: Split b sep.
Proof. apply Split_first. Qed.

Lemma isField_slash s : isField s = true → hasByte "/" s = false.
Proof. unfold isField. intros [Hs _]%andb_true_iff. by apply negb_true_iff. Qed.

Lemma isField_colon s : isField s = true → hasByte ":" s = false.
Proof. unfold isField. intros [_ Hs]%andb_true_iff. by apply negb_true_iff. Qed.

Lemma append_not_empty a c b : String.eqb (a +:+ String c "" +:+ b) "" = false.
Proof. by destruct a. Qed.

(** The local part of a handle splits into its three fields. *)
Lemma Split_local l a p :
  isField l = true → isField a = true → isField p = true →
  Split (l +:+ "/" +:+ a +:+ "/" +:+ p) "/" = [l; a; p].
Proof.
  intros Hl Ha Hp.
  rewrite (Split_field "/" l) by by apply isField_slash.
  rewrite (Split_field "/" a) by by apply isField_slash.
  by rewrite Split_whole by by apply isField_slash.
Qed.

Lemma Split_remote r ra :
  isField r = true → isField ra = true →
  Split (r +:+ "/" +:+ ra) "/" = [r; ra].
Proof.
  intros Hr Hra.
  rewrite (Split_field "/" r) by by apply isField_slash.
  by rewrite Split_whole by by apply isField_slash.
Qed.

Lemma local_no_colon l a p :
  isField l = true → isField a = true → isField p = true →
  hasByte ":" (l +:+ "/" +:+ a +:+ "/" +:+ p) = false.
Proof.
  intros Hl Ha Hp. rewrite !hasByte_app. simpl.
  by rewrite !isField_colon.
Qed.

End SplitFacts.

(** ** Running controller code *)

Lemma run_bind {A B} (m : M A) (k : A → M B) h :
  (m ≫= k) h = match m h with
               | (Returned a, h') => k a h'
               | (Panicked msg, h') => (Panicked msg, h')
               end.
Proof. reflexivity. Qed.

Lemma run_ret {A} (a : A) h : (mret a : M A) h = (Returned a, h).
Proof. reflexivity. Qed.

(** ** Decoding volume handles *)

Section VolumeHandles.
Context `{Platform}.

#[local] Arguments String.append : simpl never.
#[local] Arguments classifyLegacy : simpl never.

(** A handle of three local fields, with or without a remote part, decodes
    without a call to any array. *)
Lemma ParseVolumeID_structured IPToArray l a p remote d vc hist :
  isField l = true → isField a = true → isField p = true →
  isRemoteFields remote = true →
  ParseVolumeID IPToArray (handleOf l a p remote) d vc hist =
    (Returned ({| localVolumeID := l;
                  arrayID := arrayOfRef IPToArray a;
                  protocol := p;
                  remoteVolumeID := from_option fst "" remote;
                  remoteArrayID := from_option snd "" remote |}, None), hist).
Proof.
  intros Hl Ha Hp Hrem.
  unfold ParseVolumeID, handleOf, arrayOfRef.
  destruct remote as [[r ra]|]; simpl in Hrem.
  - apply andb_true_iff in Hrem as [Hr Hra].
    rewrite append_not_empty.
    rewrite (Split_field ":") by by apply local_no_colon.
    rewrite (Split_whole ":" (r +:+ "/" +:+ ra)).
    2:{ rewrite !hasByte_app. simpl. by rewrite !isField_colon. }
    run. rewrite Split_local by done. cbn.
    rewrite Split_remote by done. cbn.
    by destruct (GetIPListFromString a).
  - rewrite append_not_empty.
    rewrite Split_whole by by apply local_no_colon.
    run. rewrite Split_local by done. cbn.
    by destruct (GetIPListFromString a).
Qed.

(** C2.  A well-formed handle that is not of a legacy format, that is
    [localID/arrayID/protocol] with or without [:remoteID/remoteArrayID],
    where no field holds a separator, the array ID holds no IP address and
    the remote fields are not both empty, decodes successfully, without a call
    to any array, and encoding the decoded fields gives the handle back, byte
    for byte. *)
Theorem ParseVolumeID_roundtrip IPToArray l a p remote d vc hist :
  isField l = true → isField a = true → isField p = true →
  GetIPListFromString a = [] →
  isRemote remote = true →
  ∃ v, ParseVolumeID IPToArray (handleOf l a p remote) d vc hist
         = (Returned (v, None), hist)
       ∧ EncodeVolumeID v = handleOf l a p remote.
Proof.
  intros Hl Ha Hp Hip Hrem. eexists. split.
  - apply ParseVolumeID_structured; try done.
    destruct remote as [[r ra]|]; [|done]. simpl in *.
    by apply andb_true_iff in Hrem as [? _].
  - unfold EncodeVolumeID, arrayOfRef, handleOf. rewrite Hip.
    destruct remote as [[r ra]|]; cbn; [|done].
    simpl in Hrem. apply andb_true_iff in Hrem as [_ Hne].
    apply negb_true_iff in Hne. by rewrite Hne.
Qed.


(** C8.  A bare volume ID, with no volume capability to tell the file system
    type, is classified on the default array: its ID is the array ID; a
    successful block-volume lookup gives [scsi]; when that lookup fails, a
    successful file-system lookup gives [nfs]; when both fail, the failure of
    the file-system lookup is returned, as it stands when it is the array's
    "not found" and wrapped in an [Unknown] status with its message
    otherwise. *)
Theorem ParseVolumeID_legacy IPToArray h arr client vc hist :
  h ≠ "" → hasByte "/" h = false → hasByte ":" h = false →
  vc ≫= Mount = None →
  ArrayClient arr = Some client →
  ParseVolumeID IPToArray h (Some arr) vc hist =
    match doGetVolume client hist h with
    | (_, None) =>
        (Returned (Build_VolumeHandle h (GlobalID arr) "scsi" "" "", None),
         hist ++ [GetVolumeCall h])
    | (_, Some _) =>
        match doGetFS client (hist ++ [GetVolumeCall h]) h with
        | (_, None) =>
            (Returned (Build_VolumeHandle h (GlobalID arr) "nfs" "" "", None),
             hist ++ [GetVolumeCall h; GetFSCall h])
        | (_, Some e) =>
            (Returned (Build_VolumeHandle h (GlobalID arr) "" "" "",
                       Some (if isNotFoundAPIError e then e
                             else StatusErr Unknown
                                    ("failure checking volume status: "
                                       +:+ Error e))),
             hist ++ [GetVolumeCall h; GetFSCall h])
        end
    end%list.
Proof.
  intros Hne Hslash Hcolon Hvc Hclient.
  unfold ParseVolumeID.
  apply String.eqb_neq in Hne. rewrite Hne.
  rewrite Split_whole by done. run.
  rewrite Split_whole by done. cbn.
  unfold classifyLegacy. rewrite Hvc, Hclient. unfold GetVolume, GetFS. run.
  destruct (doGetVolume client hist h) as [vol [e|]]; cbn; [|done].
  destruct (doGetFS client (hist ++ [GetVolumeCall h]) h) as [fsys [e'|]]; cbn.
  - rewrite <- app_assoc. cbn. by destruct (isNotFoundAPIError e').
  - by rewrite <- app_assoc.
Qed.

(** C10.  [ParseVolumeID] is not total: a handle whose local part has two
    fields, and a metro handle whose remote part has one, make it read past
    the end of a slice, and it panics. *)
Theorem ParseVolumeID_out_of_range IPToArray d vc hist :
  ParseVolumeID IPToArray "id/array" d vc hist
    = (Panicked "index out of range", hist)
  ∧ ParseVolumeID IPToArray "id/array/scsi:remote" d vc hist
    = (Panicked "index out of range", hist).
Proof. split; reflexivity. Qed.

End VolumeHandles.

(** ** Replication actions *)

Section ReplicationActions.

#[local] Arguments String.append : simpl never.

(** When the action has to be issued, it is, once, with the parameters given;
    of the errors the array answers only "unable to fail over from the
    destination" is returned, as an [Internal] status. *)
Lemma ExecuteAction_issued session client action params hist :
  validateRSState session action = (false, true, None) →
  ExecuteAction session client action params hist =
    (Returned
       (match doExecuteActionOnReplicationSession client hist (rs_ID session)
                                                  action params with
        | Some e =>
            if isUnableToFailoverFromDestination e then
              Some (StatusErr Internal
                      ("Execute action: Failed to modify RS (" +:+ rs_ID session
                         +:+ ") - Error (" +:+ Error e +:+ ")"))
            else None
        | None => None
        end),
     hist ++ [ExecuteActionOnReplicationSessionCall (rs_ID session) action params]).
Proof.
  intros Hv. unfold ExecuteAction. rewrite Hv. cbn.
  unfold ExecuteActionOnReplicationSession. run.
  destruct (doExecuteActionOnReplicationSession _ _ _ _ _) as [e|]; [|done].
  by destruct (isUnableToFailoverFromDestination e).
Qed.

(** A failover carries its flags: planned for a failover to the remote side,
    unplanned for a local one, never reversed. *)
Lemma actionFor_failover :
  actionFor ActionTypes_FAILOVER_REMOTE
    = Some (RsActionFailover, Some {| IsPlanned := true; Reverse := false |})
  ∧ actionFor ActionTypes_UNPLANNED_FAILOVER_LOCAL
    = Some (RsActionFailover, Some {| IsPlanned := false; Reverse := false |}).
Proof. done. Qed.

(** C1.  The result of the array's call is not propagated.  A session in
    state [OK] is to be paused, and the array answers the action with an
    error that is not "unable to fail over from the destination": the action
    is issued, the error is dropped and [ExecuteAction] returns [nil]; the
    method [Service.ExecuteAction] on top of it reports success. *)
Theorem ExecuteAction_drops_array_error :
  validateRSState Examples.session RsActionPause = (false, true, None)
  ∧ doExecuteActionOnReplicationSession Examples.rejecting [] "rs-1"
                                        RsActionPause None
    = Some Examples.serverError
  ∧ ExecuteAction Examples.session Examples.rejecting RsActionPause None []
    = (Returned None,
       [ExecuteActionOnReplicationSessionCall "rs-1" RsActionPause None])
  ∧ ServiceExecuteAction (Examples.service Examples.rejecting) Examples.suspend []
    = (Returned (Some {| Success := true; Action := ActionTypes_SUSPEND;
                         Status := {| State := SYNCHRONIZED; IsSource := true |} |},
                 None),
       [GetReplicationSessionByLocalResourceIDCall "vg-1";
        ExecuteActionOnReplicationSessionCall "rs-1" RsActionPause None;
        GetReplicationSessionByLocalResourceIDCall "vg-1"]).
Proof. repeat split; vm_compute; reflexivity. Qed.

(** [System_Paused] is not among the states in which a pause is settled: the
    action is issued. *)
Lemma validateRSState_system_paused id role :
  validateRSState {| rs_ID := id; rs_State := "System_Paused"; rs_Role := role |}
                  RsActionPause = (false, true, None).
Proof. done. Qed.

(** C4.  An action on a session that is already where the action leads is
    answered without a call to the array: [Resume] on [OK], [Pause] on
    [Paused], [Paused_For_Migration] and [Paused_For_NDU], and [Failover] on
    [Failed_Over] return [nil]; [Failover] on [Failing_Over] returns the
    status [Aborted], "still executing previous action", for the caller to
    retry.  In each of these cases the history of calls is left as it was.
    The paused states in which a [Pause] is settled are these three and no
    other: on a session in state [System_Paused], or in any state that is
    none of the three, the [Pause] is issued to the array, once, with the
    parameters given. *)
Theorem ExecuteAction_settled id role client params hist :
  let session state := {| rs_ID := id; rs_State := state; rs_Role := role |} in
  ExecuteAction (session "OK") client RsActionResume params hist
    = (Returned None, hist)
  ∧ ExecuteAction (session "Paused") client RsActionPause params hist
    = (Returned None, hist)
  ∧ ExecuteAction (session "Paused_For_Migration") client RsActionPause params hist
    = (Returned None, hist)
  ∧ ExecuteAction (session "Paused_For_NDU") client RsActionPause params hist
    = (Returned None, hist)
  ∧ ExecuteAction (session "Failing_Over") client RsActionFailover params hist
    = (Returned (Some (StatusErr Aborted
                   ("Execute action: RS (" +:+ id
                      +:+ ") is still executing previous action"))), hist)
  ∧ ExecuteAction (session "Failed_Over") client RsActionFailover params hist
    = (Returned None, hist)
  ∧ (ExecuteAction (session "System_Paused") client RsActionPause params hist).2
    = hist ++ [ExecuteActionOnReplicationSessionCall id RsActionPause params]
  ∧ ∀ state,
      state ≠ "Paused" → state ≠ "Paused_For_Migration" →
      state ≠ "Paused_For_NDU" →
      (ExecuteAction (session state) client RsActionPause params hist).2
      = hist ++ [ExecuteActionOnReplicationSessionCall id RsActionPause params].
Proof.
  cbv zeta. repeat split; try done.
  - by rewrite (ExecuteAction_issued _ _ _ _ _ (validateRSState_system_paused id role)).
  - intros state H1 H2 H3. rewrite ExecuteAction_issued; [done|].
    unfold validateRSState. cbn [rs_State].
    by rewrite (proj2 (String.eqb_neq _ _) H1), (proj2 (String.eqb_neq _ _) H2),
      (proj2 (String.eqb_neq _ _) H3).
Qed.

(** C4, as stated, fails: a session in state [System_Paused], a paused state,
    is to be paused, and the [Pause] is issued to the array. *)
Lemma ExecuteAction_system_paused_issues :
  ExecuteAction {| rs_ID := "rs-1"; rs_State := "System_Paused";
                   rs_Role := "Source" |}
                Examples.idle RsActionPause None []
  = (Returned None, [ExecuteActionOnReplicationSessionCall "rs-1" RsActionPause None]).
Proof. vm_compute. reflexivity. Qed.

End ReplicationActions.

(** ** Deleting a protection group *)

Section Deletion.

#[local] Arguments String.append : simpl never.

Lemma guardedBy_nil del lookup ok hist : guardedBy del lookup ok hist [].
Proof. intros [|??] ?? ?; discriminate. Qed.

(** Calls that delete nothing may come first... *)
Lemma guardedBy_after del lookup ok hist calls1 calls2 :
  (∀ id, del id ∉ calls1) →
  guardedBy del lookup ok (hist ++ calls1) calls2 →
  guardedBy del lookup ok hist (calls1 ++ calls2).
Proof.
  intros Hno Hg before id after Heq.
  apply app_eq_inv in Heq as [(k & -> & Hk) | (k & -> & ->)].
  - destruct k as [|c k]; simpl in Hk.
    + destruct (Hg [] id after) as (before' & name & Hnil & _); [done|].
      by destruct before'.
    + injection Hk as <- _. destruct (Hno id). set_solver.
  - destruct (Hg k id after eq_refl) as (before' & name & -> & Hok).
    exists (calls1 ++ before'), name. by rewrite !(assoc_L (++)).
Qed.

(** ... and may come last. *)
Lemma guardedBy_before del lookup ok hist calls1 calls2 :
  guardedBy del lookup ok hist calls1 →
  (∀ id, del id ∉ calls2) →
  guardedBy del lookup ok hist (calls1 ++ calls2).
Proof.
  intros Hg Hno before id after Heq.
  apply app_eq_inv in Heq as [(k & -> & Hk) | (k & -> & ->)].
  - destruct k as [|c k]; simpl in Hk.
    + destruct (Hno id). set_solver.
    + injection Hk as <- _. by apply (Hg before id k).
  - destruct (Hno id). set_solver.
Qed.

Lemma guardedBy_none del lookup ok hist calls :
  (∀ id, del id ∉ calls) → guardedBy del lookup ok hist calls.
Proof. intros Hno before id after ->. destruct (Hno id). set_solver. Qed.

Lemma answersNotFound_guard err :
  answersNotFound err → isAPIErrorNotNotFound err = false.
Proof. destruct err as [[| a |]|]; simpl; try done. by intros ->. Qed.

(** What a client that only answers "not found" cannot have answered. *)
Ltac not_found nf :=
  repeat match goal with
         | N : onlyNotFound _ → _ |- _ =>
             try pose proof (answersNotFound_guard _ (N nf));
             pose proof (N nf); clear N
         end;
  simpl in *; congruence.

(** The end of a run: its calls are collected after [hist], none of them
    is a deletion that was not to be issued, and a result other than [None]
    took an answer that is not "not found". *)
Ltac settle :=
  leaf; repeat split;
  first [ not_issued
        | done
        | apply guardedBy_none; not_issued
        | let nf := fresh in intros nf; not_found nf ].

Lemma deleteVolumeGroup_run client groupID hist :
  ∃ r calls,
    deleteVolumeGroup client groupID hist = (Returned r, hist ++ calls)
    ∧ (∀ id, DeleteProtectionPolicyCall id ∉ calls)
    ∧ (∀ id, DeleteReplicationRuleCall id ∉ calls)
    ∧ (onlyNotFound client → r = None).
Proof.
  unfold deleteVolumeGroup, GetVolumeGroup, ModifyVolumeGroup, DeleteVolumeGroup.
  run.
  pose proof (λ nf, nf_GetVolumeGroup client nf hist groupID) as N1.
  destruct (doGetVolumeGroup client hist groupID) as [vg e1].
  simpl in N1.
  destruct (isAPIErrorNotNotFound e1) eqn:G1; cbn; [settle|].
  destruct (String.eqb (vg_ID vg) ""); cbn; [settle|].
  destruct (String.eqb (vg_ProtectionPolicyID vg) ""); cbn.
  - match goal with
    | |- context [doDeleteVolumeGroup client ?h groupID] =>
        pose proof (λ nf, nf_DeleteVolumeGroup client nf h groupID) as N3;
        destruct (doDeleteVolumeGroup client h groupID) as [[| a |]|]
    end; simpl in N3; cbn; [settle| |settle..].
    destruct (NotFound a) eqn:Ea; cbn; settle.
  - match goal with
    | |- context [doModifyVolumeGroup client ?h "" groupID] =>
        pose proof (λ nf, nf_ModifyVolumeGroup client nf h "" groupID) as N2;
        destruct (isAPIErrorNotNotFound (doModifyVolumeGroup client h "" groupID))
          eqn:G2
    end; cbn; [settle|].
    match goal with
    | |- context [doDeleteVolumeGroup client ?h groupID] =>
        pose proof (λ nf, nf_DeleteVolumeGroup client nf h groupID) as N3;
        destruct (doDeleteVolumeGroup client h groupID) as [[| a |]|]
    end; simpl in N3; cbn; [settle| |settle..].
    destruct (NotFound a) eqn:Ea; cbn; settle.
Qed.

(** A lookup followed by the deletion of what it found. *)
Lemma guardedBy_pair del lookup (ok : list Call → string → string → Prop)
    hist name id :
  (∀ i n, lookup n ≠ del i) → (∀ i j, del i = del j → i = j) →
  ok hist name id →
  guardedBy del lookup ok hist [lookup name; del id].
Proof.
  intros Hdiff Hinj Hok before id' after Heq.
  destruct before as [|c1 [|c2 before]]; simpl in Heq.
  - injection Heq as Hc _. by destruct (Hdiff id' name).
  - injection Heq as <- ->%Hinj _. exists [], name.
    by rewrite (right_id_L [] (++)).
  - injection Heq as _ _ Hnil. by destruct before.
Qed.

Lemma deleteProtectionPolicy_run client vgName hist :
  ∃ r calls,
    deleteProtectionPolicy client vgName hist = (Returned r, hist ++ calls)
    ∧ policyGuard client hist calls
    ∧ (∀ id, DeleteReplicationRuleCall id ∉ calls)
    ∧ (onlyNotFound client → r = None).
Proof.
  unfold deleteProtectionPolicy, GetProtectionPolicyByName, DeleteProtectionPolicy.
  run.
  pose proof (λ nf, nf_GetProtectionPolicyByName client nf hist ("pp-" +:+ vgName))
    as N1.
  destruct (doGetProtectionPolicyByName client hist ("pp-" +:+ vgName))
    as [pp e1] eqn:E1.
  simpl in N1.
  destruct (isAPIErrorNotNotFound e1) eqn:G1; cbn; [settle|].
  destruct (_ && _) eqn:Hunused; cbn; [|settle].
  apply andb_true_iff in Hunused as [[_ Hvol%Nat.eqb_eq]%andb_true_iff Hvg%Nat.eqb_eq].
  apply nil_length_inv in Hvol, Hvg.
  assert (policyGuard client hist
            [GetProtectionPolicyByNameCall ("pp-" +:+ vgName);
             DeleteProtectionPolicyCall (pp_ID pp)]) as Hguard.
  { apply guardedBy_pair; [done|congruence|]. by rewrite E1. }
  match goal with
  | |- context [doDeleteProtectionPolicy client ?h ?id] =>
      pose proof (λ nf, nf_DeleteProtectionPolicy client nf h id) as N2;
      destruct (isAPIErrorNotNotFound (doDeleteProtectionPolicy client h id)) eqn:G2
  end; cbn; settle.
Qed.

Lemma deleteReplicationRule_run client vgName hist :
  ∃ r calls,
    deleteReplicationRule client vgName hist = (Returned r, hist ++ calls)
    ∧ ruleGuard client hist calls
    ∧ (∀ id, DeleteProtectionPolicyCall id ∉ calls)
    ∧ (onlyNotFound client → r = None).
Proof.
  unfold deleteReplicationRule, GetReplicationRuleByName, DeleteReplicationRule.
  run.
  pose proof (λ nf, nf_GetReplicationRuleByName client nf hist ("rr-" +:+ vgName))
    as N1.
  destruct (doGetReplicationRuleByName client hist ("rr-" +:+ vgName))
    as [rr e1] eqn:E1.
  simpl in N1.
  destruct (isAPIErrorNotNotFound e1) eqn:G1; cbn; [settle|].
  destruct (_ && _) eqn:Hunused; cbn; [|settle].
  apply andb_true_iff in Hunused as [_ Hpp%Nat.eqb_eq].
  apply nil_length_inv in Hpp.
  assert (ruleGuard client hist
            [GetReplicationRuleByNameCall ("rr-" +:+ vgName);
             DeleteReplicationRuleCall (rr_ID rr)]) as Hguard.
  { apply guardedBy_pair; [done|congruence|]. by rewrite E1. }
  match goal with
  | |- context [doDeleteReplicationRule client ?h ?id] =>
      pose proof (λ nf, nf_DeleteReplicationRule client nf h id) as N2;
      destruct (isAPIErrorNotNotFound (doDeleteReplicationRule client h id)) eqn:G2
  end; cbn; settle.
Qed.

#[local] Arguments deleteVolumeGroup : simpl never.
#[local] Arguments deleteProtectionPolicy : simpl never.
#[local] Arguments deleteReplicationRule : simpl never.

(** C7.  A run of [DeleteStorageProtectionGroup] on an array of the registry
    returns, and among the calls it issues
    - a protection policy is deleted only right after the array answered the
      lookup of it with a policy that owns no volume and no volume group: a
      policy that still refers to a volume group is not deleted, whatever
      became of the volume group of the request;
    - a replication rule is deleted only right after the array answered the
      lookup of it with a rule that no protection policy refers to;
    - when the name of the volume group is among the attributes and every
      error the array answers is "not found", the run succeeds. *)
Theorem DeleteStorageProtectionGroup_guarded
    s localParams groupID globalID arr client hist :
  localParams !! (replicationContextPrefix s +:+ "globalID") = Some globalID →
  ArraysAt s globalID = Some arr →
  ArrayClient arr = Some client →
  ∃ reply calls,
    DeleteStorageProtectionGroup s localParams groupID hist
      = (Returned reply, hist ++ calls)
    ∧ policyGuard client hist calls
    ∧ ruleGuard client hist calls
    ∧ (is_Some (localParams !! (replicationContextPrefix s +:+ "VolumeGroupName")) →
       onlyNotFound client → reply = (Some (), None)).
Proof.
  intros HglobalID Harr Hclient.
  unfold DeleteStorageProtectionGroup. rewrite HglobalID, Harr.
  unfold withClient. rewrite Hclient. rewrite run_bind.
  destruct (deleteVolumeGroup_run client groupID hist)
    as (r1 & calls1 & -> & P1 & R1 & N1).
  destruct r1 as [early|].
  { exists early, calls1. repeat split; [by apply guardedBy_none..|].
    intros _ nf. by specialize (N1 nf). }
  destruct (localParams !! (replicationContextPrefix s +:+ "VolumeGroupName"))
    as [vgName|].
  2:{ exists (internal "Error: Unable to get volume group name"), calls1.
      repeat split; [by apply guardedBy_none..|]. by intros [? ?]. }
  rewrite run_bind.
  destruct (deleteProtectionPolicy_run client vgName (hist ++ calls1))
    as (r2 & calls2 & -> & P2 & R2 & N2).
  rewrite <- (assoc_L (++)).
  destruct r2 as [early|].
  { exists early, (calls1 ++ calls2). repeat split.
    - by apply guardedBy_after.
    - apply guardedBy_none. intros id [?|?]%elem_of_app; [by eapply R1|by eapply R2].
    - intros _ nf. by specialize (N2 nf). }
  rewrite run_bind.
  destruct (deleteReplicationRule_run client vgName (hist ++ calls1 ++ calls2))
    as (r3 & calls3 & -> & R3 & P3 & N3).
  exists (from_option id (Some (), None) r3), (calls1 ++ calls2 ++ calls3).
  rewrite <- (assoc_L (++) hist), <- (assoc_L (++) calls1).
  repeat split.
  - by destruct r3.
  - apply guardedBy_after; [done|]. by apply guardedBy_before.
  - rewrite (assoc_L (++)). apply guardedBy_after; [|done].
    intros id [?|?]%elem_of_app; [by eapply R1|by eapply R2].
  - intros _ nf. by rewrite (N3 nf).
Qed.

End Deletion.

(** ** IO in progress *)

Section IOInProgress.
Context `{Platform}.

#[local] Arguments String.append : simpl never.
#[local] Arguments lastEntries : simpl never.

Lemma positiveIops_spec m : positiveIops m = true ↔ (0 < TotalIops m)%Q.
Proof.
  unfold positiveIops. rewrite negb_true_iff, <- not_true_iff_false, Qle_bool_iff.
  split; [apply Qnot_le_lt|apply Qlt_not_le].
Qed.

Lemma checkIfEntryIsLatest_spec currentTime timestamp :
  checkIfEntryIsLatest currentTime timestamp = true
  ↔ ∃ t, timestamp = Some t ∧ (currentTime - t < 60 * 1000000000)%Z.
Proof.
  unfold checkIfEntryIsLatest. destruct timestamp as [t|].
  - rewrite Z.ltb_lt. split; [by exists t|]. by intros (? & [= <-] & ?).
  - split; [done|]. by intros (? & ? & _).
Qed.

(** A sample that tells of IO in progress: a positive rate, read less than
    sixty seconds before [currentTime]. *)
Lemma lastEntriesLoop_spec fuel resp i currentTime :
  (i < Z.of_nat (length resp))%Z →
  lastEntriesLoop fuel resp i currentTime = true
  ↔ ∃ j m, (i - Z.of_nat fuel < j ≤ i)%Z ∧ (0 ≤ j)%Z
           ∧ (Z.of_nat (length resp) - 4 ≤ j)%Z
           ∧ resp !! Z.to_nat j = Some m
           ∧ positiveIops m = true
           ∧ checkIfEntryIsLatest currentTime (Timestamp m) = true.
Proof.
  revert i. induction fuel as [|fuel IH]; intros i Hi.
  - simpl. split; [done|]. intros (j & m & ? & _). lia.
  - cbn [lastEntriesLoop].
    destruct (_ && _) eqn:Hcond.
    + apply andb_true_iff in Hcond as [Hlo%Z.leb_le Hnn%Z.leb_le].
      destruct (resp !! Z.to_nat i) as [m|] eqn:Hm.
      2:{ apply lookup_ge_None in Hm. lia. }
      destruct (positiveIops m && checkIfEntryIsLatest currentTime (Timestamp m))
        eqn:Hgood.
      * split; [intros _|done].
        apply andb_true_iff in Hgood as [? ?].
        exists i, m. repeat split; try done; lia.
      * rewrite IH by lia. split.
        -- intros (j & m' & ? & ? & ? & ? & ? & ?).
           exists j, m'. repeat split; try done; lia.
        -- intros (j & m' & ? & ? & ? & Hj & Hp & Hf).
           destruct (decide (j = i)) as [->|].
           { rewrite Hm in Hj. injection Hj as <-.
             by rewrite Hp, Hf in Hgood. }
           exists j, m'. repeat split; try done; lia.
    + split; [done|]. intros (j & m & ? & ? & ? & _).
      apply andb_false_iff in Hcond as [?%Z.leb_gt|?%Z.leb_gt]; lia.
Qed.

Lemma lastEntries_spec resp currentTime :
  lastEntries resp currentTime = true
  ↔ ∃ (i : nat) m, resp !! i = Some m ∧ (length resp ≤ i + 4)%nat
                   ∧ positiveIops m = true
                   ∧ checkIfEntryIsLatest currentTime (Timestamp m) = true.
Proof.
  unfold lastEntries. rewrite lastEntriesLoop_spec by lia. split.
  - intros (j & m & ? & ? & ? & Hj & ? & ?).
    exists (Z.to_nat j), m. repeat split; try done; lia.
  - intros (i & m & Hi & ? & ? & ?).
    pose proof (lookup_lt_Some _ _ _ Hi).
    exists (Z.of_nat i), m. rewrite Nat2Z.id. repeat split; try done; lia.
Qed.

(** C6.  A probe of one volume on one array issues one query, for the series
    of the volume when the protocol is [scsi] and for the series of the file
    system otherwise, and reports IO in progress, that is returns [nil], if
    and only if the query succeeds and one of the last four samples of the
    series has a positive rate and a time stamp less than sixty seconds before
    the current time. *)
Theorem IsIOInProgress_spec volID arr client protocol hist :
  ArrayClient arr = Some client →
  let query :=
    if String.eqb protocol "scsi" then PerformanceMetricsByVolumeCall volID
    else PerformanceMetricsByFileSystemCall volID in
  let answer :=
    if String.eqb protocol "scsi"
    then doPerformanceMetricsByVolume client hist volID
    else doPerformanceMetricsByFileSystem client hist volID in
  ∃ err,
    IsIOInProgress volID arr protocol hist = (Returned err, hist ++ [query])
    ∧ (err = None
       ↔ answer.2 = None
         ∧ ∃ (i : nat) m t,
             answer.1 !! i = Some m ∧ (length answer.1 ≤ i + 4)%nat
             ∧ (0 < TotalIops m)%Q
             ∧ Timestamp m = Some t
             ∧ (Now (hist ++ [query]) - t < 60 * 1000000000)%Z).
Proof.
  intros Hclient query answer.
  assert (∀ resp currentTime,
    lastEntries resp currentTime = true
    ↔ ∃ (i : nat) m t, resp !! i = Some m ∧ (length resp ≤ i + 4)%nat
        ∧ (0 < TotalIops m)%Q ∧ Timestamp m = Some t
        ∧ (currentTime - t < 60 * 1000000000)%Z) as Hlast.
  { intros resp currentTime. rewrite lastEntries_spec. split.
    - intros (i & m & ? & ? & ?%positiveIops_spec
              & (t & ? & ?)%checkIfEntryIsLatest_spec).
      by exists i, m, t.
    - intros (i & m & t & ? & ? & ? & ? & ?). exists i, m.
      rewrite positiveIops_spec, checkIfEntryIsLatest_spec. eauto 10. }
  unfold IsIOInProgress. rewrite Hclient.
  unfold PerformanceMetricsByVolume, PerformanceMetricsByFileSystem.
  subst query answer.
  destruct (String.eqb protocol "scsi"); run.
  all: match goal with
       | |- context [match ?a with (_, _) => _ end] =>
           destruct a as [resp [e|]]
       end; cbn.
  all: try (eexists; split; [reflexivity|]; split; [done|by intros [? _]]).
  all: match goal with
       | |- context [lastEntries ?r ?t] => destruct (lastEntries r t) eqn:Hl
       end; cbn; (eexists; split; [reflexivity|]).
  all: rewrite <- Hlast, Hl; split; try done; by intros [_ ?].
Qed.

End IOInProgress.

(** ** The connectivity check *)

Section ConnectivityCheck.
Context `{Platform}.

#[local] Arguments lastEntries : simpl never.

Lemma callError_not_probeError e : callError e → ¬ probeError e.
Proof. intros [] Hp; inversion Hp. Qed.

(** What a probe returns when it does not return [nil]. *)
Lemma IsIOInProgress_errors volID arr protocol hist e hist' :
  IsIOInProgress volID arr protocol hist = (Returned (Some e), hist') →
  probeError e.
Proof.
  unfold IsIOInProgress. destruct (ArrayClient arr) as [client|]; [|done].
  rewrite run_bind.
  destruct (if String.eqb protocol "scsi" then _ else _) as [[[resp [e0|]]|] h1]
    eqn:Hq; [| |done].
  - intros [= <- _]. constructor.
  - run. destruct (lastEntries resp (Now h1)); [done|].
    intros [= <- _]. constructor.
Qed.

(** A probe that returns an error, whichever, does not end the check: the
    loop goes on with the next volume, with the response as it was. *)
Lemma checkVolumes_goes_on s globalID volID rest rep hist vh perr h1 arr e h2 :
  ParseVolumeID (IPToArray (registry s)) volID (ServiceDefaultArray s) None hist
    = (Returned (vh, perr), h1) →
  arrayID vh = globalID →
  GetOneArray s globalID = (Some arr, None) →
  IsIOInProgress (localVolumeID vh) arr (protocol vh) h1 = (Returned (Some e), h2) →
  checkVolumes s globalID (volID :: rest) rep hist
    = checkVolumes s globalID rest rep h2.
Proof.
  intros Hparse <- Harr Hprobe. cbn [checkVolumes].
  rewrite run_bind, Hparse. cbn.
  rewrite String.eqb_refl. cbn. rewrite Harr.
  by rewrite run_bind, Hprobe.
Qed.

Lemma checkVolumes_errors s globalID volumeIds rep hist reply e hist' :
  checkVolumes s globalID volumeIds rep hist = (Returned (Some (reply, Some e)), hist') →
  callError e.
Proof.
  revert hist. induction volumeIds as [|volID rest IH]; intros hist; [done|].
  cbn [checkVolumes]. rewrite run_bind.
  destruct (ParseVolumeID _ _ _ _ _) as [[[vh perr]|] h1]; [|done].
  destruct (negb _); [intros [= _ <- _]; constructor|].
  unfold GetOneArray.
  destruct (arrays _ !! globalID) as [p|]; [|intros [= _ <- _]; constructor].
  destruct (deref s p) as [arr|]; [|done].
  rewrite run_bind.
  destruct (IsIOInProgress _ _ _ _) as [[[e'|]|] h2]; [|done..].
  apply IH.
Qed.

Lemma checkArrays_errors s req globalIDs rep hist reply e hist' :
  checkArrays s req globalIDs rep hist = (Returned (reply, Some e), hist') →
  callError e.
Proof.
  revert rep hist. induction globalIDs as [|globalID rest IH]; intros rep hist;
    [done|].
  cbn [checkArrays].
  destruct (checkIfNodeIsConnected globalID (NodeId req) rep) as [rep' [e'|]] eqn:Hc.
  - intros [= _ <- _]. revert Hc. unfold checkIfNodeIsConnected.
    destruct (last _); [|intros [= _ <-]; constructor].
    destruct (QueryArrayStatus _) as [[|] ?]; done.
  - destruct (0 <? _)%nat; [|apply IH].
    rewrite run_bind.
    destruct (checkVolumes s globalID (VolumeIds req) rep' hist)
      as [[[[? [?|]]|]|] h1] eqn:Hv; try done.
    + intros [= _ <- _]. by eapply checkVolumes_errors.
    + apply IH.
Qed.

(** C5, as the code has it.  An error of a probe is not surfaced: whatever
    error [ValidateVolumeHostConnectivity] returns is one of "the NodeID is a
    required field", "failed to parse node ID", "invalid globalId ... is
    provided" and "array not found", none of which a probe returns. *)
Theorem ValidateVolumeHostConnectivity_errors s req hist reply e hist' :
  ValidateVolumeHostConnectivity s req hist = (Returned (reply, Some e), hist') →
  callError e ∧ ¬ probeError e.
Proof.
  intros Hrun. assert (callError e) as He; [|by auto using callError_not_probeError].
  revert Hrun. unfold ValidateVolumeHostConnectivity.
  destruct (_ && _); [done|].
  destruct (String.eqb (NodeId req) ""); [intros [= _ <- _]; constructor|].
  rewrite run_bind.
  destruct (if String.eqb (ArrayId req) "" then _ else _) as [[globalIDs|] h1];
    [|done].
  apply checkArrays_errors.
Qed.

End ConnectivityCheck.

(** ** The default array *)

Section DefaultArray.
Context `{Platform} `{Yaml}.

#[local] Arguments String.append : simpl never.

(** The objects of a configuration are new ones, in the order of the
    configuration, and hold what the configuration says. *)
Lemma allocate_spec entries st st' ptrs :
  allocate st entries = (st', ptrs) →
  (length st ≤ length st')%nat
  ∧ (∀ q, (q < length st)%nat → st' !! q = st !! q)
  ∧ (∀ p, Some p ∈ ptrs →
       (length st ≤ p)%nat ∧ ∃ a, st' !! p = Some a ∧ Some a ∈ entries).
Proof.
  revert st st' ptrs.
  induction entries as [|[a|] entries IH]; intros st st' ptrs; cbn [allocate].
  - intros [= <- <-]. split; [done|]. split; [done|]. by intros p ?%elem_of_nil.
  - destruct (allocate (st ++ [a]) entries) as [st1 ptrs1] eqn:Halloc.
    intros [= <- <-]. apply IH in Halloc as (Hlen & Hold & Hnew).
    rewrite length_app in Hlen, Hold. simpl in Hlen, Hold.
    split; [lia|]. split.
    + intros q Hq. rewrite Hold by lia. by apply lookup_app_l.
    + intros p [[= ->]|Hp]%elem_of_cons.
      * split; [done|]. exists a. split; [|by left].
        rewrite Hold by lia. by apply list_lookup_middle.
      * destruct (Hnew p Hp) as (Hge & a' & ? & ?).
        rewrite length_app in Hge. simpl in Hge.
        split; [lia|]. exists a'. split; [done|by right].
  - destruct (allocate st entries) as [st1 ptrs1] eqn:Halloc.
    intros [= <- <-]. apply IH in Halloc as (Hlen & Hold & Hnew).
    split; [done|]. split; [done|].
    intros p [?|Hp]%elem_of_cons; [done|].
    destruct (Hnew p Hp) as (Hge & a' & ? & ?).
    split; [done|]. exists a'. split; [done|by right].
Qed.

Lemma initArray_IsDefault array : IsDefault (initArray array).1 = IsDefault array.
Proof.
  unfold initArray.
  destruct (NewClientWithArgs _ _ _ _); [|done].
  destruct (GetIPListFromString _); [|done].
  destruct (_ !! 2%nat); [|done].
  by destruct (onlyDigitsAndDots _).
Qed.

(** The loop updates the objects it goes through, and no other. *)
Lemma loadArrays_frame ptrs st arrayMap mapper d found res st' q :
  loadArrays ptrs st arrayMap mapper d found = (res, st') →
  Some q ∉ ptrs → st' !! q = st !! q.
Proof.
  revert st arrayMap mapper d found.
  induction ptrs as [|[p|] ptrs IH]; intros st arrayMap mapper d found;
    cbn [loadArrays]; [by intros [= _ <-]| |by intros [= _ <-]].
  intros Hrun Hq. apply not_elem_of_cons in Hq as [Hqp Hq].
  assert (q ≠ p) as Hne by congruence.
  destruct (st !! p) as [array|]; [|by injection Hrun as _ <-].
  destruct (String.eqb (GlobalID array) ""); [by injection Hrun as _ <-|].
  destruct (initArray array) as [array' [e|]].
  { injection Hrun as _ <-. by apply list_lookup_insert_ne. }
  destruct (IsDefault array' && negb found);
    apply IH in Hrun; try done; rewrite Hrun; by apply list_lookup_insert_ne.
Qed.

(** With no array marked as the default, a successful loop leaves the default
    array as it found it. *)
Lemma loadArrays_default ptrs st arrayMap mapper d found res st' :
  loadArrays ptrs st arrayMap mapper d found = (res, st') →
  loadErr res = None →
  (∀ p a, Some p ∈ ptrs → st !! p = Some a → IsDefault a = false) →
  defaultArrayPtr res = d.
Proof.
  revert st arrayMap mapper.
  induction ptrs as [|[p|] ptrs IH]; intros st arrayMap mapper;
    cbn [loadArrays]; [by intros [= <- _]| |by intros [= <- _]].
  intros Hrun Hok Hnone.
  destruct (st !! p) as [array|] eqn:Hp; [|by injection Hrun as <- _].
  destruct (String.eqb (GlobalID array) ""); [by injection Hrun as <- _|].
  pose proof (initArray_IsDefault array) as Hflag.
  destruct (initArray array) as [array' [e|]]; [by injection Hrun as <- _|].
  simpl in Hflag. rewrite Hflag, (Hnone p array) in Hrun by (done || by left).
  simpl in Hrun. eapply IH; [done..|].
  intros q a Hq Ha. destruct (decide (q = p)) as [->|Hne].
  - rewrite list_lookup_insert_eq in Ha by by eapply lookup_lt_Some.
    injection Ha as <-. rewrite Hflag. apply (Hnone p); [by left|done].
  - rewrite list_lookup_insert_ne in Ha by done. apply (Hnone q); [by right|done].
Qed.

(** A successful loop leaves the first object with its client bound. *)
Lemma loadArrays_first p ptrs st arrayMap mapper d found res st' array :
  loadArrays (Some p :: ptrs) st arrayMap mapper d found = (res, st') →
  loadErr res = None →
  st !! p = Some array → Some p ∉ ptrs →
  st' !! p = Some (initArray array).1.
Proof.
  cbn [loadArrays]. intros Hrun Hok Hp Hfresh. rewrite Hp in Hrun.
  destruct (String.eqb (GlobalID array) ""); [by injection Hrun as <- _|].
  destruct (initArray array) as [array' [e|]]; [by injection Hrun as <- _|].
  assert (st' !! p = <[p := array']> st !! p) as ->.
  { destruct (IsDefault array' && negb found);
      by eapply loadArrays_frame in Hrun. }
  apply list_lookup_insert_eq. by eapply lookup_lt_Some.
Qed.

(** A load that fails leaves the arrays, the default array and the IP index
    as they were. *)
Lemma UpdateArrays_failure r configPath fs r' e :
  UpdateArrays r configPath fs = (r', Some e) →
  locker r' = locker r ∧ IPToArray r' = IPToArray r.
Proof.
  unfold UpdateArrays.
  destruct (GetPowerStoreArrays fs configPath (store r)) as [res st'].
  destruct (loadErr res); [|done]. by intros [= <- _].
Qed.

(** C9.  A configuration lists one array or more, none of them marked as the
    default, and is loaded without an error: the default array that
    [GetPowerStoreArrays] returns, and that [DefaultArray] yields after
    [UpdateArrays], is the object of the first array listed, which by then has
    its client bound. *)
Theorem UpdateArrays_default_is_first fs configPath r data first rest r' :
  ReadFile fs (Clean configPath) = inl data →
  Unmarshal data = inl (Some first :: rest) →
  (∀ a, Some a ∈ Some first :: rest → IsDefault a = false) →
  UpdateArrays r configPath fs = (r', None) →
  let p := length (store r) in
  defaultArrayPtr (GetPowerStoreArrays fs configPath (store r)).1 = Some p
  ∧ DefaultArray (locker r') = Some p
  ∧ store r' !! p = Some (initArray first).1.
Proof.
  intros Hread Hyaml Hnone Hupdate p.
  pose proof (eq_refl : p = length (store r)) as Hpdef. clearbody p.
  unfold UpdateArrays in Hupdate.
  destruct (GetPowerStoreArrays fs configPath (store r)) as [res st'] eqn:Hload.
  destruct (loadErr res) eqn:Hok; [done|]. injection Hupdate as <-.
  cbn. unfold GetPowerStoreArrays in Hload. rewrite Hread, Hyaml in Hload.
  cbn [allocate] in Hload.
  destruct (allocate (store r ++ [first]) rest) as [st1 ptrs] eqn:Halloc.
  apply allocate_spec in Halloc as (Hlen & Hold & Hnew).
  rewrite length_app in Hlen, Hold. simpl in Hlen, Hold.
  assert (st1 !! p = Some first) as Hfirst.
  { rewrite Hold by lia. by apply list_lookup_middle. }
  rewrite <- Hpdef in Hload.
  assert (Some p ∉ ptrs) as Hfresh.
  { intros [Hge _]%Hnew. rewrite length_app in Hge. simpl in Hge. lia. }
  assert (defaultArrayPtr res = Some p) as Hdefault.
  { eapply loadArrays_default; [done..|].
    intros q a [[= ->]|Hq]%elem_of_cons Ha.
    - rewrite Hfirst in Ha. injection Ha as <-. apply Hnone. by left.
    - destruct (Hnew q Hq) as (_ & a' & Ha' & ?).
      rewrite Ha in Ha'. injection Ha' as <-. apply Hnone. by right. }
  repeat split; [done..|].
  by eapply loadArrays_first.
Qed.

End DefaultArray.

(** ** The properties at concrete inputs *)

Section Instances.

(** The metro handle of the source's documentation decodes and encodes back
    to itself. *)
Lemma ParseVolumeID_roundtrip_witness :
  ∃ v, @ParseVolumeID Examples.platform ∅ Examples.metro None None []
         = (Returned (v, None), [])
       ∧ EncodeVolumeID v = Examples.metro.
Proof.
  exact (@ParseVolumeID_roundtrip Examples.platform ∅
           "9f840c56-96e6-4de9-b5a3-27e7c20eaa77" "PSabcdef0123" "scsi"
           (Some ("9f840c56-96e6-4de9-b5a3-27e7c20eaa77", "PS0123abcdef"))
           None None [] eq_refl eq_refl eq_refl eq_refl eq_refl).
Defined.

(** The handle of the source's own example decodes through the IP index. *)
Example ParseVolumeID_legacy_ip :
  @ParseVolumeID Examples.platform {["192.168.0.1" := "PSabc0123def"]}
                 "1cd254s/192.168.0.1/scsi" None None []
  = (Returned (Build_VolumeHandle "1cd254s" "PSabc0123def" "scsi" "" "", None), []).
Proof. vm_compute. reflexivity. Qed.



(** A bare volume ID that the default array knows neither as a volume nor as
    a file system: the array's "not found" is returned as it stands. *)
Lemma ParseVolumeID_legacy_witness :
  @ParseVolumeID Examples.platform ∅ "9f840c56"
                 (Some (Examples.array Examples.absent)) None []
  = (Returned (Build_VolumeHandle "9f840c56" "PS1" "" "" "",
               Some Examples.notFound),
     [GetVolumeCall "9f840c56"; GetFSCall "9f840c56"]).
Proof.
  exact (@ParseVolumeID_legacy Examples.platform ∅ "9f840c56"
           (Examples.array Examples.absent) Examples.absent None []
           ltac:(discriminate) eq_refl eq_refl eq_refl eq_refl).
Defined.

Lemma onlyNotFound_absent : onlyNotFound Examples.absent.
Proof. by constructor. Qed.

(** An array that has none of the objects left: the deletion succeeds. *)
Lemma DeleteStorageProtectionGroup_guarded_witness :
  ∃ calls,
    DeleteStorageProtectionGroup (Examples.service Examples.absent)
                                 Examples.attributes "vg-1" []
      = (Returned (Some (), None), calls)
    ∧ policyGuard Examples.absent [] calls ∧ ruleGuard Examples.absent [] calls.
Proof.
  destruct (DeleteStorageProtectionGroup_guarded
              (Examples.service Examples.absent) Examples.attributes "vg-1" "PS1"
              (Examples.array Examples.absent) Examples.absent []
              eq_refl eq_refl eq_refl)
    as (reply & calls & Hrun & Hpolicy & Hrule & Hnf).
  exists calls. rewrite <- (Hnf (mk_is_Some _ _ eq_refl) onlyNotFound_absent).
  auto.
Defined.

(** A series whose last sample but one is five seconds old and shows IO. *)
Lemma IsIOInProgress_spec_witness :
  @IsIOInProgress Examples.platform "vol-1"
                  (Examples.array (Examples.client None Examples.busy)) "scsi" []
  = (Returned None, [PerformanceMetricsByVolumeCall "vol-1"]).
Proof.
  destruct (@IsIOInProgress_spec Examples.platform "vol-1"
              (Examples.array (Examples.client None Examples.busy))
              (Examples.client None Examples.busy) "scsi" [] eq_refl)
    as (err & Hrun & Hiff).
  rewrite Hrun. f_equal. f_equal. apply Hiff. split; [reflexivity|].
  exists 1%nat, {| TotalIops := 49 # 10; Timestamp := Some 1699999995000000000%Z |},
         1699999995000000000%Z.
  repeat split; first [reflexivity | vm_compute; lia].
Defined.

(** C5, as stated, fails: the probe of the first volume fails on a server
    error of the array; the check goes on to the second volume and the call
    succeeds, with the reply it gives when the probes find no IO. *)
Lemma ValidateVolumeHostConnectivity_drops_probe_error :
  @IsIOInProgress Examples.platform "vol-1" (Examples.array Examples.failing)
                  "scsi" []
    = (Returned (Some (PlainErr
         "error internal server error while while checking IsIOInProgress")),
       [PerformanceMetricsByVolumeCall "vol-1"])
  ∧ @ValidateVolumeHostConnectivity Examples.platform
        (Examples.service Examples.failing) Examples.probeRequest []
    = (Returned (Some Examples.noIO, None),
       [PerformanceMetricsByVolumeCall "vol-1";
        PerformanceMetricsByVolumeCall "vol-2"])
  ∧ @ValidateVolumeHostConnectivity Examples.platform
        (Examples.service Examples.idle) Examples.probeRequest []
    = (Returned (Some Examples.noIO, None),
       [PerformanceMetricsByVolumeCall "vol-1";
        PerformanceMetricsByVolumeCall "vol-2"]).
Proof. repeat split; vm_compute; reflexivity. Qed.

(** A request without a node ID is refused, with an error that is no probe's. *)
Lemma ValidateVolumeHostConnectivity_errors_witness :
  @ValidateVolumeHostConnectivity Examples.platform
      (Examples.service Examples.idle) Examples.noNodeRequest []
    = (Returned (None, Some (PlainErr "the NodeID is a required field")), [])
  ∧ callError (PlainErr "the NodeID is a required field")
  ∧ ¬ probeError (PlainErr "the NodeID is a required field").
Proof.
  split; [reflexivity|].
  exact (@ValidateVolumeHostConnectivity_errors Examples.platform
           (Examples.service Examples.idle) Examples.noNodeRequest
           [] None _ [] eq_refl).
Defined.

(** Two arrays, neither marked as the default: the first is the default. *)
Lemma UpdateArrays_default_is_first_witness :
  DefaultArray (locker Examples.reloaded) = Some 0%nat
  ∧ GlobalID <$> store Examples.reloaded !! 0%nat = Some "PS1".
Proof.
  destruct (@UpdateArrays_default_is_first Examples.reachable Examples.yaml
              Examples.files "config.yaml" Examples.emptyRegistry "arrays: ..."
              (Examples.configured "PS1" "https://10.0.0.1/api/rest")
              [Some (Examples.configured "PS2" "https://10.0.0.2/api/rest")]
              Examples.reloaded eq_refl eq_refl)
    as (_ & Hdefault & Hstore).
  - intros a Ha.
    repeat (apply elem_of_cons in Ha as [[= ->]|Ha]; [reflexivity|]).
    by apply elem_of_nil in Ha.
  - vm_compute. reflexivity.
  - change (length (store Examples.emptyRegistry)) with 0%nat in Hdefault, Hstore.
    split; [exact Hdefault|]. rewrite Hstore. reflexivity.
Defined.

(** The series of the repository's tests. *)
Example lastEntries_active :
  lastEntries Examples.activeIOVolumeMetrics 1700000000000000000 = true.
Proof. reflexivity. Qed.

Example lastEntries_inactive :
  lastEntries Examples.inactiveIOVolumeMetrics 1700000000000000000 = false.
Proof. reflexivity. Qed.

(** A sample older than the last four does not count. *)
Example lastEntries_old_sample :
  lastEntries (Examples.sample 5 true :: Examples.inactiveIOVolumeMetrics)
              1700000000000000000 = false.
Proof. reflexivity. Qed.

(** An array marked as the default is the default, wherever it is listed. *)
Example GetPowerStoreArrays_marked_default :
  defaultArrayPtr
    (@GetPowerStoreArrays Examples.reachable
       {| Unmarshal := λ _, inl Examples.secondIsDefault |}
       Examples.files "config.yaml" []).1 = Some 1%nat.
Proof. vm_compute. reflexivity. Qed.

End Instances.

(** * More properties *)

(** ** The registry across reloads *)

Section Reload.
Context `{Platform} `{Yaml}.

#[local] Arguments String.append : simpl never.

(** A load never touches the objects that were there before it. *)
Lemma GetPowerStoreArrays_old fs filePath st res st' q :
  GetPowerStoreArrays fs filePath st = (res, st') →
  (q < length st)%nat → st' !! q = st !! q.
Proof.
  unfold GetPowerStoreArrays.
  destruct (ReadFile fs _) as [data|]; [|by intros [= _ <-]].
  destruct (Unmarshal data) as [entries|]; [|by intros [= _ <-]].
  destruct (allocate st entries) as [st1 ptrs] eqn:Halloc.
  apply allocate_spec in Halloc as (_ & Hold & Hnew).
  destruct ptrs as [|first ptrs]; [intros [= _ <-] ?; by apply Hold|].
  intros Hload Hq. rewrite <- Hold by done.
  eapply loadArrays_frame; [done|].
  intros [Hge _]%Hnew. lia.
Qed.

(** X1.  A reload, failed or not, leaves every array object of the earlier
    loads as it was, so that a pointer taken from the registry before the
    reload still reads the same array; and a reload that fails leaves the
    arrays, the default array and the IP index of the registry as they
    were. *)
Theorem UpdateArrays_keeps r configPath fs r' e :
  UpdateArrays r configPath fs = (r', e) →
  (∀ q, (q < length (store r))%nat → store r' !! q = store r !! q)
  ∧ (is_Some e → locker r' = locker r ∧ IPToArray r' = IPToArray r).
Proof.
  unfold UpdateArrays.
  destruct (GetPowerStoreArrays fs configPath (store r)) as [res st'] eqn:Hload.
  destruct (loadErr res); intros [= <- <-]; cbn.
  - split; [|done]. intros q Hq. by eapply GetPowerStoreArrays_old.
  - split; [|by intros [? ?]]. intros q Hq. by eapply GetPowerStoreArrays_old.
Qed.

(** What a successful [initArray] leaves. *)
Lemma initArray_ok array array' :
  initArray array = (array', None) →
  GlobalID array' = GlobalID array ∧ is_Some (ArrayClient array').
Proof.
  unfold initArray.
  destruct (NewClientWithArgs _ _ _ _); [|done].
  destruct (GetIPListFromString _).
  - destruct (_ !! 2%nat); [|done].
    destruct (onlyDigitsAndDots _); [done|]. by intros [= <-].
  - by intros [= <-].
Qed.

Lemma loadArrays_maps ptrs st am ix d found res st' :
  loadArrays ptrs st am ix d found = (res, st') →
  loadErr res = None →
  (∀ k p, am !! k = Some p →
     ∃ a, st !! p = Some a ∧ GlobalID a = k ∧ k ≠ "" ∧ is_Some (ArrayClient a)) →
  (∀ ip g, ix !! ip = Some g → is_Some (am !! g)) →
  (∀ k p, arrayMap res !! k = Some p →
     ∃ a, st' !! p = Some a ∧ GlobalID a = k ∧ k ≠ "" ∧ is_Some (ArrayClient a))
  ∧ (∀ ip g, mapper res !! ip = Some g → is_Some (arrayMap res !! g)).
Proof.
  revert st am ix d found.
  induction ptrs as [|[p|] ptrs IH]; intros st am ix d found;
    cbn [loadArrays]; [by intros [= <- <-]| |by intros [= <- <-]].
  intros Hrun Hok Harrays Hindex.
  destruct (st !! p) as [array|] eqn:Hp; [|by injection Hrun as <- <-].
  destruct (String.eqb (GlobalID array) "") eqn:Hid; [by injection Hrun as <- _|].
  apply String.eqb_neq in Hid.
  destruct (initArray array) as [array' [e|]] eqn:Hinit;
    [by injection Hrun as <- _|].
  apply initArray_ok in Hinit as [Hsame Hclient].
  assert (∀ k p0, <[GlobalID array' := p]> am !! k = Some p0 →
            ∃ a, <[p := array']> st !! p0 = Some a ∧ GlobalID a = k ∧ k ≠ ""
                 ∧ is_Some (ArrayClient a)) as Harrays'.
  { intros k p0. rewrite lookup_insert. case_decide as Hk.
    - intros [= <-]. exists array'. subst k.
      rewrite list_lookup_insert_eq by by eapply lookup_lt_Some.
      by rewrite Hsame.
    - intros (a & Ha & <- & ? & ?)%Harrays.
      assert (p0 ≠ p) by (intros ->; congruence).
      exists a. by rewrite list_lookup_insert_ne. }
  assert (∀ ip g, <[IP array' := GlobalID array']> ix !! ip = Some g →
            is_Some (<[GlobalID array' := p]> am !! g)) as Hindex'.
  { intros ip g. rewrite lookup_insert. case_decide.
    - intros [= <-]. by rewrite lookup_insert_eq.
    - intros Hg%Hindex. rewrite lookup_insert. by case_decide. }
  destruct (IsDefault array' && negb found); by eapply IH.
Qed.

(** X2.  After a load without error, every entry of the map of arrays points
    to an object whose GlobalID is the key, is not empty, and whose client is
    bound; and every GlobalID of the IP index is a key of the map. *)
Theorem GetPowerStoreArrays_maps fs filePath st res st' :
  GetPowerStoreArrays fs filePath st = (res, st') →
  loadErr res = None →
  (∀ k p, arrayMap res !! k = Some p →
     ∃ a, st' !! p = Some a ∧ GlobalID a = k ∧ k ≠ "" ∧ is_Some (ArrayClient a))
  ∧ (∀ ip g, mapper res !! ip = Some g → is_Some (arrayMap res !! g)).
Proof.
  unfold GetPowerStoreArrays.
  destruct (ReadFile fs _) as [data|]; [|by intros [= <- _]].
  destruct (Unmarshal data) as [entries|]; [|by intros [= <- _]].
  destruct (allocate st entries) as [st1 ptrs].
  destruct ptrs as [|first ptrs]; [by intros [= <- _]|].
  intros Hload Hok. eapply loadArrays_maps; [done..| |]; by intros ??.
Qed.

End Reload.

(** ** The array marked as the default *)

Section MarkedDefault.
Context `{Platform} `{Yaml}.

#[local] Arguments String.append : simpl never.






End MarkedDefault.

(** ** More on the connectivity check *)

Section ConnectivityMore.
Context `{Platform}.

#[local] Arguments String.append : simpl never.
#[local] Arguments lastEntries : simpl never.

(** X4.  Only the last four samples of a series count: samples before them,
    whatever they show, do not change what a probe finds. *)
Theorem lastEntries_recent old recent currentTime :
  (4 ≤ length recent)%nat →
  lastEntries (old ++ recent) currentTime = lastEntries recent currentTime.
Proof.
  intros Hlen. apply Bool.eq_iff_eq_true. rewrite !lastEntries_spec. split.
  - intros (i & m & Hi & Hrecent & ? & ?). rewrite length_app in Hrecent.
    exists (i - length old)%nat, m. rewrite lookup_app_r in Hi by lia.
    repeat split; try done. lia.
  - intros (i & m & Hi & Hrecent & ? & ?).
    exists (length old + i)%nat, m. rewrite length_app.
    rewrite lookup_app_r by lia.
    replace (length old + i - length old)%nat with i by lia.
    repeat split; try done. lia.
Qed.

Lemma checkIfNodeIsConnected_IosInProgress arrayID nodeID rep :
  IosInProgress (checkIfNodeIsConnected arrayID nodeID rep).1 = IosInProgress rep.
Proof.
  unfold checkIfNodeIsConnected. destruct (last _); [|done].
  by destruct (QueryArrayStatus _) as [[|] [?|]].
Qed.

Lemma checkArrays_no_volumes s req globalIDs rep hist :
  VolumeIds req = [] →
  ∃ rep' e, checkArrays s req globalIDs rep hist = (Returned (Some rep', e), hist)
            ∧ IosInProgress rep' = IosInProgress rep.
Proof.
  intros Hvol. revert rep.
  induction globalIDs as [|globalID rest IH]; intros rep; cbn [checkArrays].
  - by exists rep, None.
  - pose proof (checkIfNodeIsConnected_IosInProgress globalID (NodeId req) rep) as Hio.
    destruct (checkIfNodeIsConnected globalID (NodeId req) rep) as [rep1 [e|]];
      simpl in Hio.
    + by exists rep1, (Some e).
    + rewrite Hvol. cbn. destruct (IH rep1) as (rep' & e & -> & Hio').
      exists rep', e. split; [done|congruence].
Qed.

(** X5.  A request that names no volume issues no call to any array,
    whatever it returns, and a reply to it never reports IO in progress. *)
Theorem ValidateVolumeHostConnectivity_no_volumes s req hist out hist' :
  VolumeIds req = [] →
  ValidateVolumeHostConnectivity s req hist = (out, hist') →
  hist' = hist
  ∧ ∀ rep e, out = Returned (Some rep, e) → IosInProgress rep = false.
Proof.
  intros Hvol. unfold ValidateVolumeHostConnectivity. rewrite Hvol. cbn.
  destruct (String.eqb (NodeId req) ""); cbn.
  - intros [= <- <-]. split; [done|]. by intros ?? [= <- _].
  - rewrite run_bind.
    destruct (String.eqb (ArrayId req) "").
    + destruct (ServiceDefaultArray s) as [d|]; run.
      * destruct (checkArrays_no_volumes s req (rangeOrder {[GlobalID d]})
                    {| Connected := false; IosInProgress := false; Messages := [] |}
                    hist Hvol) as (rep' & e & -> & Hio).
        intros [= <- <-]. split; [done|]. by intros ?? [= <- _].
      * intros [= <- <-]. split; [done|]. by intros ?? [=].
    + run.
      destruct (checkArrays_no_volumes s req (rangeOrder {[ArrayId req]})
                  {| Connected := false; IosInProgress := false; Messages := [] |}
                  hist Hvol) as (rep' & e & -> & Hio).
      intros [= <- <-]. split; [done|]. by intros ?? [= <- _].
Qed.

End ConnectivityMore.

(** ** Requests over several arrays *)

Section SeveralArrays.
Context `{Platform}.

#[local] Arguments String.append : simpl never.
#[local] Arguments lastEntries : simpl never.






End SeveralArrays.

(** ** More on decoding volume handles *)

Section VolumeHandlesMore.
Context `{Platform}.

#[local] Arguments String.append : simpl never.
#[local] Arguments classifyLegacy : simpl never.

Lemma Split_nonempty s sep : Split s sep ≠ [].
Proof.
  induction s as [|c s IH]; simpl; [done|].
  destruct (Ascii.eqb c sep); [done|]. by destruct (Split s sep).
Qed.

Lemma Split_app s t sep :
  Split (s +:+ String sep "" +:+ t) sep = Split s sep ++ Split t sep.
Proof.
  induction s as [|c s IH]; simpl.
  - by rewrite Ascii.eqb_refl.
  - change (String.append s (String sep (String.append "" t)))
      with (s +:+ String sep "" +:+ t).
    rewrite IH. destruct (Ascii.eqb c sep); [done|].
    pose proof (Split_nonempty s sep). by destruct (Split s sep).
Qed.

(** X7.  Decoding reads the first three fields of a handle and drops the
    others: a handle with more fields decodes, without an error, to what its
    first three fields decode to. *)
Theorem ParseVolumeID_extra_fields IPToArray l a p more d vc hist :
  isField l = true → isField a = true → isField p = true →
  hasByte ":" more = false →
  ParseVolumeID IPToArray (handleOf l a p None +:+ "/" +:+ more) d vc hist
  = ParseVolumeID IPToArray (handleOf l a p None) d vc hist.
Proof.
  intros Hl Ha Hp Hmore.
  rewrite (ParseVolumeID_structured _ l a p None) by done.
  unfold ParseVolumeID, handleOf, arrayOfRef.
  rewrite append_not_empty.
  rewrite Split_whole.
  2:{ rewrite hasByte_app, local_no_colon by done. simpl.
      rewrite hasByte_app. by rewrite Hmore. }
  run. rewrite (Split_app _ more "/"), Split_local by done. cbn.
  by destruct (GetIPListFromString a).
Qed.

(** X8.  With a mount capability in the request, a bare volume ID is
    classified without a call to the array: [nfs] when the file system type
    is [nfs], [scsi] for any other, on the default array. *)
Theorem ParseVolumeID_legacy_capability IPToArray h arr fsType hist :
  h ≠ "" → hasByte "/" h = false → hasByte ":" h = false →
  ParseVolumeID IPToArray h (Some arr)
                (Some {| Mount := Some {| FsType := fsType |} |}) hist
  = (Returned (Build_VolumeHandle h (GlobalID arr)
                 (if String.eqb fsType "nfs" then "nfs" else "scsi") "" "",
               None), hist).
Proof.
  intros Hne Hslash Hcolon. unfold ParseVolumeID.
  apply String.eqb_neq in Hne. rewrite Hne.
  rewrite Split_whole by done. run.
  rewrite Split_whole by done. cbn.
  unfold classifyLegacy. cbn. by destruct (String.eqb fsType "nfs").
Qed.

(** X9.  A handle whose local part has more than one field is decoded
    without a call to the array, and the decoding returns exactly when the
    local part has three fields or more and the remote part, if there is one,
    two or more; it panics otherwise. *)
Theorem ParseVolumeID_fields IPToArray h d vc hist :
  h ≠ "" →
  let parts := Split h ":" in
  let loc := Split (default "" (head parts)) "/" in
  length loc ≠ 1%nat →
  (ParseVolumeID IPToArray h d vc hist).2 = hist
  ∧ (returned (ParseVolumeID IPToArray h d vc hist).1
     ↔ (3 ≤ length loc)%nat
       ∧ (length parts = 1%nat
          ∨ (2 ≤ length (Split (default "" (parts !! 1%nat)) "/"))%nat)).
Proof.
  intros Hne parts loc Hloc. subst loc. unfold ParseVolumeID.
  apply String.eqb_neq in Hne. rewrite Hne. fold parts.
  pose proof (Split_nonempty h ":") as Hparts. fold parts in Hparts.
  destruct parts as [|first rest]; [done|]. run. cbn in Hloc.
  pose proof (Split_nonempty first "/").
  destruct (Split first "/") as [|l [|a [|p fields]]]; try done; cbn.
  { split; [done|]. split; [done|]. intros [? _]. lia. }
  destruct rest as [|second rest]; cbn.
  { split; [done|]. split; [|done]. intros _. split; [lia|by left]. }
  pose proof (Split_nonempty second "/").
  destruct (Split second "/") as [|r [|ra more]]; try done; cbn.
  - split; [done|]. split; [done|]. intros [_ [?|?]]; [done|lia].
  - split; [done|]. split; [|done]. intros _. split; [lia|right; lia].
Qed.

End VolumeHandlesMore.

(** ** More on replication actions *)

Section ReplicationMore.

#[local] Arguments String.append : simpl never.

(** X10.  The actions the controller advertises are the actions it executes:
    an action is among the supported actions of
    [GetReplicationCapabilities] exactly when the switch of
    [Service.ExecuteAction] has a case for it. *)
Theorem advertised_actions action :
  action ∈ Actions GetReplicationCapabilities ↔ is_Some (actionFor action).
Proof.
  split.
  - intros Hin. cbn in Hin.
    repeat (apply elem_of_cons in Hin as [->|Hin]; [by eexists|]).
    by apply elem_of_nil in Hin.
  - intros [? Hsome]. destruct action; cbn; try discriminate;
      repeat first [by left | right].
Qed.

(** X11.  The state machine of the actions and the projection of the status
    agree: a session that [validateRSState] finds in the state an action
    leads to is reported as synchronized for a resume or a reprotect, as
    suspended for a pause, as failed over for a failover; a session on which
    the action is still under way is reported as in progress. *)
Theorem settled_status session action :
  ((validateRSState session action).1.1 = true →
   projectState (rs_State session)
   = match action with
     | RsActionPause => SUSPENDED
     | RsActionFailover => FAILEDOVER
     | _ => SYNCHRONIZED
     end)
  ∧ (validateRSState session action = (false, false, None) →
     projectState (rs_State session) = SYNC_IN_PROGRESS).
Proof.
  unfold validateRSState.
  destruct action; split;
    repeat match goal with
           | |- context [String.eqb ?s ?t] =>
               destruct (String.eqb_spec s t) as [->|?]; cbn
           end; done.
Qed.

Lemma ExecuteAction_calls session client action params hist :
  ∃ r calls,
    ExecuteAction session client action params hist = (Returned r, hist ++ calls)
    ∧ (calls = []
       ∨ calls = [ExecuteActionOnReplicationSessionCall (rs_ID session) action params]
         ∧ validateRSState session action = (false, true, None)).
Proof.
  destruct (validateRSState session action) as [[inDesired required] e] eqn:Hv.
  assert (e = None) as ->.
  { revert Hv. unfold validateRSState.
    destruct action; repeat case_match; by intros [= _ _ <-]. }
  destruct inDesired, required.
  1,2: unfold ExecuteAction; rewrite Hv; eexists _, []; cbn;
       rewrite (right_id_L [] (++)); auto.
  - rewrite (ExecuteAction_issued _ _ _ _ _ Hv). eexists _, [_]. auto.
  - unfold ExecuteAction. rewrite Hv. eexists _, []; cbn.
    rewrite (right_id_L [] (++)); auto.
Qed.

Lemma GetStorageProtectionGroupStatus_calls s localParams groupID hist :
  ∃ out calls,
    GetStorageProtectionGroupStatus s localParams groupID hist = (out, hist ++ calls)
    ∧ (calls = [] ∨ calls = [GetReplicationSessionByLocalResourceIDCall groupID]).
Proof.
  unfold GetStorageProtectionGroupStatus.
  destruct (localParams !! _) as [globalID|].
  2:{ eexists _, []. rewrite (right_id_L [] (++)). auto. }
  destruct (ArraysAt s globalID) as [arr|].
  2:{ eexists _, []. rewrite (right_id_L [] (++)). auto. }
  unfold GetReplicationSessionByLocalResourceID. run.
  destruct (ArrayClient arr) as [client|].
  2:{ eexists _, []. rewrite (right_id_L [] (++)). auto. }
  cbn. destruct (doGetReplicationSessionByLocalResourceID _ _ _) as [rs [e|]];
    cbn; eexists _, [_]; auto.
Qed.

(** X12.  [Service.ExecuteAction] issues at most three calls, and an action
    among them is the action the request asks for, with its parameters, on
    the session that the array returned for the protection group, and only
    when [validateRSState] requires it for that session: no action is issued
    for an unsupported request, for a session that is where the action leads
    or for one on which it is under way. *)
Theorem ServiceExecuteAction_action s req hist :
  ∃ out calls,
    ServiceExecuteAction s req hist = (out, hist ++ calls)
    ∧ (length calls ≤ 3)%nat
    ∧ ∀ id action params,
        ExecuteActionOnReplicationSessionCall id action params ∈ calls →
        actionFor (ea_Action req) = Some (action, params)
        ∧ ∃ globalID arr client rs,
            ea_ProtectionGroupAttributes req
              !! (replicationContextPrefix s +:+ "globalID") = Some globalID
            ∧ ArraysAt s globalID = Some arr
            ∧ ArrayClient arr = Some client
            ∧ doGetReplicationSessionByLocalResourceID client hist
                (ea_ProtectionGroupId req) = (rs, None)
            ∧ id = rs_ID rs
            ∧ validateRSState rs action = (false, true, None).
Proof.
  unfold ServiceExecuteAction.
  destruct (ea_ProtectionGroupAttributes req !! _) as [globalID|] eqn:HglobalID.
  2:{ eexists _, []. rewrite (right_id_L [] (++)).
      split; [done|]. split; [simpl; lia|]. by intros ??? ?%elem_of_nil. }
  destruct (ArraysAt s globalID) as [arr|] eqn:Harr.
  2:{ eexists _, []. rewrite (right_id_L [] (++)).
      split; [done|]. split; [simpl; lia|]. by intros ??? ?%elem_of_nil. }
  unfold withClient. destruct (ArrayClient arr) as [client|] eqn:Hclient.
  2:{ eexists _, []. rewrite (right_id_L [] (++)).
      split; [done|]. split; [simpl; lia|]. by intros ??? ?%elem_of_nil. }
  rewrite run_bind. unfold GetReplicationSessionByLocalResourceID at 1.
  unfold issue.
  destruct (doGetReplicationSessionByLocalResourceID client hist
              (ea_ProtectionGroupId req)) as [rs e] eqn:Hrs.
  set (fetch := GetReplicationSessionByLocalResourceIDCall (ea_ProtectionGroupId req)).
  destruct e as [e|].
  { eexists _, [fetch]. split; [done|]. split; [simpl; lia|].
    intros ??? [?|?%elem_of_nil]%elem_of_cons; done. }
  destruct (actionFor (ea_Action req)) as [[execAction params]|] eqn:Haction.
  2:{ eexists _, [fetch]. split; [done|]. split; [simpl; lia|].
      intros ??? [?|?%elem_of_nil]%elem_of_cons; done. }
  rewrite run_bind.
  destruct (ExecuteAction_calls rs client execAction params (hist ++ [fetch]))
    as (r & calls1 & -> & Hcalls1).
  assert (∀ id action' params',
            ExecuteActionOnReplicationSessionCall id action' params' ∈ calls1 →
            Some (execAction, params) = Some (action', params')
            ∧ ∃ globalID0 arr0 client0 rs0,
                Some globalID = Some globalID0
                ∧ ArraysAt s globalID0 = Some arr0
                ∧ ArrayClient arr0 = Some client0
                ∧ doGetReplicationSessionByLocalResourceID client0 hist
                    (ea_ProtectionGroupId req) = (rs0, None)
                ∧ id = rs_ID rs0
                ∧ validateRSState rs0 action' = (false, true, None)) as Hissued.
  { intros id action' params' Hin.
    destruct Hcalls1 as [->|[-> Hv]]; [by apply elem_of_nil in Hin|].
    apply list_elem_of_singleton in Hin as [= -> -> ->].
    split; [done|]. by exists globalID, arr, client, rs. }
  assert (length calls1 ≤ 1)%nat as Hlen1.
  { destruct Hcalls1 as [->|[-> _]]; simpl; lia. }
  rewrite <- (assoc_L (++)).
  destruct r as [e|].
  { eexists _, ([fetch] ++ calls1). split; [done|].
    split; [rewrite length_app; simpl; lia|].
    intros ??? [[?|?%elem_of_nil]%elem_of_cons|?]%elem_of_app; [done..|].
    by apply Hissued. }
  rewrite run_bind.
  destruct (GetStorageProtectionGroupStatus_calls s
              (ea_ProtectionGroupAttributes req) (ea_ProtectionGroupId req)
              (hist ++ [fetch] ++ calls1)) as (out2 & calls2 & -> & Hcalls2).
  assert (∃ out, match out2 with
                 | Returned a =>
                     (let '(statusResp, err) := a in
                      match statusResp, err with
                      | _, Some e =>
                          mret (None, Some (StatusErr Internal
                            ("can't get storage protection group status: "
                               +:+ Error e)))
                      | Some st, None =>
                          mret (Some {| Success := true; Action := ea_Action req;
                                        Status := st |}, None)
                      | None, None => nilPointer
                      end) ((hist ++ [fetch] ++ calls1) ++ calls2)
                 | Panicked msg => (Panicked msg, (hist ++ [fetch] ++ calls1) ++ calls2)
                 end = (out, hist ++ [fetch] ++ calls1 ++ calls2)) as [out ->].
  { rewrite <- !(assoc_L (++)).
    destruct out2 as [[[st|] [e|]]|]; by eexists. }
  exists out, ([fetch] ++ calls1 ++ calls2). split; [done|].
  split.
  { rewrite !length_app. destruct Hcalls2 as [->| ->]; simpl; lia. }
  intros id action' params'
    [[?|?%elem_of_nil]%elem_of_cons|[?|Hin]%elem_of_app]%elem_of_app; try done.
  - by apply Hissued.
  - destruct Hcalls2 as [->| ->]; [by apply elem_of_nil in Hin|].
    by apply list_elem_of_singleton in Hin.
Qed.

End ReplicationMore.

(** ** More on the deletion of a protection group *)

Section Teardown.

#[local] Arguments String.append : simpl never.

(** What a client without failure of the API cannot have answered. *)
Ltac fails ok :=
  repeat match goal with
         | N : noAPIFailure _ → _ |- _ => specialize (N ok); unfold passes in N
         end;
  simpl in *;
  try match goal with
      | E : NotFound ?a = _, N : context [NotFound ?a] |- _ => rewrite E in N
      end;
  simpl in *; congruence.

(** The end of a part: its calls are about its subject, a [return] carries
    status Internal, and it took a failure of the API. *)
Ltac close :=
  leaf; split; [cbn; rewrite ?Forall_cons, ?Forall_nil; by repeat split|];
  split; [intros ? ?; simplify_eq; by eexists|];
  first [done | let ok := fresh in intros ok; fails ok].

Lemma deleteVolumeGroup_part client groupID hist :
  ∃ r calls,
    deleteVolumeGroup client groupID hist = (Returned r, hist ++ calls)
    ∧ Forall (λ c, subjectOf c = Some AboutVolumeGroup) calls
    ∧ (∀ early, r = Some early → ∃ msg, early = internal msg)
    ∧ (noAPIFailure client → r = None).
Proof.
  unfold deleteVolumeGroup, GetVolumeGroup, ModifyVolumeGroup, DeleteVolumeGroup.
  run.
  pose proof (λ ok, ok_GetVolumeGroup client ok hist groupID) as N1.
  destruct (doGetVolumeGroup client hist groupID) as [vg e1].
  simpl in N1.
  destruct (isAPIErrorNotNotFound e1) eqn:G1; cbn; [close|].
  destruct (String.eqb (vg_ID vg) ""); cbn; [close|].
  destruct (String.eqb (vg_ProtectionPolicyID vg) ""); cbn.
  - match goal with
    | |- context [doDeleteVolumeGroup client ?h groupID] =>
        pose proof (λ ok, ok_DeleteVolumeGroup client ok h groupID) as N3;
        destruct (doDeleteVolumeGroup client h groupID) as [[| a |]|]
    end; simpl in N3; cbn; [close| |close..].
    destruct (NotFound a) eqn:Ea; cbn; close.
  - match goal with
    | |- context [doModifyVolumeGroup client ?h "" groupID] =>
        pose proof (λ ok, ok_ModifyVolumeGroup client ok h "" groupID) as N2;
        destruct (isAPIErrorNotNotFound (doModifyVolumeGroup client h "" groupID))
          eqn:G2
    end; cbn; [close|].
    match goal with
    | |- context [doDeleteVolumeGroup client ?h groupID] =>
        pose proof (λ ok, ok_DeleteVolumeGroup client ok h groupID) as N3;
        destruct (doDeleteVolumeGroup client h groupID) as [[| a |]|]
    end; simpl in N3; cbn; [close| |close..].
    destruct (NotFound a) eqn:Ea; cbn; close.
Qed.

Lemma deleteProtectionPolicy_part client vgName hist :
  ∃ r calls,
    deleteProtectionPolicy client vgName hist = (Returned r, hist ++ calls)
    ∧ Forall (λ c, subjectOf c = Some AboutProtectionPolicy) calls
    ∧ (∀ early, r = Some early → ∃ msg, early = internal msg)
    ∧ (noAPIFailure client → r = None).
Proof.
  unfold deleteProtectionPolicy, GetProtectionPolicyByName, DeleteProtectionPolicy.
  run.
  pose proof (λ ok, ok_GetProtectionPolicyByName client ok hist ("pp-" +:+ vgName))
    as N1.
  destruct (doGetProtectionPolicyByName client hist ("pp-" +:+ vgName))
    as [pp e1].
  simpl in N1.
  destruct (isAPIErrorNotNotFound e1) eqn:G1; cbn; [close|].
  destruct (_ && _); cbn; [|close].
  match goal with
  | |- context [doDeleteProtectionPolicy client ?h ?id] =>
      pose proof (λ ok, ok_DeleteProtectionPolicy client ok h id) as N2;
      destruct (isAPIErrorNotNotFound (doDeleteProtectionPolicy client h id)) eqn:G2
  end; cbn; close.
Qed.

Lemma deleteReplicationRule_part client vgName hist :
  ∃ r calls,
    deleteReplicationRule client vgName hist = (Returned r, hist ++ calls)
    ∧ Forall (λ c, subjectOf c = Some AboutReplicationRule) calls
    ∧ (∀ early, r = Some early → ∃ msg, early = internal msg)
    ∧ (noAPIFailure client → r = None).
Proof.
  unfold deleteReplicationRule, GetReplicationRuleByName, DeleteReplicationRule.
  run.
  pose proof (λ ok, ok_GetReplicationRuleByName client ok hist ("rr-" +:+ vgName))
    as N1.
  destruct (doGetReplicationRuleByName client hist ("rr-" +:+ vgName))
    as [rr e1].
  simpl in N1.
  destruct (isAPIErrorNotNotFound e1) eqn:G1; cbn; [close|].
  destruct (_ && _); cbn; [|close].
  match goal with
  | |- context [doDeleteReplicationRule client ?h ?id] =>
      pose proof (λ ok, ok_DeleteReplicationRule client ok h id) as N2;
      destruct (isAPIErrorNotNotFound (doDeleteReplicationRule client h id)) eqn:G2
  end; cbn; close.
Qed.

#[local] Arguments deleteVolumeGroup : simpl never.
#[local] Arguments deleteProtectionPolicy : simpl never.
#[local] Arguments deleteReplicationRule : simpl never.

(** X13.  [DeleteStorageProtectionGroup] tears down in a fixed order: the
    calls it issues are first calls about the volume group, then calls about
    the protection policy, then calls about the replication rule, and no
    other call.  So the policy is looked up only once the group is dealt
    with, and the rule only once the policy is. *)
Theorem DeleteStorageProtectionGroup_order s localParams groupID hist :
  ∃ out calls1 calls2 calls3,
    DeleteStorageProtectionGroup s localParams groupID hist
      = (out, hist ++ calls1 ++ calls2 ++ calls3)
    ∧ Forall (λ c, subjectOf c = Some AboutVolumeGroup) calls1
    ∧ Forall (λ c, subjectOf c = Some AboutProtectionPolicy) calls2
    ∧ Forall (λ c, subjectOf c = Some AboutReplicationRule) calls3.
Proof.
  unfold DeleteStorageProtectionGroup.
  destruct (localParams !! (replicationContextPrefix s +:+ "globalID")) as [globalID|].
  2:{ eexists _, [], [], []. cbn. by rewrite (right_id_L [] (++)). }
  destruct (ArraysAt s globalID) as [arr|].
  2:{ eexists _, [], [], []. cbn. by rewrite (right_id_L [] (++)). }
  unfold withClient. destruct (ArrayClient arr) as [client|].
  2:{ eexists _, [], [], []. cbn. by rewrite (right_id_L [] (++)). }
  rewrite run_bind.
  destruct (deleteVolumeGroup_part client groupID hist)
    as (r1 & calls1 & -> & S1 & _).
  destruct r1 as [early|].
  { eexists _, calls1, [], []. cbn. by rewrite (right_id_L [] (++)). }
  destruct (localParams !! (replicationContextPrefix s +:+ "VolumeGroupName"))
    as [vgName|].
  2:{ eexists _, calls1, [], []. cbn. by rewrite (right_id_L [] (++)). }
  rewrite run_bind.
  destruct (deleteProtectionPolicy_part client vgName (hist ++ calls1))
    as (r2 & calls2 & -> & S2 & _).
  destruct r2 as [early|].
  { eexists _, calls1, calls2, []. cbn.
    by rewrite (right_id_L [] (++)), (assoc_L (++)). }
  rewrite run_bind.
  destruct (deleteReplicationRule_part client vgName ((hist ++ calls1) ++ calls2))
    as (r3 & calls3 & -> & S3 & _).
  exists (Returned (from_option id (Some (), None) r3)), calls1, calls2, calls3.
  rewrite <- !(assoc_L (++) hist), <- (assoc_L (++) calls1).
  split; [|done]. by destruct r3.
Qed.

(** X14.  On an array of the registry that has a client,
    [DeleteStorageProtectionGroup] answers success or an error of status
    Internal, nothing else.  Only an error of the array's API that is not
    "not found" makes it fail when the name of the volume group is among the
    attributes: an error that is not of the API, as a failure of the
    transport, is taken as "nothing to delete".  When the name is missing
    the request fails, but only after the part about the volume group has
    run: the calls issued are those of that part. *)
Theorem DeleteStorageProtectionGroup_replies
    s localParams groupID globalID arr client hist :
  localParams !! (replicationContextPrefix s +:+ "globalID") = Some globalID →
  ArraysAt s globalID = Some arr →
  ArrayClient arr = Some client →
  ∃ reply hist',
    DeleteStorageProtectionGroup s localParams groupID hist
      = (Returned reply, hist')
    ∧ (reply = (Some (), None) ∨ ∃ msg, reply = internal msg)
    ∧ (is_Some (localParams !! (replicationContextPrefix s +:+ "VolumeGroupName")) →
       noAPIFailure client → reply = (Some (), None))
    ∧ (localParams !! (replicationContextPrefix s +:+ "VolumeGroupName") = None →
       reply ≠ (Some (), None)
       ∧ (deleteVolumeGroup client groupID hist).2 = hist').
Proof.
  intros HglobalID Harr Hclient.
  unfold DeleteStorageProtectionGroup. rewrite HglobalID, Harr.
  unfold withClient. rewrite Hclient. rewrite run_bind.
  destruct (deleteVolumeGroup_part client groupID hist)
    as (r1 & calls1 & -> & _ & I1 & N1).
  destruct r1 as [early|].
  { exists early, (hist ++ calls1). split; [done|].
    destruct (I1 early eq_refl) as [msg ->].
    split; [right; by eexists|]. split; [|done].
    intros _ ok. by specialize (N1 ok). }
  destruct (localParams !! (replicationContextPrefix s +:+ "VolumeGroupName"))
    as [vgName|].
  2:{ eexists _, (hist ++ calls1). split; [done|].
      split; [right; by eexists|]. split; [by intros [? ?]|done]. }
  rewrite run_bind.
  destruct (deleteProtectionPolicy_part client vgName (hist ++ calls1))
    as (r2 & calls2 & -> & _ & I2 & N2).
  destruct r2 as [early|].
  { exists early, ((hist ++ calls1) ++ calls2). split; [done|].
    destruct (I2 early eq_refl) as [msg ->].
    split; [right; by eexists|]. split; [|done].
    intros _ ok. by specialize (N2 ok). }
  rewrite run_bind.
  destruct (deleteReplicationRule_part client vgName ((hist ++ calls1) ++ calls2))
    as (r3 & calls3 & -> & _ & I3 & N3).
  destruct r3 as [early|].
  { exists early, (((hist ++ calls1) ++ calls2) ++ calls3). split; [done|].
    destruct (I3 early eq_refl) as [msg ->].
    split; [right; by eexists|]. split; [|done].
    intros _ ok. by specialize (N3 ok). }
  eexists _, _. split; [done|]. split; [by left|]. by split.
Qed.

End Teardown.

(** ** More instances *)

Section MoreInstances.

(** X1 on a reload that fails: the registry of two arrays keeps its array
    objects, its map and its IP index. *)
Lemma UpdateArrays_keeps_witness :
  (∀ q, (q < length (store Examples.reloaded))%nat →
        store Scenarios.cutOff.1 !! q = store Examples.reloaded !! q)
  ∧ (is_Some Scenarios.cutOff.2 →
     locker Scenarios.cutOff.1 = locker Examples.reloaded
     ∧ IPToArray Scenarios.cutOff.1 = IPToArray Examples.reloaded).
Proof.
  exact (@UpdateArrays_keeps Examples.platform Examples.yaml Examples.reloaded
           "config.yaml" Examples.files Scenarios.cutOff.1 Scenarios.cutOff.2
           eq_refl).
Defined.

Example UpdateArrays_cut_off : is_Some Scenarios.cutOff.2.
Proof. vm_compute. by eexists. Qed.

(** X2 on the configuration of two arrays. *)
Lemma GetPowerStoreArrays_maps_witness :
  (∀ k p, arrayMap Scenarios.loaded.1 !! k = Some p →
     ∃ a, Scenarios.loaded.2 !! p = Some a ∧ GlobalID a = k ∧ k ≠ ""
          ∧ is_Some (ArrayClient a))
  ∧ (∀ ip g, mapper Scenarios.loaded.1 !! ip = Some g →
     is_Some (arrayMap Scenarios.loaded.1 !! g)).
Proof.
  exact (@GetPowerStoreArrays_maps Examples.reachable Examples.yaml Examples.files
           "config.yaml" [] Scenarios.loaded.1 Scenarios.loaded.2
           eq_refl eq_refl).
Defined.


(** X4 on the series of the repository's tests: its first two samples do
    not count. *)
Lemma lastEntries_recent_witness :
  lastEntries Examples.activeIOVolumeMetrics 1700000000000000000
  = lastEntries (drop 2 Examples.activeIOVolumeMetrics) 1700000000000000000.
Proof.
  exact (lastEntries_recent (take 2 Examples.activeIOVolumeMetrics)
           (drop 2 Examples.activeIOVolumeMetrics) 1700000000000000000
           ltac:(simpl; lia)).
Defined.

(** X5 on a request for the array [PS1] that names no volume. *)
Lemma ValidateVolumeHostConnectivity_no_volumes_witness :
  (@ValidateVolumeHostConnectivity Examples.platform
      (Examples.service Examples.idle) Scenarios.noVolumeRequest []).2 = []
  ∧ ∀ rep e,
      (@ValidateVolumeHostConnectivity Examples.platform
         (Examples.service Examples.idle) Scenarios.noVolumeRequest []).1
      = Returned (Some rep, e) →
      IosInProgress rep = false.
Proof.
  exact (@ValidateVolumeHostConnectivity_no_volumes Examples.platform
           (Examples.service Examples.idle) Scenarios.noVolumeRequest [] _ _
           eq_refl eq_refl).
Defined.



(** X7 on a handle with a fourth and a fifth field. *)
Lemma ParseVolumeID_extra_fields_witness :
  @ParseVolumeID Examples.platform ∅
     (handleOf "vol-1" "PS1" "scsi" None +:+ "/" +:+ "snap/2") None None []
  = @ParseVolumeID Examples.platform ∅ (handleOf "vol-1" "PS1" "scsi" None)
      None None [].
Proof.
  exact (@ParseVolumeID_extra_fields Examples.platform ∅ "vol-1" "PS1" "scsi"
           "snap/2" None None [] eq_refl eq_refl eq_refl eq_refl).
Defined.

(** X8 on a bare volume ID that is to be mounted as NFS. *)
Lemma ParseVolumeID_legacy_capability_witness :
  @ParseVolumeID Examples.platform ∅ "9f840c56"
     (Some (Examples.array Examples.failing))
     (Some {| Mount := Some {| FsType := "nfs" |} |}) []
  = (Returned (Build_VolumeHandle "9f840c56" "PS1" "nfs" "" "", None), []).
Proof.
  exact (@ParseVolumeID_legacy_capability Examples.platform ∅ "9f840c56"
           (Examples.array Examples.failing) "nfs" []
           ltac:(discriminate) eq_refl eq_refl).
Defined.

(** X9 on a handle of two fields: it issues no call and returns exactly if
    two is at least three. *)
Lemma ParseVolumeID_fields_witness :
  (@ParseVolumeID Examples.platform ∅ "vol-1/PS1" None None []).2 = []
  ∧ (returned (@ParseVolumeID Examples.platform ∅ "vol-1/PS1" None None []).1
     ↔ (3 ≤ 2)%nat ∧ (1 = 1 ∨ 2 ≤ 1)%nat).
Proof.
  exact (@ParseVolumeID_fields Examples.platform ∅ "vol-1/PS1" None None []
           ltac:(discriminate) ltac:(discriminate)).
Defined.

Lemma noAPIFailure_unreachable : noAPIFailure Scenarios.unreachable.
Proof. by constructor. Qed.

(** X14 on an array that cannot be reached: the deletion reports success. *)
Lemma DeleteStorageProtectionGroup_replies_witness :
  ∃ hist',
    DeleteStorageProtectionGroup (Examples.service Scenarios.unreachable)
                                 Examples.attributes "vg-1" []
    = (Returned (Some (), None), hist').
Proof.
  destruct (DeleteStorageProtectionGroup_replies
              (Examples.service Scenarios.unreachable) Examples.attributes "vg-1"
              "PS1" (Examples.array Scenarios.unreachable) Scenarios.unreachable []
              eq_refl eq_refl eq_refl)
    as (reply & hist' & Hrun & _ & Hok & _).
  exists hist'.
  rewrite <- (Hok (mk_is_Some _ _ eq_refl) noAPIFailure_unreachable).
  exact Hrun.
Defined.

End MoreInstances.

(** ** Deleting a local volume *)

Section LocalVolume.
Context `{Gopowerstore}.

#[local] Arguments String.append : simpl never.

Lemma earlierCalls_app h1 h2 :
  earlierCalls (h1 ++ h2) = earlierCalls h1 ++ earlierCalls h2.
Proof. apply omap_app. Qed.

Lemma earlier_issue {A} c (answer : list Call → A) h :
  earlier (issue c answer) h
  = (Returned (answer (earlierCalls h)), h ++ [Earlier c]).
Proof. unfold earlier, issue. by rewrite drop_app_length. Qed.

Lemma bind_request {A B} r (answer : list Request → A) (k : A → MR B) h :
  (request r answer ≫= k) h = k (answer h) (h ++ [r]).
Proof. reflexivity. Qed.

Lemma bind_earlier_issue {A B} c (answer : list Call → A) (k : A → MR B) h :
  (earlier (issue c answer) ≫= k) h
  = k (answer (earlierCalls h)) (h ++ [Earlier c]).
Proof.
  unfold mbind, MR_bind. by rewrite earlier_issue.
Qed.

Lemma bind_mret {A B} (a : A) (k : A → MR B) h : (mret a ≫= k) h = k a h.
Proof. reflexivity. Qed.

(** The run of [DeleteLocalVolume] on a handle of three fields whose array
    has a client, by the answers of the array. *)
Lemma DeleteLocalVolume_run s req id globalID protocol arr client hist :
  Split (dlv_VolumeHandle req) "/" = [id; globalID; protocol] →
  ArraysAt s globalID = Some arr →
  ArrayClient arr = Some client →
  let lookup := doGetVolume client (earlierCalls hist) id in
  let h1 := hist ++ [Earlier (GetVolumeCall id)] in
  let groups := doGetVolumeGroupsByVolumeID (management client) h1 id in
  let h2 := h1 ++ [GetVolumeGroupsByVolumeIDCall id] in
  let deleted := doDeleteVolume (management client) h2 id in
  DeleteLocalVolume s req hist
  = match lookup.2 with
    | Some e =>
        (Returned (if isNotFoundAPIError e then (Some (), None)
                   else (None, Some (StatusErr Internal
                                       "Error: Unable to get volume for deletion"))),
         h1)
    | None =>
        match groups.2 with
        | Some e =>
            if negb (isNotFoundAPIError e) then (Returned (None, Some e), h2)
            else if negb (length groups.1 =? 0)%nat
                    || negb (String.eqb (vol_ProtectionPolicyID lookup.1) "")
            then (Returned unableToDelete, h2)
            else (Returned (match deleted with
                            | Some e => if negb (isNotFoundAPIError e)
                                        then unableToDelete else (Some (), None)
                            | None => (Some (), None)
                            end), h2 ++ [DeleteVolumeCall id])
        | None =>
            if negb (length groups.1 =? 0)%nat
               || negb (String.eqb (vol_ProtectionPolicyID lookup.1) "")
            then (Returned unableToDelete, h2)
            else (Returned (match deleted with
                            | Some e => if negb (isNotFoundAPIError e)
                                        then unableToDelete else (Some (), None)
                            | None => (Some (), None)
                            end), h2 ++ [DeleteVolumeCall id])
        end
    end.
Proof.
  intros Hsplit Harr Hclient. cbv zeta.
  unfold DeleteLocalVolume. rewrite Hsplit, Harr.
  unfold withManagedClient. rewrite Hclient.
  unfold GetVolume. rewrite bind_earlier_issue.
  destruct (doGetVolume client (earlierCalls hist) id) as [vol [e|]]; cbn [fst snd].
  { by destruct (isNotFoundAPIError e). }
  unfold GetVolumeGroupsByVolumeID. rewrite bind_request.
  destruct (doGetVolumeGroupsByVolumeID _ _ id) as [vgs [e|]]; cbn [fst snd].
  - destruct (isNotFoundAPIError e); cbn [negb]; rewrite bind_mret; [|done].
    destruct (length vgs =? 0)%nat; cbn [negb orb]; [|done].
    destruct (String.eqb (vol_ProtectionPolicyID vol) ""); cbn [negb]; [|done].
    unfold DeleteVolume. rewrite bind_request.
    destruct (doDeleteVolume _ _ id) as [e'|]; [|done].
    by destruct (isNotFoundAPIError e').
  - rewrite bind_mret.
    destruct (length vgs =? 0)%nat; cbn [negb orb]; [|done].
    destruct (String.eqb (vol_ProtectionPolicyID vol) ""); cbn [negb]; [|done].
    unfold DeleteVolume. rewrite bind_request.
    destruct (doDeleteVolume _ _ id) as [e'|]; [|done].
    by destruct (isNotFoundAPIError e').
Qed.

(** Without three fields, a known array and a client, no call is issued. *)
Lemma DeleteLocalVolume_refused s req hist :
  (∀ id globalID protocol arr client,
     Split (dlv_VolumeHandle req) "/" = [id; globalID; protocol] →
     ArraysAt s globalID = Some arr → ArrayClient arr = Some client → False) →
  ∃ out, DeleteLocalVolume s req hist = (out, hist)
         ∧ ∀ reply, out = Returned reply →
             ∃ msg, reply = (None, Some (StatusErr InvalidArgument msg)).
Proof.
  intros Hnone. unfold DeleteLocalVolume.
  destruct (Split (dlv_VolumeHandle req) "/") as [|id [|globalID [|protocol [|]]]];
    try (eexists; split; [reflexivity|]; intros ? [= <-]; by eexists).
  destruct (ArraysAt s globalID) as [arr|] eqn:Harr;
    [|eexists; split; [reflexivity|]; intros ? [= <-]; by eexists].
  unfold withManagedClient.
  destruct (ArrayClient arr) as [client|] eqn:Hclient.
  - destruct (Hnone id globalID protocol arr client); done.
  - eexists; split; [reflexivity|]. discriminate.
Qed.

(** X15.  [DeleteLocalVolume] deletes with care: a [DeleteVolume] is issued
    only as the third call, for the volume of the handle on the array of the
    handle, after that array returned the volume without error and under no
    protection policy, and listed no volume group for it. *)
Theorem DeleteLocalVolume_guarded s req hist :
  ∃ out calls,
    DeleteLocalVolume s req hist = (out, hist ++ calls)
    ∧ ∀ id, DeleteVolumeCall id ∈ calls →
        ∃ globalID protocol arr client vol,
          Split (dlv_VolumeHandle req) "/" = [id; globalID; protocol]
          ∧ ArraysAt s globalID = Some arr
          ∧ ArrayClient arr = Some client
          ∧ calls = [Earlier (GetVolumeCall id); GetVolumeGroupsByVolumeIDCall id;
                     DeleteVolumeCall id]
          ∧ doGetVolume client (earlierCalls hist) id = (vol, None)
          ∧ vol_ProtectionPolicyID vol = ""
          ∧ (doGetVolumeGroupsByVolumeID (management client)
               (hist ++ [Earlier (GetVolumeCall id)]) id).1 = [].
Proof.
  destruct (Split (dlv_VolumeHandle req) "/")
    as [|id [|globalID [|protocol [|]]]] eqn:Hsplit;
    try (destruct (DeleteLocalVolume_refused s req hist) as (out & -> & _);
         [intros ????? Heq; rewrite Hsplit in Heq; discriminate|];
         exists out, []; rewrite (right_id_L [] (++));
         split; [done|]; by intros ? ?%elem_of_nil).
  destruct (ArraysAt s globalID) as [arr|] eqn:Harr.
  2:{ destruct (DeleteLocalVolume_refused s req hist) as (out & -> & _).
      { intros ????? Heq. rewrite Hsplit in Heq. injection Heq as <- <- <-.
        congruence. }
      exists out, []. rewrite (right_id_L [] (++)).
      split; [done|]. by intros ? ?%elem_of_nil. }
  destruct (ArrayClient arr) as [client|] eqn:Hclient.
  2:{ destruct (DeleteLocalVolume_refused s req hist) as (out & -> & _).
      { intros ????? Heq. rewrite Hsplit in Heq. injection Heq as <- <- <-.
        congruence. }
      exists out, []. rewrite (right_id_L [] (++)).
      split; [done|]. by intros ? ?%elem_of_nil. }
  rewrite (DeleteLocalVolume_run s req id globalID protocol arr client hist
             Hsplit Harr Hclient).
  destruct (doGetVolume client (earlierCalls hist) id) as [vol e1] eqn:Hvol.
  cbn [fst snd].
  destruct e1 as [e1|].
  { eexists _, [_]. split; [done|].
    intros ? [?|?%elem_of_nil]%elem_of_cons; done. }
  set (groups := doGetVolumeGroupsByVolumeID _ _ id).
  assert (∀ (reply : option unit * option error),
            ∃ out calls,
              (if negb (length groups.1 =? 0)%nat
                  || negb (String.eqb (vol_ProtectionPolicyID vol) "")
               then (Returned unableToDelete,
                     (hist ++ [Earlier (GetVolumeCall id)])
                       ++ [GetVolumeGroupsByVolumeIDCall id])
               else (Returned reply,
                     ((hist ++ [Earlier (GetVolumeCall id)])
                        ++ [GetVolumeGroupsByVolumeIDCall id])
                       ++ [DeleteVolumeCall id]))
              = (out, hist ++ calls)
              ∧ ∀ id', DeleteVolumeCall id' ∈ calls →
                  ∃ globalID' protocol' arr' client' vol',
                    [id; globalID; protocol] = [id'; globalID'; protocol']
                    ∧ ArraysAt s globalID' = Some arr'
                    ∧ ArrayClient arr' = Some client'
                    ∧ calls = [Earlier (GetVolumeCall id');
                               GetVolumeGroupsByVolumeIDCall id';
                               DeleteVolumeCall id']
                    ∧ doGetVolume client' (earlierCalls hist) id' = (vol', None)
                    ∧ vol_ProtectionPolicyID vol' = ""
                    ∧ (doGetVolumeGroupsByVolumeID (management client')
                         (hist ++ [Earlier (GetVolumeCall id')]) id').1 = [])
    as Hgo.
  { intros reply.
    destruct (length groups.1 =? 0)%nat eqn:Hgroups; cbn [negb orb].
    2:{ eexists _, [_; _]. rewrite <- !(assoc_L (++)). split; [done|].
        intros ? [?|[?|?%elem_of_nil]%elem_of_cons]%elem_of_cons; done. }
    destruct (String.eqb_spec (vol_ProtectionPolicyID vol) "") as [Hpp|?];
      cbn [negb].
    2:{ eexists _, [_; _]. rewrite <- !(assoc_L (++)). split; [done|].
        intros ? [?|[?|?%elem_of_nil]%elem_of_cons]%elem_of_cons; done. }
    eexists _, [_; _; _]. rewrite <- !(assoc_L (++)). split; [done|].
    intros id' Hin.
    assert (id' = id) as ->.
    { repeat (apply elem_of_cons in Hin as [Hin|Hin]; [congruence|]).
      by apply elem_of_nil in Hin. }
    exists globalID, protocol, arr, client, vol.
    repeat split; try done.
    apply Nat.eqb_eq in Hgroups. by apply nil_length_inv. }
  destruct groups.2 as [e2|].
  - destruct (isNotFoundAPIError e2); cbn [negb]; [apply Hgo|].
    eexists _, [_; _]. rewrite <- !(assoc_L (++)). split; [done|].
    intros ? [?|[?|?%elem_of_nil]%elem_of_cons]%elem_of_cons; done.
  - apply Hgo.
Qed.

(** X16.  What the success of [DeleteLocalVolume] means: the array of the
    handle answered that the volume does not exist, and nothing else was
    asked of it, or a [DeleteVolume] of the volume was issued and the array
    answered it without error or with "not found". *)
Theorem DeleteLocalVolume_success s req hist hist' :
  DeleteLocalVolume s req hist = (Returned (Some (), None), hist') →
  ∃ id globalID protocol arr client,
    Split (dlv_VolumeHandle req) "/" = [id; globalID; protocol]
    ∧ ArraysAt s globalID = Some arr
    ∧ ArrayClient arr = Some client
    ∧ ((∃ e, (doGetVolume client (earlierCalls hist) id).2 = Some e
             ∧ isNotFoundAPIError e = true
             ∧ hist' = hist ++ [Earlier (GetVolumeCall id)])
       ∨ (hist' = hist ++ [Earlier (GetVolumeCall id);
                           GetVolumeGroupsByVolumeIDCall id; DeleteVolumeCall id]
          ∧ match doDeleteVolume (management client)
                    (hist ++ [Earlier (GetVolumeCall id);
                              GetVolumeGroupsByVolumeIDCall id]) id with
            | Some e => isNotFoundAPIError e = true
            | None => True
            end)).
Proof.
  intros Hrun.
  destruct (Split (dlv_VolumeHandle req) "/")
    as [|id [|globalID [|protocol [|]]]] eqn:Hsplit;
    try (destruct (DeleteLocalVolume_refused s req hist) as (out & Hout & Hinv);
         [intros ????? Heq; rewrite Hsplit in Heq; discriminate|];
         rewrite Hout in Hrun; injection Hrun as -> _;
         by destruct (Hinv _ eq_refl)).
  destruct (ArraysAt s globalID) as [arr|] eqn:Harr.
  2:{ destruct (DeleteLocalVolume_refused s req hist) as (out & Hout & Hinv).
      { intros ????? Heq. rewrite Hsplit in Heq. injection Heq as <- <- <-.
        congruence. }
      rewrite Hout in Hrun. injection Hrun as -> _. by destruct (Hinv _ eq_refl). }
  destruct (ArrayClient arr) as [client|] eqn:Hclient.
  2:{ destruct (DeleteLocalVolume_refused s req hist) as (out & Hout & Hinv).
      { intros ????? Heq. rewrite Hsplit in Heq. injection Heq as <- <- <-.
        congruence. }
      rewrite Hout in Hrun. injection Hrun as -> _. by destruct (Hinv _ eq_refl). }
  exists id, globalID, protocol, arr, client. repeat split; try done.
  rewrite (DeleteLocalVolume_run s req id globalID protocol arr client hist
             Hsplit Harr Hclient) in Hrun.
  destruct (doGetVolume client (earlierCalls hist) id) as [vol [e1|]];
    cbn [fst snd] in *.
  { left. exists e1. destruct (isNotFoundAPIError e1); by simplify_eq. }
  right. rewrite <- !(assoc_L (++)) in Hrun. simpl app in Hrun.
  set (deleted := doDeleteVolume _ _ id) in *.
  assert (∀ b : bool,
            (if b then (Returned unableToDelete,
                        hist ++ [Earlier (GetVolumeCall id);
                                 GetVolumeGroupsByVolumeIDCall id])
             else (Returned match deleted with
                            | Some e => if negb (isNotFoundAPIError e)
                                        then unableToDelete else (Some (), None)
                            | None => (Some (), None)
                            end,
                   hist ++ [Earlier (GetVolumeCall id);
                            GetVolumeGroupsByVolumeIDCall id; DeleteVolumeCall id]))
            = (Returned (Some (), None), hist') →
            hist' = hist ++ [Earlier (GetVolumeCall id);
                             GetVolumeGroupsByVolumeIDCall id; DeleteVolumeCall id]
            ∧ match deleted with
              | Some e => isNotFoundAPIError e = true
              | None => True
              end) as Hgo.
  { intros [|]; [discriminate|]. intros [= Hreply <-]. split; [done|].
    destruct deleted as [e|]; [|done].
    destruct (isNotFoundAPIError e); [done|discriminate]. }
  destruct (doGetVolumeGroupsByVolumeID _ _ id).2 as [e2|].
  - destruct (isNotFoundAPIError e2); cbn [negb] in Hrun; [|discriminate].
    by apply Hgo in Hrun.
  - by apply Hgo in Hrun.
Qed.

End LocalVolume.

(** ** Ensuring a protection policy *)

Section Ensure.
Context `{Gopowerstore}.

#[local] Arguments String.append : simpl never.

(** A request among requests that are listed: it is one of them. *)
Ltac among Hin :=
  repeat (apply elem_of_cons in Hin as [Hin|Hin];
          [first [discriminate Hin | injection Hin as -> | idtac]|]);
  try (by apply elem_of_nil in Hin).

Lemma earlierCalls_snoc_earlier h c :
  earlierCalls (h ++ [Earlier c]) = earlierCalls h ++ [c].
Proof. by rewrite earlierCalls_app. Qed.

Lemma earlierCalls_snoc h r :
  (∀ c, r ≠ Earlier c) → earlierCalls (h ++ [r]) = earlierCalls h.
Proof.
  intros Hr. rewrite earlierCalls_app.
  destruct r; simpl; [by destruct (Hr c)|by rewrite (right_id_L [] (++))..].
Qed.

(** The run of [EnsureReplicationRuleExists], by the answers of the array. *)
Lemma EnsureReplicationRuleExists_run arr client vgName remoteSystemID rpoEnum hist :
  ArrayClient arr = Some client →
  let rrName := "rr-" +:+ vgName in
  let found := doGetReplicationRuleByName client (earlierCalls hist) rrName in
  let h1 := hist ++ [Earlier (GetReplicationRuleByNameCall rrName)] in
  let rule := {| rrc_Name := rrName; rrc_Rpo := rpoEnum;
                 rrc_RemoteSystemID := remoteSystemID |} in
  let created := doCreateReplicationRule (management client) h1 rule in
  EnsureReplicationRuleExists arr vgName remoteSystemID rpoEnum hist
  = match found.2 with
    | None => (Returned (rr_ID found.1, None), h1)
    | Some _ =>
        (Returned match created.2 with
                  | Some e =>
                      ("", Some (StatusErr Internal
                                   ("can't create replication rule: " +:+ Error e)))
                  | None => (cr_ID created.1, None)
                  end,
         h1 ++ [CreateReplicationRuleCall rule])
    end.
Proof.
  intros Hclient. cbv zeta. unfold EnsureReplicationRuleExists, withManagedClient.
  rewrite Hclient. unfold GetReplicationRuleByName. rewrite bind_earlier_issue.
  destruct (doGetReplicationRuleByName client _ _) as [rr [e|]]; cbn [fst snd];
    [|done].
  unfold CreateReplicationRule. rewrite bind_request.
  by destruct (doCreateReplicationRule _ _ _) as [created [e'|]].
Qed.

(** X17.  [EnsureProtectionPolicyExists] creates only what is missing.  When
    the array knows the remote system and returns the policy of the group,
    the result is that policy's ID and the two lookups are the only calls.  A
    policy is created only after the lookup of the policy failed, a rule only
    after the lookups of the policy and of the rule both failed.  An error is
    of status Internal and comes with the empty ID. *)
Theorem EnsureProtectionPolicyExists_creates
    arr client vgName remoteSystemName rpoEnum hist :
  ArrayClient arr = Some client →
  let ppName := "pp-" +:+ vgName in
  let rrName := "rr-" +:+ vgName in
  let policy := doGetProtectionPolicyByName client (earlierCalls hist) ppName in
  let rule :=
    doGetReplicationRuleByName client
      (earlierCalls hist ++ [GetProtectionPolicyByNameCall ppName]) rrName in
  ∃ id e calls,
    EnsureProtectionPolicyExists arr vgName remoteSystemName rpoEnum hist
      = (Returned (id, e), hist ++ calls)
    ∧ ((doGetRemoteSystemByName (management client) hist remoteSystemName).2 = None →
       policy.2 = None →
       id = pp_ID policy.1 ∧ e = None
       ∧ calls = [GetRemoteSystemByNameCall remoteSystemName;
                  Earlier (GetProtectionPolicyByNameCall ppName)])
    ∧ (∀ create, CreateProtectionPolicyCall create ∈ calls → policy.2 ≠ None)
    ∧ (∀ create, CreateReplicationRuleCall create ∈ calls →
         policy.2 ≠ None ∧ rule.2 ≠ None)
    ∧ (e ≠ None → id = "" ∧ ∃ msg, e = Some (StatusErr Internal msg)).
Proof.
  intros Hclient. cbv zeta.
  unfold EnsureProtectionPolicyExists, withManagedClient. rewrite Hclient.
  unfold GetRemoteSystemByName. rewrite bind_request.
  destruct (doGetRemoteSystemByName _ hist remoteSystemName) as [rs [e0|]];
    cbn [fst snd].
  { eexists _, _, [_]. split; [reflexivity|]. split; [done|].
    split; [intros ? Hin; among Hin|]. split; [intros ? Hin; among Hin|].
    intros _. split; [done|]. by eexists. }
  unfold GetProtectionPolicyByName. rewrite bind_earlier_issue.
  rewrite earlierCalls_snoc by done.
  destruct (doGetProtectionPolicyByName client _ _) as [pp [e1|]]; cbn [fst snd].
  2:{ eexists _, _, [_; _]. rewrite <- !(assoc_L (++)).
      split; [reflexivity|]. split; [done|].
      split; [intros ? Hin; among Hin|]. split; [intros ? Hin; among Hin|].
      done. }
  unfold mbind at 1, MR_bind at 1.
  rewrite (EnsureReplicationRuleExists_run arr client _ _ _ _ Hclient).
  rewrite earlierCalls_snoc_earlier, earlierCalls_snoc by done.
  destruct (doGetReplicationRuleByName client _ _) as [rr [e2|]]; cbn [fst snd].
  - destruct (doCreateReplicationRule _ _ _) as [created [e3|]]; cbn [fst snd].
    + eexists _, _, [_; _; _; _]. rewrite <- !(assoc_L (++)).
      split; [reflexivity|]. split; [done|].
      split; [intros ? Hin; among Hin|]. split; [done|].
      intros _. split; [done|]. by eexists.
    + unfold CreateProtectionPolicy. rewrite bind_request.
      destruct (doCreateProtectionPolicy _ _ _) as [newPp [e4|]];
        eexists _, _, [_; _; _; _; _]; rewrite <- !(assoc_L (++));
        (split; [reflexivity|]); (split; [done|]); (split; [done|]);
        (split; [done|]); [|done].
      intros _. split; [done|]. by eexists.
  - unfold CreateProtectionPolicy. rewrite bind_request.
    destruct (doCreateProtectionPolicy _ _ _) as [newPp [e4|]];
      eexists _, _, [_; _; _; _]; rewrite <- !(assoc_L (++));
      (split; [reflexivity|]); (split; [done|]); (split; [done|]);
      (split; [intros ? Hin; among Hin|]); [|done].
    intros _. split; [done|]. by eexists.
Qed.

(** X18.  The policy that [EnsureProtectionPolicyExists] creates is the
    policy of the group: its name is [pp-] and the name of the group, and it
    refers to one replication rule, the rule of the group.  That rule is the
    one the array returned for the name [rr-] and the name of the group, and
    then no rule is created, or it is the rule that was created just before
    under that name, with the RPO of the request and to the remote system
    that the array returned for the name of the request. *)
Theorem EnsureProtectionPolicyExists_links
    arr client vgName remoteSystemName rpoEnum hist :
  ArrayClient arr = Some client →
  let ppName := "pp-" +:+ vgName in
  let rrName := "rr-" +:+ vgName in
  let remote := doGetRemoteSystemByName (management client) hist remoteSystemName in
  let found :=
    doGetReplicationRuleByName client
      (earlierCalls hist ++ [GetProtectionPolicyByNameCall ppName]) rrName in
  let lookups :=
    hist ++ [GetRemoteSystemByNameCall remoteSystemName;
             Earlier (GetProtectionPolicyByNameCall ppName);
             Earlier (GetReplicationRuleByNameCall rrName)] in
  let rule := {| rrc_Name := rrName; rrc_Rpo := rpoEnum;
                 rrc_RemoteSystemID := sys_ID remote.1 |} in
  let created := doCreateReplicationRule (management client) lookups rule in
  ∃ out calls,
    EnsureProtectionPolicyExists arr vgName remoteSystemName rpoEnum hist
      = (out, hist ++ calls)
    ∧ (∀ create, CreateReplicationRuleCall create ∈ calls → create = rule)
    ∧ ∀ policy, CreateProtectionPolicyCall policy ∈ calls →
        ppc_Name policy = ppName
        ∧ remote.2 = None
        ∧ ∃ rrID,
            ppc_ReplicationRuleIDs policy = [rrID]
            ∧ ((found.2 = None ∧ rrID = rr_ID found.1
                ∧ ∀ create, CreateReplicationRuleCall create ∉ calls)
               ∨ (found.2 ≠ None ∧ created.2 = None ∧ rrID = cr_ID created.1
                  ∧ CreateReplicationRuleCall rule ∈ calls)).
Proof.
  intros Hclient. cbv zeta.
  unfold EnsureProtectionPolicyExists, withManagedClient. rewrite Hclient.
  unfold GetRemoteSystemByName. rewrite bind_request.
  destruct (doGetRemoteSystemByName _ hist remoteSystemName) as [rs [e0|]];
    cbn [fst snd].
  { eexists _, [_]. split; [reflexivity|].
    split; intros ? Hin; among Hin. }
  unfold GetProtectionPolicyByName. rewrite bind_earlier_issue.
  rewrite earlierCalls_snoc by done.
  destruct (doGetProtectionPolicyByName client _ _) as [pp [e1|]]; cbn [fst snd].
  2:{ eexists _, [_; _]. rewrite <- !(assoc_L (++)). split; [reflexivity|].
      split; intros ? Hin; among Hin. }
  unfold mbind at 1, MR_bind at 1.
  rewrite (EnsureReplicationRuleExists_run arr client _ _ _ _ Hclient).
  rewrite earlierCalls_snoc_earlier, earlierCalls_snoc by done.
  rewrite <- ?(assoc_L (++)). cbn [app].
  destruct (doGetReplicationRuleByName client _ _) as [rr [e2|]]; cbn [fst snd].
  - rewrite <- ?(assoc_L (++)). cbn [app].
    destruct (doCreateReplicationRule _ _ _) as [newRr [e3|]]; cbn [fst snd].
    + eexists _, [_; _; _; _]. split; [reflexivity|].
      split; intros ? Hin; among Hin. done.
    + unfold CreateProtectionPolicy. rewrite bind_request.
      destruct (doCreateProtectionPolicy _ _ _) as [newPp [e4|]];
        eexists _, [_; _; _; _; _]; rewrite <- ?(assoc_L (++)); cbn [app];
        (split; [reflexivity|]);
        (split; [intros ? Hin; among Hin; done|]);
        intros policy Hin; among Hin; cbn;
        (split; [done|]); (split; [done|]); eexists; (split; [done|]);
        right; (repeat split; [done|]); do 3 right; by left.
  - unfold CreateProtectionPolicy. rewrite bind_request.
    destruct (doCreateProtectionPolicy _ _ _) as [newPp [e4|]];
      eexists _, [_; _; _; _]; rewrite <- ?(assoc_L (++)); cbn [app];
      (split; [reflexivity|]);
      (split; [intros ? Hin; among Hin|]);
      intros policy Hin; among Hin; cbn;
      (split; [done|]); (split; [done|]); eexists; (split; [done|]);
      left; repeat split; intros create Hin; among Hin.
Qed.

End Ensure.

Section ManagedInstances.

(** X16 on a volume that the array holds, in no group and under no policy:
    it is deleted. *)
Lemma DeleteLocalVolume_success_witness :
  ∃ id globalID protocol arr client,
    Split (dlv_VolumeHandle ManagedScenarios.deleteRequest) "/"
      = [id; globalID; protocol]
    ∧ ArraysAt (Examples.service Examples.idle) globalID = Some arr
    ∧ ArrayClient arr = Some client
    ∧ ((∃ e, (doGetVolume client (earlierCalls []) id).2 = Some e
             ∧ isNotFoundAPIError e = true
             ∧ [Earlier (GetVolumeCall "vol-1");
                GetVolumeGroupsByVolumeIDCall "vol-1"; DeleteVolumeCall "vol-1"]
               = [] ++ [Earlier (GetVolumeCall id)])
       ∨ ([Earlier (GetVolumeCall "vol-1");
           GetVolumeGroupsByVolumeIDCall "vol-1"; DeleteVolumeCall "vol-1"]
          = [] ++ [Earlier (GetVolumeCall id);
                   GetVolumeGroupsByVolumeIDCall id; DeleteVolumeCall id]
          ∧ match doDeleteVolume (@management ManagedScenarios.manager client)
                    ([] ++ [Earlier (GetVolumeCall id);
                            GetVolumeGroupsByVolumeIDCall id]) id with
            | Some e => isNotFoundAPIError e = true
            | None => True
            end)).
Proof.
  exact (@DeleteLocalVolume_success ManagedScenarios.manager
           (Examples.service Examples.idle) ManagedScenarios.deleteRequest [] _
           eq_refl).
Defined.

(** X17 on an array that has neither the policy nor the rule of the group
    [vg]: the policy is created, after its lookup failed. *)
Lemma EnsureProtectionPolicyExists_creates_witness :
  ∃ id e calls,
    @EnsureProtectionPolicyExists ManagedScenarios.manager
        (Examples.array Examples.absent) "vg" "PS2" "Five_Minutes" []
      = (Returned (id, e), [] ++ calls)
    ∧ ∀ create, CreateProtectionPolicyCall create ∈ calls →
        (doGetProtectionPolicyByName Examples.absent (earlierCalls [])
           ("pp-" +:+ "vg")).2 ≠ None.
Proof.
  destruct (@EnsureProtectionPolicyExists_creates ManagedScenarios.manager
              (Examples.array Examples.absent) Examples.absent
              "vg" "PS2" "Five_Minutes" [] eq_refl)
    as (id & e & calls & Hrun & _ & Hpolicy & _).
  exists id, e, calls. split; [exact Hrun|exact Hpolicy].
Defined.

Example EnsureProtectionPolicyExists_absent :
  @EnsureProtectionPolicyExists ManagedScenarios.manager
      (Examples.array Examples.absent) "vg" "PS2" "Five_Minutes" []
  = (Returned ("policy-1", None),
     [GetRemoteSystemByNameCall "PS2";
      Earlier (GetProtectionPolicyByNameCall "pp-vg");
      Earlier (GetReplicationRuleByNameCall "rr-vg");
      CreateReplicationRuleCall {| rrc_Name := "rr-vg"; rrc_Rpo := "Five_Minutes";
                                   rrc_RemoteSystemID := "remote-1" |};
      CreateProtectionPolicyCall {| ppc_Name := "pp-vg";
                                    ppc_ReplicationRuleIDs := ["rule-1"] |}]).
Proof. reflexivity. Qed.

(** X18 on the same array: the policy created is [pp-vg]. *)
Lemma EnsureProtectionPolicyExists_links_witness :
  ∃ out calls,
    @EnsureProtectionPolicyExists ManagedScenarios.manager
        (Examples.array Examples.absent) "vg" "PS2" "Five_Minutes" []
      = (out, [] ++ calls)
    ∧ ∀ policy, CreateProtectionPolicyCall policy ∈ calls →
        ppc_Name policy = "pp-" +:+ "vg".
Proof.
  destruct (@EnsureProtectionPolicyExists_links ManagedScenarios.manager
              (Examples.array Examples.absent) Examples.absent
              "vg" "PS2" "Five_Minutes" [] eq_refl)
    as (out & calls & Hrun & _ & Hpolicy).
  exists out, calls. split; [exact Hrun|].
  intros policy Hin. exact (proj1 (Hpolicy policy Hin)).
Defined.

End ManagedInstances.

(** ** Protection groups and replicas *)

Section ReplicasFacts.
Context `{Platform} `{Gopowerstore} `{HostBasedNFS}.

#[local] Arguments String.append : simpl never.
#[local] Arguments ParseVolumeID : simpl never.
#[local] Arguments mapOf : simpl never.

Lemma append_inj p a b : p +:+ a = p +:+ b → a = b.
Proof. induction p as [|c p IH]; [done|]. intros [= ?]. auto. Qed.

Lemma CreateStorageProtectionGroup_ok s req hist resp hist' :
  CreateStorageProtectionGroup s req hist = (Returned (Some resp, None), hist') →
  ∃ volumeHandle arr client vg details localSystem remoteSystem,
    ArraysAt s (arrayID volumeHandle) = Some arr
    ∧ ArrayClient arr = Some client
    ∧ protocol volumeHandle ≠ "nfs"
    ∧ resp = {|
        LocalProtectionGroupId := rs_LocalResourceID details;
        RemoteProtectionGroupId := rs_RemoteResourceID details;
        LocalProtectionGroupAttributes :=
          let p := replicationContextPrefix s in
          mapOf [(p +:+ "systemName", cl_Name localSystem);
                 (p +:+ "managementAddress", cl_ManagementAddress localSystem);
                 (p +:+ "remoteSystemName", sys_Name remoteSystem);
                 (p +:+ "remoteManagementAddress",
                  sys_ManagementAddress remoteSystem);
                 (p +:+ "globalID", arrayID volumeHandle);
                 (p +:+ "remoteGlobalID", sys_SerialNumber remoteSystem);
                 (p +:+ "VolumeGroupName", vgv_Name vg)];
        RemoteProtectionGroupAttributes :=
          let p := replicationContextPrefix s in
          mapOf [(p +:+ "systemName", sys_Name remoteSystem);
                 (p +:+ "managementAddress", sys_ManagementAddress remoteSystem);
                 (p +:+ "remoteSystemName", cl_Name localSystem);
                 (p +:+ "remoteManagementAddress",
                  cl_ManagementAddress localSystem);
                 (p +:+ "globalID", sys_SerialNumber remoteSystem);
                 (p +:+ "VolumeGroupName", vgv_Name vg)] |}.
Proof.
  unfold CreateStorageProtectionGroup.
  destruct (String.eqb (spg_VolumeHandle req) ""); [discriminate|].
  unfold mbind at 1, MR_bind at 1, earlier at 1.
  destruct (ParseVolumeID _ _ _ _ _) as [[[volumeHandle [e|]]|msg] calls];
    [discriminate| |discriminate].
  destruct (ArraysAt s (arrayID volumeHandle)) as [arr|] eqn:Harr; [|discriminate].
  destruct (String.eqb_spec (protocol volumeHandle) "nfs") as [|Hnfs];
    [discriminate|].
  unfold withManagedClient.
  destruct (ArrayClient arr) as [client|] eqn:Hclient; [|discriminate].
  unfold GetVolumeGroupsByVolumeID. rewrite bind_request.
  destruct (doGetVolumeGroupsByVolumeID _ _ _) as [[|vg vgs] [e|]];
    try discriminate.
  unfold mbind at 1, MR_bind at 1, GetReplicationSession at 1.
  destruct (doGetReplicationSessionByLocalResourceID _ _ _) as [rs [e|]];
    [discriminate|].
  set (details := doSessionDetails _ _ _).
  unfold GetCluster. rewrite bind_request.
  destruct (doGetCluster _ _) as [localSystem [e|]]; [discriminate|].
  unfold GetRemoteSystem. rewrite bind_request.
  destruct (doGetRemoteSystem _ _ _) as [remoteSystem [e|]]; [discriminate|].
  intros [= <- _].
  by exists volumeHandle, arr, client, vg, details, localSystem, remoteSystem.
Qed.

(** The lookup of a key among the entries of a map literal whose keys have
    the same prefix. *)
Ltac entry :=
  unfold mapOf; cbn [foldl fst snd];
  repeat first
    [ rewrite lookup_insert_eq
    | rewrite lookup_insert_ne by (intros ?%append_inj; discriminate)
    | rewrite lookup_empty ];
  try reflexivity.

(** X19.  The local attributes that [CreateStorageProtectionGroup] returns
    are attributes that the other calls on protection groups accept: they
    name, under the key [globalID], the array of the volume, which is an
    array of the registry with a client, and they hold the name of the
    volume group.  So neither [DeleteStorageProtectionGroup] nor
    [ExecuteAction] nor [GetStorageProtectionGroupStatus] refuses them for
    a missing array, and the deletion finds the name it needs. *)
Theorem CreateStorageProtectionGroup_attributes s req hist resp hist' :
  CreateStorageProtectionGroup s req hist = (Returned (Some resp, None), hist') →
  ∃ globalID arr,
    LocalProtectionGroupAttributes resp
      !! (replicationContextPrefix s +:+ "globalID") = Some globalID
    ∧ ArraysAt s globalID = Some arr
    ∧ is_Some (ArrayClient arr)
    ∧ is_Some (LocalProtectionGroupAttributes resp
                 !! (replicationContextPrefix s +:+ "VolumeGroupName")).
Proof.
  intros (volumeHandle & arr & client & vg & details & localSystem
          & remoteSystem & Harr & Hclient & _ & ->)%CreateStorageProtectionGroup_ok.
  exists (arrayID volumeHandle), arr. cbn.
  split; [entry|]. split; [done|]. split; [by eexists|].
  eexists. entry.
Qed.

(** X20.  The remote attributes that [CreateStorageProtectionGroup] returns
    are the local ones seen from the other side: the system, its management
    address and its array ID change places with the remote system's, and the
    name of the volume group is the same.  One entry has no counterpart: the
    remote attributes do not tell the array ID of the local system. *)
Theorem CreateStorageProtectionGroup_mirror s req hist resp hist' :
  CreateStorageProtectionGroup s req hist = (Returned (Some resp, None), hist') →
  let p := replicationContextPrefix s in
  let ours := LocalProtectionGroupAttributes resp in
  let theirs := RemoteProtectionGroupAttributes resp in
  is_Some (ours !! (p +:+ "systemName"))
  ∧ theirs !! (p +:+ "remoteSystemName") = ours !! (p +:+ "systemName")
  ∧ theirs !! (p +:+ "remoteManagementAddress") = ours !! (p +:+ "managementAddress")
  ∧ theirs !! (p +:+ "systemName") = ours !! (p +:+ "remoteSystemName")
  ∧ theirs !! (p +:+ "managementAddress") = ours !! (p +:+ "remoteManagementAddress")
  ∧ theirs !! (p +:+ "globalID") = ours !! (p +:+ "remoteGlobalID")
  ∧ theirs !! (p +:+ "VolumeGroupName") = ours !! (p +:+ "VolumeGroupName")
  ∧ is_Some (ours !! (p +:+ "globalID"))
  ∧ theirs !! (p +:+ "remoteGlobalID") = None.
Proof.
  intros (volumeHandle & arr & client & vg & details & localSystem
          & remoteSystem & Harr & Hclient & _ & ->)%CreateStorageProtectionGroup_ok.
  cbn. repeat split; try (eexists; entry); entry.
Qed.

End ReplicasFacts.

(** ** Reading and not writing *)

Section ReadOnly.
Context `{Platform} `{Gopowerstore} `{HostBasedNFS}.

#[local] Arguments String.append : simpl never.
#[local] Arguments classifyLegacy : simpl never.
#[local] Arguments mapOf : simpl never.

Ltac nothing :=
  eexists _, []; rewrite (right_id_L [] (++)); split; [reflexivity|constructor].

Lemma classifyLegacy_calls id d vc hist :
  ∃ out calls,
    classifyLegacy id d vc hist = (out, hist ++ calls) ∧ Forall isLookup calls.
Proof.
  unfold classifyLegacy. destruct d as [arr|]; [|nothing].
  destruct (vc ≫= Mount) as [mnt|].
  { destruct (String.eqb (FsType mnt) "nfs"); nothing. }
  destruct (ArrayClient arr) as [client|]; [|nothing].
  unfold GetVolume, GetFS. run.
  destruct (doGetVolume client hist id) as [vol [e|]]; cbn.
  - destruct (doGetFS client _ id) as [fs [e'|]]; cbn;
      [destruct (isNotFoundAPIError e')|];
      eexists _, [_; _]; rewrite <- (assoc_L (++));
      (split; [reflexivity|]); by repeat constructor.
  - eexists _, [_]. split; [reflexivity|]. by repeat constructor.
Qed.

Lemma ParseVolumeID_calls IPToArray v d vc hist :
  ∃ out calls,
    ParseVolumeID IPToArray v d vc hist = (out, hist ++ calls)
    ∧ Forall isLookup calls.
Proof.
  unfold ParseVolumeID. destruct (String.eqb v ""); [nothing|].
  pose proof (Split_nonempty v ":") as Hparts.
  destruct (Split v ":") as [|first rest]; [done|]. run.
  pose proof (Split_nonempty first "/").
  destruct (Split first "/") as [|l [|a [|p fields]]]; try done; cbn.
  - destruct (classifyLegacy_calls l d vc hist) as (out & calls & -> & Hcalls).
    destruct out as [[early|[arrayID protocol]]|]; try by eexists _, calls.
    destruct rest as [|second rest]; cbn; [by eexists _, calls|].
    destruct (Split second "/") as [|r [|ra more]]; cbn; by eexists _, calls.
  - nothing.
  - destruct rest as [|second rest]; cbn; [nothing|].
    destruct (Split second "/") as [|r [|ra more]]; cbn; nothing.
Qed.

Lemma earlier_reads {A} (m : M A) h :
  (∃ out calls, m (earlierCalls h) = (out, earlierCalls h ++ calls)
                ∧ Forall isLookup calls) →
  ∃ out requests,
    earlier m h = (out, h ++ requests) ∧ Forall (λ r, readsOnly r = true) requests.
Proof.
  intros (out & calls & Hrun & Hcalls). unfold earlier. rewrite Hrun.
  rewrite drop_app_length. eexists _, _. split; [reflexivity|].
  by apply Forall_fmap.
Qed.

(** The end of a run whose requests are listed: they only read. *)
Ltac reads before :=
  eexists _, (before ++ _); rewrite <- ?(assoc_L (++));
  split; [reflexivity|];
  apply Forall_app; split; [assumption|by repeat constructor].

(** X21.  Creating a protection group or a replica changes nothing on the
    array: the requests that [CreateStorageProtectionGroup] and
    [CreateRemoteVolume] issue, those of the decoding of the handle
    included, are lookups.  The group, its session and the remote volume are
    there already; the two calls report them. *)
Theorem Create_reads_only s hist :
  (∀ req, ∃ out requests,
     CreateStorageProtectionGroup s req hist = (out, hist ++ requests)
     ∧ Forall (λ r, readsOnly r = true) requests)
  ∧ (∀ req, ∃ out requests,
       CreateRemoteVolume s req hist = (out, hist ++ requests)
       ∧ Forall (λ r, readsOnly r = true) requests).
Proof.
  split; intros req.
  - unfold CreateStorageProtectionGroup.
    destruct (String.eqb (spg_VolumeHandle req) ""); [nothing|].
    unfold mbind at 1, MR_bind at 1.
    destruct (earlier_reads
                (ParseVolumeID (IPToArray (registry s)) (spg_VolumeHandle req)
                               (ServiceDefaultArray s) None) hist
                (ParseVolumeID_calls _ _ _ _ _))
      as (out & parsed & -> & Hparsed).
    destruct out as [[volumeHandle [e|]]|msg];
      [by eexists _, parsed| |by eexists _, parsed].
    destruct (ArraysAt s (arrayID volumeHandle)) as [arr|];
      [|by eexists _, parsed].
    destruct (String.eqb (protocol volumeHandle) "nfs"); [by eexists _, parsed|].
    unfold withManagedClient.
    destruct (ArrayClient arr) as [client|]; [|by eexists _, parsed].
    unfold GetVolumeGroupsByVolumeID. rewrite bind_request.
    destruct (doGetVolumeGroupsByVolumeID _ _ _) as [[|vg vgs] [e|]];
      try reads parsed.
    unfold mbind at 1, MR_bind at 1, GetReplicationSession at 1.
    destruct (doGetReplicationSessionByLocalResourceID _ _ _) as [rs [e|]];
      [reads parsed|].
    unfold GetCluster. rewrite bind_request.
    destruct (doGetCluster _ _) as [localSystem [e|]]; [reads parsed|].
    unfold GetRemoteSystem. rewrite bind_request.
    destruct (doGetRemoteSystem _ _ _) as [remoteSystem [e|]]; reads parsed.
  - unfold CreateRemoteVolume.
    destruct (String.eqb (crv_VolumeHandle req) ""); [nothing|].
    unfold mbind at 1, MR_bind at 1.
    destruct (earlier_reads
                (ParseVolumeID (IPToArray (registry s)) (crv_VolumeHandle req)
                               (ServiceDefaultArray s) None) hist
                (ParseVolumeID_calls _ _ _ _ _))
      as (out & parsed & -> & Hparsed).
    destruct out as [[volumeHandle [e|]]|msg];
      [by eexists _, parsed| |by eexists _, parsed].
    destruct (splitPrefix _ _) as [volPrefix id].
    destruct (ArraysAt s (arrayID volumeHandle)) as [arr|];
      [|by eexists _, parsed].
    unfold withManagedClient.
    destruct (ArrayClient arr) as [client|]; [|by eexists _, parsed].
    unfold GetVolumeGroupsByVolumeID. rewrite bind_request.
    destruct (doGetVolumeGroupsByVolumeID _ _ _) as [[|vg vgs] [e|]];
      try reads parsed.
    unfold mbind at 1, MR_bind at 1, GetReplicationSession at 1.
    destruct (doGetReplicationSessionByLocalResourceID _ _ _) as [rs [e|]];
      [reads parsed|].
    destruct (String.eqb (remoteElement _ _) ""); [reads parsed|].
    unfold mbind at 1, MR_bind at 1, GetVolumeWithSize at 1.
    destruct (doGetVolume _ _ _) as [vol [e|]]; [reads parsed|].
    unfold GetCluster. rewrite bind_request.
    destruct (doGetCluster _ _) as [localSystem [e|]]; [reads parsed|].
    unfold GetRemoteSystem. rewrite bind_request.
    destruct (doGetRemoteSystem _ _ _) as [remoteSystem [e|]]; reads parsed.
Qed.

End ReadOnly.

(** ** The handle of a replica *)

Section RemoteHandle.
Context `{Platform} `{Gopowerstore} `{HostBasedNFS}.

#[local] Arguments String.append : simpl never.
#[local] Arguments classifyLegacy : simpl never.
#[local] Arguments ParseVolumeID : simpl never.
#[local] Arguments mapOf : simpl never.

Lemma append_assoc (a b c : string) : (a +:+ b) +:+ c = a +:+ b +:+ c.
Proof.
  induction a as [|x a IH]; [done|].
  change (String x ((a +:+ b) +:+ c) = String x (a +:+ b +:+ c)). by rewrite IH.
Qed.

Lemma append_empty (a b : string) : a +:+ b = "" → b = "".
Proof. by destruct a. Qed.

(** The pieces of a split hold no separator, and no byte that the whole does
    not hold. *)
Lemma Split_pieces s sep x :
  x ∈ Split s sep →
  hasByte sep x = false ∧ ∀ c, hasByte c s = false → hasByte c x = false.
Proof.
  revert x. induction s as [|d s IH]; simpl; intros x Hin.
  { by apply list_elem_of_singleton in Hin as ->. }
  destruct (Ascii.eqb d sep) eqn:Hd.
  - apply elem_of_cons in Hin as [->|Hin]; [done|].
    destruct (IH x Hin) as [Hsep Hother]. split; [done|].
    intros c [_ Hc]%orb_false_iff. auto.
  - pose proof (Split_nonempty s sep).
    destruct (Split s sep) as [|w ws]; [done|].
    apply elem_of_cons in Hin as [->|Hin].
    + destruct (IH w) as [Hsep Hother]; [by left|]. simpl. rewrite Hd, Hsep.
      split; [done|]. intros c [Hdc Hc]%orb_false_iff. rewrite Hdc. simpl. auto.
    + destruct (IH x) as [Hsep Hother]; [by right|]. split; [done|].
      intros c [_ Hc]%orb_false_iff. auto.
Qed.

Lemma classifyLegacy_result id d vc hist r h' :
  classifyLegacy id d vc hist = (Returned r, h') →
  match r with
  | inl early => is_Some early.2
  | inr (_, p) => p = "nfs" ∨ p = "scsi"
  end.
Proof.
  unfold classifyLegacy. destruct d as [arr|]; [|discriminate].
  destruct (vc ≫= Mount) as [mnt|].
  { destruct (String.eqb (FsType mnt) "nfs"); intros [= <- _]; auto. }
  destruct (ArrayClient arr) as [client|]; [|discriminate].
  unfold GetVolume, GetFS. run.
  destruct (doGetVolume client hist id) as [vol [e|]]; cbn.
  - destruct (doGetFS client _ id) as [fs [e'|]]; cbn;
      [destruct (isNotFoundAPIError e'); intros [= <- _]; by eexists|].
    intros [= <- _]; auto.
  - intros [= <- _]; auto.
Qed.

(** The protocol of a decoded handle holds neither [/] nor [:]. *)
Lemma ParseVolumeID_protocol IPToArray v d vc hist vh h' :
  ParseVolumeID IPToArray v d vc hist = (Returned (vh, None), h') →
  isField (protocol vh) = true.
Proof.
  unfold ParseVolumeID. destruct (String.eqb v ""); [discriminate|].
  pose proof (Split_nonempty v ":") as Hparts.
  pose proof (Split_pieces v ":") as Hcolon.
  destruct (Split v ":") as [|first rest]; [done|]. run.
  destruct (Hcolon first) as [Hfirst _]; [by left|].
  pose proof (Split_nonempty first "/").
  pose proof (Split_pieces first "/") as Hslash.
  destruct (Split first "/") as [|l [|a [|p fields]]]; try done; cbn.
  - destruct (classifyLegacy l d vc hist) as [[[early|[arrayID p]]|] h1] eqn:Hlegacy;
      cbn; [| |discriminate]; apply classifyLegacy_result in Hlegacy.
    { intros [= -> _]. by destruct Hlegacy. }
    destruct rest as [|second rest]; cbn.
    { intros [= <- _]. by destruct Hlegacy as [-> | ->]. }
    destruct (Split second "/") as [|r [|ra more]]; cbn; try discriminate.
    intros [= <- _]. by destruct Hlegacy as [-> | ->].
  - destruct (Hslash p) as [Hp1 Hp2]; [do 2 right; by left|].
    assert (isField p = true) as Hp.
    { unfold isField. by rewrite Hp1, (Hp2 _ Hfirst). }
    destruct rest as [|second rest]; cbn; [by intros [= <- _]|].
    destruct (Split second "/") as [|r [|ra more]]; cbn; try discriminate.
    by intros [= <- _].
Qed.

(** The loop over the pairs finds the remote element of a pair of [id]. *)
Lemma remoteElement_found pairs id :
  remoteElement pairs id ≠ "" →
  ∃ sp, sp ∈ pairs ∧ LocalStorageElementID sp = id
        ∧ RemoteStorageElementID sp = remoteElement pairs id.
Proof.
  unfold remoteElement.
  induction pairs as [|sp pairs IH] using rev_ind; [done|].
  rewrite foldl_app. cbn.
  destruct (String.eqb_spec (LocalStorageElementID sp) id) as [Hid|_].
  - intros _. exists sp. split; [|done]. apply elem_of_app. right. by left.
  - intros (sp' & Hin & Hsp')%IH. exists sp'. split; [|done].
    apply elem_of_app. by left.
Qed.

Lemma CreateRemoteVolume_ok s req hist resp hist' :
  CreateRemoteVolume s req hist = (Returned (Some resp, None), hist') →
  ∃ source parsed arr client vg details size localSystem remoteSystem,
    earlier (ParseVolumeID (IPToArray (registry s)) (crv_VolumeHandle req)
                           (ServiceDefaultArray s) None) hist
      = (Returned (source, None), parsed)
    ∧ ArraysAt s (arrayID source) = Some arr
    ∧ ArrayClient arr = Some client
    ∧ let split := splitPrefix (crv_Parameters req) (localVolumeID source) in
      let remoteVolumeID :=
        remoteElement (rs_StorageElementPairs details) split.2 in
      (doGetVolumeGroupsByVolumeID (management client) parsed split.2).1
        !! 0%nat = Some vg
      ∧ details
        = doSessionDetails (management client)
            (parsed ++ [GetVolumeGroupsByVolumeIDCall split.2]) (vgv_ID vg)
      ∧ remoteVolumeID ≠ ""
      ∧ resp = {| RemoteVolume := {|
          CapacityBytes := size;
          VolumeId := split.1 +:+ remoteVolumeID +:+ "/"
                        +:+ sys_SerialNumber remoteSystem
                        +:+ "/" +:+ protocol source;
          VolumeContext :=
            let p := replicationContextPrefix s in
            mapOf [("remoteSystem", cl_Name localSystem);
                   (p +:+ "arrayID", sys_SerialNumber remoteSystem);
                   (p +:+ "managementAddress",
                    sys_ManagementAddress remoteSystem)] |} |}.
Proof.
  unfold CreateRemoteVolume.
  destruct (String.eqb (crv_VolumeHandle req) ""); [discriminate|].
  unfold mbind at 1, MR_bind at 1.
  destruct (earlier _ hist) as [[[source [e|]]|msg] parsed];
    [discriminate| |discriminate].
  destruct (splitPrefix _ _) as [volPrefix id] eqn:Hsplit.
  destruct (ArraysAt s (arrayID source)) as [arr|] eqn:Harr; [|discriminate].
  unfold withManagedClient.
  destruct (ArrayClient arr) as [client|] eqn:Hclient; [|discriminate].
  unfold GetVolumeGroupsByVolumeID. rewrite bind_request.
  destruct (doGetVolumeGroupsByVolumeID _ _ _) as [[|vg vgs] [e|]] eqn:Hvgs;
    try discriminate.
  unfold mbind at 1, MR_bind at 1, GetReplicationSession at 1.
  destruct (doGetReplicationSessionByLocalResourceID _ _ _) as [rs [e|]];
    [discriminate|].
  set (details := doSessionDetails _ _ _).
  destruct (String.eqb_spec (remoteElement (rs_StorageElementPairs details) id) "")
    as [|Hremote]; [discriminate|].
  unfold mbind at 1, MR_bind at 1, GetVolumeWithSize at 1.
  destruct (doGetVolume _ _ _) as [vol [e|]]; [discriminate|].
  set (size := doVolumeSize _ _ _).
  unfold GetCluster. rewrite bind_request.
  destruct (doGetCluster _ _) as [localSystem [e|]]; [discriminate|].
  unfold GetRemoteSystem. rewrite bind_request.
  destruct (doGetRemoteSystem _ _ _) as [remoteSystem [e|]]; [discriminate|].
  intros [= <- _].
  exists source, parsed, arr, client, vg, details, size, localSystem, remoteSystem.
  rewrite Hsplit. cbn [fst snd]. repeat split; try done.
  { by rewrite Hvgs. }
  cbn [getRemoteCSIVolume CapacityBytes VolumeId].
  match goal with
  | |- context [lookupString ?m ?k] =>
      assert (lookupString m k = sys_SerialNumber remoteSystem) as ->; [|done]
  end.
  unfold lookupString, mapOf. cbn [foldl fst snd].
  rewrite lookup_insert_ne by (intros ?%append_inj; discriminate).
  by rewrite lookup_insert_eq.
Qed.

(** X22.  The handle that [CreateRemoteVolume] returns for the replica is a
    handle of three fields: the remote element that the session of the
    volume's group pairs with the volume, under the prefix of the volume if
    it has one, the serial number of the remote system, which the volume
    context gives as the array ID, and the protocol of the source volume.
    When the first two hold neither [/] nor [:] the decoder reads these
    three fields back from it, without a call. *)
Theorem CreateRemoteVolume_handle s req hist resp hist' :
  CreateRemoteVolume s req hist = (Returned (Some resp, None), hist') →
  ∃ source parsed arr client vg sp serial,
    let volPrefix :=
      (splitPrefix (crv_Parameters req) (localVolumeID source)).1 in
    let id := (splitPrefix (crv_Parameters req) (localVolumeID source)).2 in
    earlier (ParseVolumeID (IPToArray (registry s)) (crv_VolumeHandle req)
                           (ServiceDefaultArray s) None) hist
      = (Returned (source, None), parsed)
    ∧ ArraysAt s (arrayID source) = Some arr
    ∧ ArrayClient arr = Some client
    ∧ (doGetVolumeGroupsByVolumeID (management client) parsed id).1 !! 0%nat
      = Some vg
    ∧ sp ∈ rs_StorageElementPairs
             (doSessionDetails (management client)
                (parsed ++ [GetVolumeGroupsByVolumeIDCall id]) (vgv_ID vg))
    ∧ LocalStorageElementID sp = id
    ∧ RemoteStorageElementID sp ≠ ""
    ∧ VolumeContext (RemoteVolume resp)
        !! (replicationContextPrefix s +:+ "arrayID") = Some serial
    ∧ VolumeId (RemoteVolume resp)
      = handleOf (volPrefix +:+ RemoteStorageElementID sp) serial
                 (protocol source) None
    ∧ (isField (volPrefix +:+ RemoteStorageElementID sp) = true →
       isField serial = true →
       ∀ index d vc h,
         ParseVolumeID index (VolumeId (RemoteVolume resp)) d vc h
         = (Returned ({| localVolumeID := volPrefix +:+ RemoteStorageElementID sp;
                         arrayID := arrayOfRef index serial;
                         protocol := protocol source;
                         remoteVolumeID := ""; remoteArrayID := "" |}, None), h)).
Proof.
  intros (source & parsed & arr & client & vg & details & size & localSystem
          & remoteSystem & Hparse & Harr & Hclient & Hvg & Hdetails & Hremote
          & ->)%CreateRemoteVolume_ok.
  destruct (remoteElement_found _ _ Hremote) as (sp & Hin & Hlocal & Hsp).
  rewrite <- Hsp in *.
  exists source, parsed, arr, client, vg, sp, (sys_SerialNumber remoteSystem).
  cbn [RemoteVolume VolumeId VolumeContext]. cbv zeta.
  assert (isField (protocol source) = true) as Hprotocol.
  { unfold earlier in Hparse.
    destruct (ParseVolumeID _ _ _ _ _) as [out calls] eqn:Hrun.
    injection Hparse as -> _. by eapply ParseVolumeID_protocol. }
  assert ((splitPrefix (crv_Parameters req) (localVolumeID source)).1
            +:+ RemoteStorageElementID sp +:+ "/"
            +:+ sys_SerialNumber remoteSystem +:+ "/" +:+ protocol source
          = handleOf ((splitPrefix (crv_Parameters req) (localVolumeID source)).1
                        +:+ RemoteStorageElementID sp)
                     (sys_SerialNumber remoteSystem) (protocol source) None)
    as Hhandle.
  { unfold handleOf. by rewrite append_assoc. }
  split; [done|]. split; [done|]. split; [done|]. split; [done|].
  split; [by rewrite <- Hdetails|]. split; [done|]. split; [done|].
  split.
  { unfold mapOf. cbn [foldl fst snd].
    rewrite lookup_insert_ne by (intros ?%append_inj; discriminate).
    by rewrite lookup_insert_eq. }
  split; [done|].
  intros Hid Hserial index d vc h. rewrite Hhandle.
  by rewrite (ParseVolumeID_structured index _ _ _ None).
Qed.

End RemoteHandle.

Section ReplicaInstances.

Example CreateStorageProtectionGroup_example :
  @CreateStorageProtectionGroup Examples.platform ReplicaScenarios.replicating
      ReplicaScenarios.hostBasedNFS (Examples.service Examples.idle)
      ReplicaScenarios.groupRequest []
  = (Returned (Some ReplicaScenarios.protectionGroup, None),
     [GetVolumeGroupsByVolumeIDCall "vol-1";
      Earlier (GetReplicationSessionByLocalResourceIDCall "vg-1");
      GetClusterCall; GetRemoteSystemCall "remote-1"]).
Proof. vm_compute. reflexivity. Qed.

Example CreateRemoteVolume_example :
  @CreateRemoteVolume Examples.platform ReplicaScenarios.replicating
      ReplicaScenarios.hostBasedNFS (Examples.service Examples.idle)
      ReplicaScenarios.replicaRequest []
  = (Returned (Some ReplicaScenarios.replica, None),
     [GetVolumeGroupsByVolumeIDCall "vol-1";
      Earlier (GetReplicationSessionByLocalResourceIDCall "vg-1");
      Earlier (GetVolumeCall "vol-1");
      GetClusterCall; GetRemoteSystemCall "remote-1"]).
Proof. vm_compute. reflexivity. Qed.

(** X19 on the protection group of [vol-1]. *)
Lemma CreateStorageProtectionGroup_attributes_witness :
  ∃ globalID arr,
    LocalProtectionGroupAttributes ReplicaScenarios.protectionGroup
      !! ("powerstore/" +:+ "globalID") = Some globalID
    ∧ ArraysAt (Examples.service Examples.idle) globalID = Some arr
    ∧ is_Some (ArrayClient arr)
    ∧ is_Some (LocalProtectionGroupAttributes ReplicaScenarios.protectionGroup
                 !! ("powerstore/" +:+ "VolumeGroupName")).
Proof.
  exact (@CreateStorageProtectionGroup_attributes Examples.platform
           ReplicaScenarios.replicating ReplicaScenarios.hostBasedNFS
           (Examples.service Examples.idle) ReplicaScenarios.groupRequest []
           ReplicaScenarios.protectionGroup _
           CreateStorageProtectionGroup_example).
Defined.

(** X20 on the protection group of [vol-1]: the remote attributes do not
    tell the array ID of [PS1]. *)
Lemma CreateStorageProtectionGroup_mirror_witness :
  RemoteProtectionGroupAttributes ReplicaScenarios.protectionGroup
    !! ("powerstore/" +:+ "globalID")
  = LocalProtectionGroupAttributes ReplicaScenarios.protectionGroup
      !! ("powerstore/" +:+ "remoteGlobalID")
  ∧ RemoteProtectionGroupAttributes ReplicaScenarios.protectionGroup
      !! ("powerstore/" +:+ "remoteGlobalID") = None.
Proof.
  destruct (@CreateStorageProtectionGroup_mirror Examples.platform
              ReplicaScenarios.replicating ReplicaScenarios.hostBasedNFS
              (Examples.service Examples.idle) ReplicaScenarios.groupRequest []
              ReplicaScenarios.protectionGroup _
              CreateStorageProtectionGroup_example)
    as (_ & _ & _ & _ & _ & Hid & _ & _ & Hnone).
  split; [exact Hid|exact Hnone].
Defined.

(** X22 on the replica of [vol-1]. *)
Lemma CreateRemoteVolume_handle_witness :
  ∃ source sp serial,
    VolumeId (RemoteVolume ReplicaScenarios.replica)
    = handleOf ((@splitPrefix ReplicaScenarios.hostBasedNFS
                   (crv_Parameters ReplicaScenarios.replicaRequest)
                   (localVolumeID source)).1
                  +:+ RemoteStorageElementID sp)
               serial (protocol source) None.
Proof.
  destruct (@CreateRemoteVolume_handle Examples.platform
              ReplicaScenarios.replicating ReplicaScenarios.hostBasedNFS
              (Examples.service Examples.idle) ReplicaScenarios.replicaRequest []
              ReplicaScenarios.replica _ CreateRemoteVolume_example)
    as (source & parsed & arr & client & vg & sp & serial & Hrest).
  exists source, sp, serial. apply Hrest.
Defined.

End ReplicaInstances.

(** ** Snapshots of volume groups *)

Section SnapshotFacts.
Context `{Platform} `{Gopowerstore}.

#[local] Arguments String.append : simpl never.

Lemma bind_assoc {A B C} (m : MR A) (f : A → MR B) (k : B → MR C) h :
  ((m ≫= f) ≫= k) h = (m ≫= λ a, f a ≫= k) h.
Proof.
  unfold mbind, MR_bind. by destruct (m h) as [[a|msg] h'].
Qed.

Lemma bind_group {B} c id
    (k : VolumeGroup * VolumeGroupDetails * option error → MR B) h :
  (GetVolumeGroupWithDetails c id ≫= k) h
  = k ((doGetVolumeGroup c (earlierCalls h) id).1,
       doVolumeGroupDetails (management c) h id,
       (doGetVolumeGroup c (earlierCalls h) id).2)
      (h ++ [Earlier (GetVolumeGroupCall id)]).
Proof.
  unfold mbind, MR_bind, GetVolumeGroupWithDetails.
  by destruct (doGetVolumeGroup c (earlierCalls h) id).
Qed.

Lemma ensureVolumeGroup_run client vgParams gotVg h :
  ∃ r calls,
    ensureVolumeGroup client vgParams gotVg h = (Returned r, h ++ calls)
    ∧ groupCalls client vgParams gotVg h calls
    ∧ ∀ reply, r = inl reply → ∃ msg, reply = (None, Some (StatusErr Internal msg)).
Proof.
  unfold ensureVolumeGroup, groupCalls. cbv zeta.
  destruct (String.eqb_spec (vg_ID gotVg) "") as [Hgot|Hgot]; cbn [negb].
  - unfold GetVolumeGroupsByVolumeID. rewrite bind_request.
    destruct (doGetVolumeGroupsByVolumeID _ _ _) as [r e1]. cbn [fst snd].
    assert (∃ r' calls,
              match r with
              | [] =>
                  '(resp, err) ← CreateVolumeGroup client vgParams;
                  match err with
                  | Some e =>
                      if isNotNameInUse e then
                        mret (inl (failed "Error creating volume group: " e))
                      else mret (inr (cr_ID resp))
                  | None => mret (inr (cr_ID resp))
                  end
              | g :: _ => mret (inr (vgv_ID g))
              end (h ++ [GetVolumeGroupsByVolumeIDCall
                           (default "" (head (vgc_VolumeIDs vgParams)))])
              = (Returned r', h ++ calls)
              ∧ (vg_ID gotVg ≠ "" ∧ calls = [AddMembersToVolumeGroupCall
                    {| vgm_VolumeIDs := vgc_VolumeIDs vgParams |} (vg_ID gotVg)]
                 ∨ vg_ID gotVg = ""
                   ∧ (calls = [GetVolumeGroupsByVolumeIDCall
                                 (default "" (head (vgc_VolumeIDs vgParams)))]
                      ∨ r = []
                        ∧ calls = [GetVolumeGroupsByVolumeIDCall
                                     (default "" (head (vgc_VolumeIDs vgParams)));
                                   CreateVolumeGroupCall vgParams]))
              ∧ ∀ reply, r' = inl reply →
                  ∃ msg, reply = (None, Some (StatusErr Internal msg))) as Hlist.
    { destruct r as [|g r].
      - unfold CreateVolumeGroup. rewrite bind_request.
        destruct (doCreateVolumeGroup _ _ _) as [resp [e2|]];
          [destruct (isNotNameInUse e2)|]; cbn [fst snd];
          eexists _, [_; _]; rewrite <- (assoc_L (++));
          (split; [reflexivity|]); (split; [right; split; [done|]; by right|]);
          intros ? [= <-]; by eexists.
      - eexists _, [_]. split; [reflexivity|].
        split; [right; split; [done|]; by left|]. discriminate. }
    destruct e1 as [e1|]; [destruct (isNotFoundAPIError e1)|]; cbn [negb];
      rewrite bind_mret; [exact Hlist| |exact Hlist].
    eexists _, [_]. split; [reflexivity|].
    split; [right; split; [done|]; by left|]. intros ? [= <-]. by eexists.
  - unfold AddMembersToVolumeGroup. rewrite bind_request.
    destruct (doAddMembersToVolumeGroup _ _ _ _) as [e1|];
      [destruct (isNotNameInUse e1)|];
      eexists _, [_]; (split; [reflexivity|]); (split; [left; by split|]);
      [intros ? [= <-]; by eexists|discriminate..].
Qed.

Lemma snapshotVolumeGroup_run client reqParams first existingVgID h :
  ∃ reply calls,
    snapshotVolumeGroup client reqParams first (arrayOfHandle first)
                        existingVgID h
      = (Returned reply, h ++ calls)
    ∧ snapshotCalls reqParams existingVgID calls
    ∧ snapshotReply first reply.
Proof.
  unfold snapshotVolumeGroup, snapshotCalls, snapshotReply.
  destruct (String.eqb_spec existingVgID "") as [Hid|Hid]; cbn [negb].
  { eexists _, []. rewrite (right_id_L [] (++)). split; [reflexivity|].
    split; [by left|]. right. by eexists _, 0%Z, []. }
  unfold CreateVolumeGroupSnapshotOnArray. rewrite bind_request.
  destruct (doCreateVolumeGroupSnapshot _ _ _ _) as [resp e3]. cbn [fst snd].
  assert (∃ reply calls,
            ('(volGroup, details, err) ←
               GetVolumeGroupWithDetails client (cr_ID resp);
             match err with
             | Some e =>
                 if isNotNameInUse e then
                   mret (Some (failed "Error getting volume group snapshot: " e))
                 else mret None
             | None => mret None
             end ≫= λ early,
             match early with
             | Some reply => mret reply
             | None =>
                 let etime := default zeroTimeUnix (vg_CreationTimeStamp details) in
                 let int64CreationTime := wrap64 (etime * 1000000000) in
                 mret (Some {| SnapshotGroupID := vg_ID volGroup;
                               Snapshots :=
                                 snapshotsOf first (arrayOfHandle first)
                                             int64CreationTime (vg_Volumes details);
                               CreationTime := int64CreationTime |}, None)
             end) (h ++ [CreateVolumeGroupSnapshotCall existingVgID reqParams])
            = (Returned reply, h ++ calls)
            ∧ (existingVgID = "" ∧ calls = []
               ∨ existingVgID ≠ ""
                 ∧ (calls = [CreateVolumeGroupSnapshotCall existingVgID reqParams]
                    ∨ ∃ created,
                        calls = [CreateVolumeGroupSnapshotCall existingVgID reqParams;
                                 Earlier (GetVolumeGroupCall created)]))
            ∧ ((∃ msg, reply = (None, Some (StatusErr Internal msg)))
               ∨ ∃ resp' t volumes,
                   reply = (Some resp', None)
                   ∧ Snapshots resp'
                     = snapshotsOf first (arrayOfHandle first) t volumes))
    as Hgroup.
  { rewrite bind_group.
    set (details := doVolumeGroupDetails _ _ _).
    destruct (doGetVolumeGroup client _ _) as [volGroup e4]. cbn [fst snd].
    destruct e4 as [e4|]; [destruct (isNotNameInUse e4)|]; rewrite bind_mret;
      eexists _, [_; _]; rewrite <- (assoc_L (++));
      (split; [reflexivity|]);
      (split; [right; split; [done|]; right; by eexists|]);
      [left; by eexists|right; by eexists _, _, _..]. }
  destruct e3 as [e3|]; [destruct (isNotNameInUse e3)|]; rewrite bind_mret;
    [|exact Hgroup..].
  eexists _, [_]. split; [reflexivity|].
  split; [right; split; [done|]; by left|]. left. by eexists.
Qed.

#[local] Arguments ensureVolumeGroup : simpl never.
#[local] Arguments snapshotVolumeGroup : simpl never.

(** The run of [CreateVolumeGroupSnapshot] on a request that is valid and
    names an array of the registry that has a client. *)
Lemma CreateVolumeGroupSnapshot_run s request first rest arr client hist :
  validateCreateVGSreq request = None →
  vgs_SourceVolumeIDs request = first :: rest →
  ArraysAt s (arrayOfHandle first) = Some arr →
  ArrayClient arr = Some client →
  let name := vgs_Name request in
  let reqParams := {| vgsc_Name := name;
                      vgsc_Description := vgs_Description request |} in
  let vgParams :=
    {| vgc_Name := name; vgc_Description := vgs_Description request;
       vgc_VolumeIDs := (λ v, default "" (head (Split v "/")))
                          <$> vgs_SourceVolumeIDs request |} in
  let gotVg := (doGetVolumeGroupByName (management client) hist name).1 in
  let h1 := hist ++ [GetVolumeGroupByNameCall name] in
  ∃ reply calls1 calls2,
    CreateVolumeGroupSnapshot s request hist
      = (Returned reply, h1 ++ calls1 ++ calls2)
    ∧ (calls1 = [] ∧ calls2 = []
       ∨ groupCalls client vgParams gotVg h1 calls1
         ∧ (calls2 = [] ∨ ∃ id, id ≠ "" ∧ snapshotCalls reqParams id calls2))
    ∧ snapshotReply first reply.
Proof.
  intros Hvalid Hsources Harr Hclient. cbv zeta.
  unfold CreateVolumeGroupSnapshot. rewrite Hvalid, Hsources, Harr.
  unfold withManagedClient. rewrite Hclient. rewrite <- Hsources.
  unfold GetVolumeGroupByName. rewrite bind_request.
  set (h1 := hist ++ [GetVolumeGroupByNameCall (vgs_Name request)]).
  set (vgParams := {| vgc_Name := _ |}).
  set (reqParams := {| vgsc_Name := _ |}).
  destruct (doGetVolumeGroupByName _ hist _) as [gotVg e0]. cbn [fst snd].
  assert (∃ reply calls1 calls2,
            (group ← ensureVolumeGroup client vgParams gotVg;
             match group with
             | inl reply => mret reply
             | inr existingVgID =>
                 snapshotVolumeGroup client reqParams first (arrayOfHandle first)
                                     existingVgID
             end) h1
            = (Returned reply, h1 ++ calls1 ++ calls2)
            ∧ (calls1 = [] ∧ calls2 = []
               ∨ groupCalls client vgParams gotVg h1 calls1
                 ∧ (calls2 = []
                    ∨ ∃ id, id ≠ "" ∧ snapshotCalls reqParams id calls2))
            ∧ snapshotReply first reply) as Hgo.
  { unfold mbind at 1, MR_bind at 1.
    destruct (ensureVolumeGroup_run client vgParams gotVg h1)
      as (r & calls1 & -> & Hcalls1 & Hr).
    destruct r as [reply|existingVgID].
    { exists reply, calls1, []. rewrite (right_id_L [] (++)).
      split; [done|]. split; [right; split; [done|by left]|].
      left. by apply Hr. }
    destruct (snapshotVolumeGroup_run client reqParams first existingVgID
                (h1 ++ calls1)) as (reply & calls2 & -> & Hcalls2 & Hreply).
    exists reply, calls1, calls2. rewrite <- (assoc_L (++)).
    split; [done|]. split; [|done]. right. split; [done|].
    destruct Hcalls2 as [[_ ->]|[Hid Hcalls2]]; [by left|].
    right. exists existingVgID. split; [done|]. right. by split. }
  destruct e0 as [e0|]; [destruct (isNotFoundAPIError e0)|]; cbn [negb];
    [exact Hgo| |exact Hgo].
  eexists _, [], []. rewrite !(right_id_L [] (++)).
  split; [reflexivity|]. split; [by left|]. left. by eexists.
Qed.

End SnapshotFacts.

(** ** The handles of snapshots *)

Section SnapshotHandles.
Context `{Platform} `{Gopowerstore}.

#[local] Arguments String.append : simpl never.
#[local] Arguments ensureVolumeGroup : simpl never.
#[local] Arguments snapshotVolumeGroup : simpl never.

(** A request among requests that are listed: it is one of them. *)
Ltac listed Hin :=
  repeat (apply elem_of_cons in Hin as [Hin|Hin];
          [first [discriminate Hin | injection Hin as -> | injection Hin as -> ->
                 | idtac]|]);
  try (by apply elem_of_nil in Hin).

(** X23.  [CreateVolumeGroupSnapshot] does not check that it knows the
    array: for a request that passes the validation, it returns exactly when
    the second field of the first source handle is the ID of an array of the
    registry that has a client.  Otherwise, as for a handle of one field
    when no array has the empty ID, it panics, before any call.  When it
    returns after the validation, it has asked for the volume group of the
    name, and its error, if any, has status Internal. *)
Theorem CreateVolumeGroupSnapshot_returns s request first rest hist :
  validateCreateVGSreq request = None →
  vgs_SourceVolumeIDs request = first :: rest →
  (returned (CreateVolumeGroupSnapshot s request hist).1
   ↔ ∃ arr, ArraysAt s (arrayOfHandle first) = Some arr
            ∧ is_Some (ArrayClient arr))
  ∧ (¬ returned (CreateVolumeGroupSnapshot s request hist).1 →
     (CreateVolumeGroupSnapshot s request hist).2 = hist)
  ∧ ∀ reply hist',
      CreateVolumeGroupSnapshot s request hist = (Returned reply, hist') →
      (∃ calls, hist' = hist ++ GetVolumeGroupByNameCall (vgs_Name request) :: calls)
      ∧ ∀ e, reply.2 = Some e → ∃ msg, e = StatusErr Internal msg.
Proof.
  intros Hvalid Hsources.
  destruct (ArraysAt s (arrayOfHandle first)) as [arr|] eqn:Harr.
  2:{ unfold CreateVolumeGroupSnapshot. rewrite Hvalid, Hsources, Harr. cbn.
      split; [split; [done|by intros (? & ? & _)]|]. split; [done|]. discriminate. }
  destruct (ArrayClient arr) as [client|] eqn:Hclient.
  2:{ unfold CreateVolumeGroupSnapshot, withManagedClient.
      rewrite Hvalid, Hsources, Harr, Hclient. cbn.
      split; [split; [done|]|].
      { intros (arr' & [= <-] & [? Hsome]). congruence. }
      split; [done|]. discriminate. }
  destruct (CreateVolumeGroupSnapshot_run s request first rest arr client hist
              Hvalid Hsources Harr Hclient)
    as (reply & calls1 & calls2 & -> & _ & Hreply).
  cbn [fst snd]. split; [split; [intros _|done]|].
  { exists arr. split; [done|]. rewrite Hclient. by eexists. }
  split; [by intros []|].
  intros reply' hist' [= <- <-]. split.
  { exists (calls1 ++ calls2). by rewrite <- (assoc_L (++)). }
  intros e He. destruct Hreply as [[msg ->]|(resp & t & volumes & -> & _)].
  - injection He as <-. by eexists.
  - discriminate.
Qed.

(** X24.  What [CreateVolumeGroupSnapshot] changes on the array, and when.
    Volumes are added only to the group that the array returned for the name
    of the request.  A group is created only when the array returned no
    group for the name and listed no group for the first volume, and then
    with the name and the description of the request and the first fields of
    the source handles as its volumes.  A snapshot is taken only of a group
    with an ID, under the name and the description of the request. *)
Theorem CreateVolumeGroupSnapshot_guarded s request first rest arr client hist :
  validateCreateVGSreq request = None →
  vgs_SourceVolumeIDs request = first :: rest →
  ArraysAt s (arrayOfHandle first) = Some arr →
  ArrayClient arr = Some client →
  let name := vgs_Name request in
  let sourceVols :=
    (λ v, default "" (head (Split v "/"))) <$> vgs_SourceVolumeIDs request in
  let gotVg := (doGetVolumeGroupByName (management client) hist name).1 in
  let listed :=
    (doGetVolumeGroupsByVolumeID (management client)
       (hist ++ [GetVolumeGroupByNameCall name])
       (default "" (head (Split first "/")))).1 in
  ∃ reply calls,
    CreateVolumeGroupSnapshot s request hist = (Returned reply, hist ++ calls)
    ∧ (∀ members id, AddMembersToVolumeGroupCall members id ∈ calls →
         id = vg_ID gotVg ∧ id ≠ "" ∧ vgm_VolumeIDs members = sourceVols)
    ∧ (∀ group, CreateVolumeGroupCall group ∈ calls →
         vg_ID gotVg = "" ∧ listed = []
         ∧ group = {| vgc_Name := name;
                      vgc_Description := vgs_Description request;
                      vgc_VolumeIDs := sourceVols |})
    ∧ (∀ id snapshot, CreateVolumeGroupSnapshotCall id snapshot ∈ calls →
         id ≠ ""
         ∧ snapshot = {| vgsc_Name := name;
                         vgsc_Description := vgs_Description request |}).
Proof.
  intros Hvalid Hsources Harr Hclient. cbv zeta.
  destruct (CreateVolumeGroupSnapshot_run s request first rest arr client hist
              Hvalid Hsources Harr Hclient)
    as (reply & calls1 & calls2 & -> & Hcalls & _).
  exists reply, (GetVolumeGroupByNameCall (vgs_Name request) :: calls1 ++ calls2).
  split; [by rewrite <- (assoc_L (++))|].
  assert (default "" (head ((λ v, default "" (head (Split v "/")))
                              <$> vgs_SourceVolumeIDs request))
          = default "" (head (Split first "/"))) as Hfirst.
  { by rewrite Hsources. }
  unfold groupCalls, snapshotCalls in Hcalls. cbn [vgc_VolumeIDs] in Hcalls.
  rewrite Hfirst in Hcalls.
  destruct Hcalls as [[-> ->]|[Hcalls1 Hcalls2]].
  { repeat split; intros; match goal with Hin : _ ∈ _ |- _ => listed Hin end. }
  assert (∀ r, r ∈ calls2 →
            ∃ id, id ≠ ""
              ∧ (r = CreateVolumeGroupSnapshotCall id
                       {| vgsc_Name := vgs_Name request;
                          vgsc_Description := vgs_Description request |}
                 ∨ ∃ created, r = Earlier (GetVolumeGroupCall created)))
    as Hsnap.
  { intros r Hin.
    destruct Hcalls2 as [->|(id & Hid & [[_ ->]|[_ [->|[created ->]]]])];
      try by apply elem_of_nil in Hin.
    - exists id. split; [done|]. listed Hin. by left.
    - exists id. split; [done|].
      apply elem_of_cons in Hin as [->|Hin]; [by left|].
      listed Hin. right. by eexists. }
  assert (∀ r, r ∈ calls1 →
            (vg_ID (doGetVolumeGroupByName (management client) hist
                      (vgs_Name request)).1 ≠ ""
             ∧ r = AddMembersToVolumeGroupCall
                     {| vgm_VolumeIDs :=
                          (λ v, default "" (head (Split v "/")))
                            <$> vgs_SourceVolumeIDs request |}
                     (vg_ID (doGetVolumeGroupByName (management client) hist
                               (vgs_Name request)).1))
            ∨ (vg_ID (doGetVolumeGroupByName (management client) hist
                        (vgs_Name request)).1 = ""
               ∧ (r = GetVolumeGroupsByVolumeIDCall
                        (default "" (head (Split first "/")))
                  ∨ (doGetVolumeGroupsByVolumeID (management client)
                       (hist ++ [GetVolumeGroupByNameCall (vgs_Name request)])
                       (default "" (head (Split first "/")))).1 = []
                    ∧ r = CreateVolumeGroupCall
                            {| vgc_Name := vgs_Name request;
                               vgc_Description := vgs_Description request;
                               vgc_VolumeIDs :=
                                 (λ v, default "" (head (Split v "/")))
                                   <$> vgs_SourceVolumeIDs request |})))
    as Hgroup.
  { intros r Hin.
    destruct Hcalls1 as [[Hgot ->]|[Hgot [->|[Hlisted ->]]]].
    - left. listed Hin. by split.
    - right. listed Hin. split; [done|by left].
    - right. split; [done|].
      apply elem_of_cons in Hin as [->|Hin]; [by left|].
      listed Hin. by right. }
  repeat split; intros;
    match goal with
    | Hin : _ ∈ _ :: _ ++ _ |- _ =>
        apply elem_of_cons in Hin as [Hin|[Hin|Hin]%elem_of_app];
        [discriminate Hin
        |apply Hgroup in Hin as [[? Hin]|[? [Hin|[? Hin]]]]
        |apply Hsnap in Hin as (? & ? & [Hin|[? Hin]])]
    end; simplify_eq; done.
Qed.

Lemma snapshotsOf_spec first arr t volumes snap :
  snap ∈ snapshotsOf first arr t volumes →
  ∃ v l a protocol fields,
    v ∈ volumes
    ∧ Split first "/" = l :: a :: protocol :: fields
    ∧ SnapId snap = sv_ID v +:+ "/" +:+ arr +:+ "/" +:+ protocol
    ∧ SourceId snap = sv_SourceID v +:+ "/" +:+ arr +:+ "/" +:+ protocol
    ∧ ReadyToUse snap = String.eqb (sv_State v) StateReady.
Proof.
  unfold snapshotsOf. induction volumes as [|v volumes IH]; cbn [flat_map].
  { by intros ?%elem_of_nil. }
  intros [Hin|Hin]%elem_of_app.
  - destruct (Split first "/") as [|l [|a [|protocol fields]]];
      try by apply elem_of_nil in Hin.
    apply list_elem_of_singleton in Hin as ->.
    exists v, l, a, protocol, fields. repeat split; by left.
  - destruct (IH Hin) as (v' & l & a & protocol & fields & Hv & Hrest).
    exists v', l, a, protocol, fields. split; [by right|done].
Qed.

Lemma Split_metro l a p r ra :
  isField l = true → isField a = true → isField p = true →
  isField r = true → isField ra = true →
  Split (handleOf l a p (Some (r, ra))) "/" = [l; a; p +:+ ":" +:+ r; ra].
Proof.
  intros Hl Ha Hp Hr Hra. unfold handleOf.
  rewrite !append_assoc.
  rewrite (Split_field "/" l) by by apply isField_slash.
  rewrite (Split_field "/" a) by by apply isField_slash.
  rewrite <- (append_assoc p), <- (append_assoc (p +:+ ":")).
  rewrite (Split_field "/" ((p +:+ ":") +:+ r)).
  2:{ rewrite !hasByte_app. simpl. by rewrite !isField_slash. }
  rewrite Split_whole by by apply isField_slash.
  by rewrite append_assoc.
Qed.

(** A handle whose remote part is one field: the decoder reads the second
    field of the remote part, which is not there. *)
Lemma ParseVolumeID_half_remote index id a p r d vc h :
  isField id = true → isField a = true → isField p = true → isField r = true →
  ParseVolumeID index (id +:+ "/" +:+ a +:+ "/" +:+ p +:+ ":" +:+ r) d vc h
  = (Panicked "index out of range", h).
Proof.
  intros Hid Ha Hp Hr. unfold ParseVolumeID.
  replace (id +:+ "/" +:+ a +:+ "/" +:+ p +:+ ":" +:+ r)
    with ((id +:+ "/" +:+ a +:+ "/" +:+ p) +:+ ":" +:+ r)
    by by rewrite !append_assoc.
  rewrite append_not_empty.
  rewrite (Split_field ":") by by apply local_no_colon.
  rewrite (Split_whole ":" r) by by apply isField_colon.
  run. rewrite Split_local by done. cbn.
  rewrite Split_whole by by apply isField_slash. cbn.
  by destruct (GetIPListFromString a).
Qed.

(** X25.  The snapshots that [CreateVolumeGroupSnapshot] returns for a
    source handle of three fields have handles of three fields: the ID of the
    snapshot, and the array and the protocol of the first source handle,
    which is an array of the registry.  The decoder reads them back, without
    a call, when the ID of the snapshot holds neither [/] nor [:]. *)
Theorem CreateVolumeGroupSnapshot_handles s request l a p rest hist resp hist' :
  isField l = true → isField a = true → isField p = true →
  vgs_SourceVolumeIDs request = handleOf l a p None :: rest →
  CreateVolumeGroupSnapshot s request hist = (Returned (Some resp, None), hist') →
  is_Some (ArraysAt s a)
  ∧ ∀ snap, snap ∈ Snapshots resp →
      ∃ id source,
        SnapId snap = handleOf id a p None
        ∧ SourceId snap = handleOf source a p None
        ∧ (isField id = true →
           ∀ index d vc h,
             ParseVolumeID index (SnapId snap) d vc h
             = (Returned ({| localVolumeID := id;
                             arrayID := arrayOfRef index a;
                             protocol := p;
                             remoteVolumeID := ""; remoteArrayID := "" |}, None),
                h)).
Proof.
  intros Hl Ha Hp Hsources Hrun.
  assert (Split (handleOf l a p None) "/" = [l; a; p]) as Hsplit
    by by apply Split_local.
  assert (arrayOfHandle (handleOf l a p None) = a) as Harray.
  { unfold arrayOfHandle. by rewrite Hsplit. }
  assert (validateCreateVGSreq request = None) as Hvalid.
  { unfold CreateVolumeGroupSnapshot in Hrun.
    destruct (validateCreateVGSreq request); [discriminate|done]. }
  destruct (ArraysAt s a) as [arr|] eqn:Harr.
  2:{ unfold CreateVolumeGroupSnapshot in Hrun.
      rewrite Hvalid, Hsources, Harray, Harr in Hrun. discriminate. }
  split; [by eexists|].
  destruct (ArrayClient arr) as [client|] eqn:Hclient.
  2:{ unfold CreateVolumeGroupSnapshot, withManagedClient in Hrun.
      rewrite Hvalid, Hsources, Harray, Harr, Hclient in Hrun. discriminate. }
  rewrite <- Harray in Harr.
  destruct (CreateVolumeGroupSnapshot_run s request _ rest arr client hist
              Hvalid Hsources Harr Hclient)
    as (reply & calls1 & calls2 & Hrun' & _ & Hreply).
  rewrite Hrun' in Hrun. injection Hrun as -> _.
  destruct Hreply as [[msg [=]]|(resp' & t & volumes & [= <-] & Hsnaps)].
  intros snap Hin. rewrite Hsnaps, Harray in Hin.
  apply snapshotsOf_spec in Hin
    as (v & l' & a' & p' & fields & _ & Hfields & Hid & Hsource & _).
  rewrite Hsplit in Hfields. injection Hfields as <- <- <- <-.
  exists (sv_ID v), (sv_SourceID v). split; [done|]. split; [done|].
  intros Hfield index d vc h. rewrite Hid.
  by rewrite (ParseVolumeID_structured index (sv_ID v) a p None).
Qed.

(** X26.  For a metro source handle, the protocol that
    [CreateVolumeGroupSnapshot] gives to the snapshots is the third field of
    the handle between its slashes, which holds the colon and the remote
    volume ID.  The handles of the snapshots then have a remote part of one
    field, and the decoder panics on every one of them. *)
Theorem CreateVolumeGroupSnapshot_metro_handles
    s request l a p r ra rest hist resp hist' :
  isField l = true → isField a = true → isField p = true →
  isField r = true → isField ra = true →
  vgs_SourceVolumeIDs request = handleOf l a p (Some (r, ra)) :: rest →
  CreateVolumeGroupSnapshot s request hist = (Returned (Some resp, None), hist') →
  ∀ snap, snap ∈ Snapshots resp →
    ∃ id,
      SnapId snap = id +:+ "/" +:+ a +:+ "/" +:+ p +:+ ":" +:+ r
      ∧ (isField id = true →
         ∀ index d vc h,
           ParseVolumeID index (SnapId snap) d vc h
           = (Panicked "index out of range", h)).
Proof.
  intros Hl Ha Hp Hr Hra Hsources Hrun.
  pose proof (Split_metro l a p r ra Hl Ha Hp Hr Hra) as Hsplit.
  assert (arrayOfHandle (handleOf l a p (Some (r, ra))) = a) as Harray.
  { unfold arrayOfHandle. by rewrite Hsplit. }
  assert (validateCreateVGSreq request = None) as Hvalid.
  { unfold CreateVolumeGroupSnapshot in Hrun.
    destruct (validateCreateVGSreq request); [discriminate|done]. }
  destruct (ArraysAt s a) as [arr|] eqn:Harr.
  2:{ unfold CreateVolumeGroupSnapshot in Hrun.
      rewrite Hvalid, Hsources, Harray, Harr in Hrun. discriminate. }
  destruct (ArrayClient arr) as [client|] eqn:Hclient.
  2:{ unfold CreateVolumeGroupSnapshot, withManagedClient in Hrun.
      rewrite Hvalid, Hsources, Harray, Harr, Hclient in Hrun. discriminate. }
  rewrite <- Harray in Harr.
  destruct (CreateVolumeGroupSnapshot_run s request _ rest arr client hist
              Hvalid Hsources Harr Hclient)
    as (reply & calls1 & calls2 & Hrun' & _ & Hreply).
  rewrite Hrun' in Hrun. injection Hrun as -> _.
  destruct Hreply as [[msg [=]]|(resp' & t & volumes & [= <-] & Hsnaps)].
  intros snap Hin. rewrite Hsnaps, Harray in Hin.
  apply snapshotsOf_spec in Hin
    as (v & l' & a' & p' & fields & _ & Hfields & Hid & _).
  rewrite Hsplit in Hfields. injection Hfields as <- <- <- <-.
  exists (sv_ID v). split; [done|].
  intros Hfield index d vc h. rewrite Hid.
  by apply ParseVolumeID_half_remote.
Qed.

End SnapshotHandles.

Section SnapshotInstances.

Example CreateVolumeGroupSnapshot_example :
  @CreateVolumeGroupSnapshot ReplicaScenarios.replicating
      (Examples.service Examples.idle) SnapshotScenarios.request []
  = (Returned (Some (SnapshotScenarios.response "scsi"), None),
     SnapshotScenarios.calls).
Proof. vm_compute. reflexivity. Qed.

Example CreateVolumeGroupSnapshot_metro_example :
  @CreateVolumeGroupSnapshot ReplicaScenarios.replicating
      (Examples.service Examples.idle) SnapshotScenarios.metroRequest []
  = (Returned (Some (SnapshotScenarios.response "scsi:vol-9"), None),
     SnapshotScenarios.calls).
Proof. vm_compute. reflexivity. Qed.

(** X23 on a request for a volume of [PS1]: the call returns. *)
Lemma CreateVolumeGroupSnapshot_returns_witness :
  returned (@CreateVolumeGroupSnapshot ReplicaScenarios.replicating
              (Examples.service Examples.idle) SnapshotScenarios.request []).1.
Proof.
  destruct (@CreateVolumeGroupSnapshot_returns ReplicaScenarios.replicating
              (Examples.service Examples.idle) SnapshotScenarios.request
              "vol-1/PS1/scsi" [] [] eq_refl eq_refl) as [[_ Hreturns] _].
  apply Hreturns. exists (Examples.array Examples.idle).
  split; [reflexivity|by eexists].
Defined.

(** X24 on the same request: the snapshot is taken of the group [vg-1]. *)
Lemma CreateVolumeGroupSnapshot_guarded_witness :
  ∃ reply calls,
    @CreateVolumeGroupSnapshot ReplicaScenarios.replicating
        (Examples.service Examples.idle) SnapshotScenarios.request []
      = (Returned reply, [] ++ calls)
    ∧ ∀ id snapshot, CreateVolumeGroupSnapshotCall id snapshot ∈ calls →
        id ≠ ""
        ∧ snapshot = {| vgsc_Name := "nightly"; vgsc_Description := "" |}.
Proof.
  destruct (@CreateVolumeGroupSnapshot_guarded ReplicaScenarios.replicating
              (Examples.service Examples.idle) SnapshotScenarios.request
              "vol-1/PS1/scsi" [] (Examples.array Examples.idle) Examples.idle []
              eq_refl eq_refl eq_refl eq_refl)
    as (reply & calls & Hrun & _ & _ & Hsnapshot).
  exists reply, calls. split; [exact Hrun|exact Hsnapshot].
Defined.

(** X25 on the same request: the handle of the snapshot is a handle of the
    array [PS1]. *)
Lemma CreateVolumeGroupSnapshot_handles_witness :
  is_Some (ArraysAt (Examples.service Examples.idle) "PS1")
  ∧ ∀ snap, snap ∈ Snapshots (SnapshotScenarios.response "scsi") →
      ∃ id source,
        SnapId snap = handleOf id "PS1" "scsi" None
        ∧ SourceId snap = handleOf source "PS1" "scsi" None
        ∧ (isField id = true →
           ∀ index d vc h,
             @ParseVolumeID Examples.platform index (SnapId snap) d vc h
             = (Returned ({| localVolumeID := id;
                             arrayID := @arrayOfRef Examples.platform index "PS1";
                             protocol := "scsi";
                             remoteVolumeID := ""; remoteArrayID := "" |}, None),
                h)).
Proof.
  exact (@CreateVolumeGroupSnapshot_handles Examples.platform
           ReplicaScenarios.replicating (Examples.service Examples.idle)
           SnapshotScenarios.request "vol-1" "PS1" "scsi" [] []
           (SnapshotScenarios.response "scsi") SnapshotScenarios.calls
           eq_refl eq_refl eq_refl eq_refl CreateVolumeGroupSnapshot_example).
Defined.

(** X26 on the metro volume: the decoder panics on the handle of its
    snapshot. *)
Lemma CreateVolumeGroupSnapshot_metro_handles_witness :
  ∃ id,
    SnapId (SnapshotScenarios.snapshot "scsi:vol-9")
    = id +:+ "/" +:+ "PS1" +:+ "/" +:+ "scsi" +:+ ":" +:+ "vol-9"
    ∧ (isField id = true →
       ∀ index d vc h,
         @ParseVolumeID Examples.platform index
            (SnapId (SnapshotScenarios.snapshot "scsi:vol-9")) d vc h
         = (Panicked "index out of range", h)).
Proof.
  exact (@CreateVolumeGroupSnapshot_metro_handles Examples.platform
           ReplicaScenarios.replicating (Examples.service Examples.idle)
           SnapshotScenarios.metroRequest "vol-1" "PS1" "scsi" "vol-9" "PS2" [] []
           (SnapshotScenarios.response "scsi:vol-9") SnapshotScenarios.calls
           eq_refl eq_refl eq_refl eq_refl eq_refl eq_refl
           CreateVolumeGroupSnapshot_metro_example
           (SnapshotScenarios.snapshot "scsi:vol-9")
           ltac:(by left)).
Defined.

Example ParseVolumeID_metro_snapshot :
  @ParseVolumeID Examples.platform ∅ "snap-1/PS1/scsi:vol-9" None None []
  = (Panicked "index out of range", []).
Proof. vm_compute. reflexivity. Qed.

End SnapshotInstances.

(** ** Package node: reading the mounts *)

Section NodeMounts.
Context `{Platform}.

#[local] Arguments String.append : simpl never.

Lemma consistentLoop_spec fs name exhausted left :
  ∀ old n,
    (1 ≤ n)%nat →
    Node.ReadFile fs (n - 1) name = inl old →
    (n ≤ (Node.consistentLoop fs name old left exhausted n).2 ≤ n + left)%nat
    ∧ ∀ data,
        (Node.consistentLoop fs name old left exhausted n).1 = inl data →
        (n + 1 ≤ (Node.consistentLoop fs name old left exhausted n).2)%nat
        ∧ Node.ReadFile fs
            ((Node.consistentLoop fs name old left exhausted n).2 - 2) name
          = inl data
        ∧ Node.ReadFile fs
            ((Node.consistentLoop fs name old left exhausted n).2 - 1) name
          = inl data.
Proof.
  induction left as [|left IH]; intros old n Hn Hold; cbn [Node.consistentLoop].
  { cbn. split; [lia|]. discriminate. }
  destruct (Node.ReadFile fs n name) as [new|err] eqn:Hnew; cbn [fst snd].
  2:{ split; [lia|]. discriminate. }
  destruct (String.eqb_spec old new) as [->|Hdiff]; cbn [fst snd].
  - split; [lia|]. intros data [= <-]. split; [lia|].
    replace (S n - 2)%nat with (n - 1)%nat by lia.
    replace (S n - 1)%nat with n by lia. done.
  - destruct (IH new (S n)) as [Hbound Hdata]; [lia| |].
    { by replace (S n - 1)%nat with n by lia. }
    split; [lia|]. intros data Hrun.
    destruct (Hdata data Hrun) as (? & ? & ?). split; [lia|done].
Qed.

(** X27.  [consistentRead] returns a content only when two reads in a row
    gave it: the last two reads of the call.  A call issues one read at
    least and one more than [retry] at most, so that with no retry it returns
    no content, whatever the file holds. *)
Theorem consistentRead_consistent filename retry fs n :
  let run := Node.consistentRead filename retry fs n in
  (n < run.2 ≤ n + 1 + Z.to_nat retry)%nat
  ∧ ∀ data, run.1 = inl data →
      (n + 2 ≤ run.2)%nat
      ∧ Node.ReadFile fs (run.2 - 2) (Clean filename) = inl data
      ∧ Node.ReadFile fs (run.2 - 1) (Clean filename) = inl data.
Proof.
  cbv zeta. unfold Node.consistentRead.
  destruct (Node.ReadFile fs n (Clean filename)) as [old|err] eqn:Hold;
    cbn [fst snd].
  2:{ split; [lia|]. discriminate. }
  match goal with
  | |- context [Node.consistentLoop fs ?name old ?left ?ex (S n)] =>
      destruct (consistentLoop_spec fs name ex left old (S n)) as [Hbound Hdata];
      [lia|by replace (S n - 1)%nat with n by lia|]
  end.
  split; [lia|]. intros data Hrun.
  destruct (Hdata data Hrun) as (? & ? & ?). split; [lia|done].
Qed.

Lemma firstAt_found mounts target m :
  Node.firstAt mounts target = (m, true)
  ↔ ∃ pre post,
      mounts = pre ++ m :: post
      ∧ Forall (λ x, Node.Path x ≠ target) pre
      ∧ Node.Path m = target.
Proof.
  induction mounts as [|x mounts IH]; cbn [Node.firstAt].
  { split; [discriminate|]. intros (pre & post & Heq & _). by destruct pre. }
  destruct (String.eqb_spec (Node.Path x) target) as [Hx|Hx].
  - split.
    + intros [= ->]. by exists [], mounts.
    + intros ([|y pre] & post & Heq & Hpre & Hm).
      * by injection Heq as ->.
      * injection Heq as -> _. by apply Forall_cons in Hpre as [? _].
  - rewrite IH. split.
    + intros (pre & post & -> & Hpre & Hm). exists (x :: pre), post.
      split; [done|]. split; [by constructor|done].
    + intros ([|y pre] & post & Heq & Hpre & Hm).
      * injection Heq as -> _. done.
      * injection Heq as -> ->. apply Forall_cons in Hpre as [_ Hpre].
        by exists pre, post.
Qed.

Lemma firstAt_none mounts target m :
  Node.firstAt mounts target = (m, false)
  ↔ m = Node.noMount ∧ Forall (λ x, Node.Path x ≠ target) mounts.
Proof.
  induction mounts as [|x mounts IH]; cbn [Node.firstAt].
  { split; [by intros [= <-]|by intros [-> _]]. }
  destruct (String.eqb_spec (Node.Path x) target) as [Hx|Hx].
  - split; [discriminate|]. by intros [_ [? _]%Forall_cons].
  - rewrite IH. split.
    + intros [-> Hall]. split; [done|by constructor].
    + by intros [-> [_ Hall]%Forall_cons].
Qed.

Lemma contains_spec list item :
  Node.contains list item = true ↔ item ∈ list.
Proof.
  unfold Node.contains. rewrite existsb_exists. split.
  - intros (x & Hin & ->%String.eqb_eq). by apply list_elem_of_In.
  - intros Hin. exists item. split; [by apply list_elem_of_In|].
    apply String.eqb_refl.
Qed.

(** X28.  Only the first mount at the target path counts for
    [isAlreadyPublished]: on the mounts that [getMounts] returns, it answers
    "published" exactly when the first mount at the path has the mode among
    its options, whatever mounts are listed after it; "not published",
    without an error, exactly when no mount is at the path; and else an error
    of status FailedPrecondition.  It reads the mounts once. *)
Theorem isAlreadyPublished_first
    procMountsPath procMountsRetries targetPath rwMode fs n mounts n' :
  Node.getMounts procMountsPath procMountsRetries fs n = (inl mounts, n') →
  ∃ result,
    Node.isAlreadyPublished procMountsPath procMountsRetries
                            targetPath rwMode fs n = (result, n')
    ∧ (result = (true, None)
       ↔ ∃ pre m post,
           mounts = pre ++ m :: post
           ∧ Forall (λ x, Node.Path x ≠ targetPath) pre
           ∧ Node.Path m = targetPath
           ∧ rwMode ∈ Node.Opts m)
    ∧ (result = (false, None)
       ↔ Forall (λ x, Node.Path x ≠ targetPath) mounts)
    ∧ ∀ e, result.2 = Some e → ∃ msg, e = StatusErr FailedPrecondition msg.
Proof.
  intros Hmounts.
  unfold Node.isAlreadyPublished, Node.getTargetMount. rewrite Hmounts.
  destruct (Node.firstAt mounts targetPath) as [m [|]] eqn:Hfirst; cbn [negb].
  - pose proof (proj1 (firstAt_found _ _ _) Hfirst) as (pre & post & Heq & Hpre & Hm).
    assert (¬ Forall (λ x, Node.Path x ≠ targetPath) mounts) as Hnot.
    { rewrite Heq. intros [_ [? _]%Forall_cons]%Forall_app. done. }
    destruct (Node.contains (Node.Opts m) rwMode) eqn:Hopts; cbn [negb].
    + apply contains_spec in Hopts. eexists. split; [reflexivity|].
      split; [split; [intros _; by exists pre, m, post|done]|].
      split; [split; [discriminate|done]|]. discriminate.
    + eexists. split; [reflexivity|].
      split; [split; [discriminate|]|].
      { intros (pre' & m' & post' & Heq' & Hpre' & Hm' & Hin).
        assert (Node.firstAt mounts targetPath = (m', true)) as Hfirst'
          by (apply firstAt_found; by exists pre', post').
        rewrite Hfirst in Hfirst'. injection Hfirst' as ->.
        apply contains_spec in Hin. congruence. }
      split; [split; [discriminate|done]|].
      intros e [= <-]. by eexists.
  - apply firstAt_none in Hfirst as [-> Hall].
    eexists. split; [reflexivity|].
    split; [split; [discriminate|]|].
    { intros (pre & m & post & -> & _ & Hm & _).
      apply Forall_app in Hall as [_ [? _]%Forall_cons]. done. }
    split; [done|]. discriminate.
Qed.

Lemma Contains_refl s : Node.Contains s s = true.
Proof.
  assert (String.prefix s s = true) as Hprefix.
  { induction s as [|c s IH]; [done|]. simpl. by destruct (ascii_dec c c). }
  destruct s; simpl in *; [done|]. by rewrite Hprefix.
Qed.

(** X29.  The mount that [getTargetMount] finds at a path is among the mounts
    that [getRemnantTargetMounts] finds for that path, when the two read the
    same mounts: a mount at the path holds the path.  The staged device that
    [getStagedDev] then reports is the device of that mount, or its source
    when the device is [devtmpfs] or [udev]. *)
Theorem getTargetMount_remnant
    procMountsPath procMountsRetries target fs mounts n n1 k k1 j j1 m :
  Node.getMounts procMountsPath procMountsRetries fs n = (inl mounts, n1) →
  Node.getMounts procMountsPath procMountsRetries fs k = (inl mounts, k1) →
  Node.getMounts procMountsPath procMountsRetries fs j = (inl mounts, j1) →
  Node.getTargetMount procMountsPath procMountsRetries target fs n
    = ((m, true, None), n1) →
  (∃ remnants,
     Node.getRemnantTargetMounts procMountsPath procMountsRetries target fs k
       = ((remnants, true, None), k1)
     ∧ m ∈ remnants)
  ∧ Node.getStagedDev procMountsPath procMountsRetries target fs j
    = ((if String.eqb (Node.Device m) "devtmpfs"
           || String.eqb (Node.Device m) "udev"
        then Node.Source m else Node.Device m, None), j1).
Proof.
  intros Hn Hk Hj. unfold Node.getTargetMount. rewrite Hn.
  destruct (Node.firstAt mounts target) as [m' found] eqn:Hfirst.
  intros [= -> ->]. split.
  - unfold Node.getRemnantTargetMounts. rewrite Hk.
    apply firstAt_found in Hfirst as (pre & post & -> & _ & Hm).
    assert (m ∈ filter (λ mount, Node.Contains (Node.Path mount) target = true)
                       (pre ++ m :: post)) as Hin.
    { apply list_elem_of_filter. split; [|set_solver].
      rewrite Hm. apply Contains_refl. }
    eexists. split; [|exact Hin]. do 3 f_equal.
    destruct (filter _ _); [by apply elem_of_nil in Hin|done].
  - unfold Node.getStagedDev, Node.getTargetMount. rewrite Hj, Hfirst. cbn [negb].
    by destruct (_ || _).
Qed.

End NodeMounts.

Section NodeInstances.

Example getMounts_example :
  @Node.getMounts Examples.platform NodeScenarios.procMountsPath
     NodeScenarios.procMountsRetries NodeScenarios.files 0
  = (inl NodeScenarios.mounts, 2%nat).
Proof. reflexivity. Qed.

(** X28 on a path with two mounts: the first, read-write, is the one that
    counts. *)
Lemma isAlreadyPublished_first_witness :
  ∃ result,
    @Node.isAlreadyPublished Examples.platform NodeScenarios.procMountsPath
       NodeScenarios.procMountsRetries NodeScenarios.target "rw"
       NodeScenarios.files 0 = (result, 2%nat)
    ∧ (result = (false, None)
       ↔ Forall (λ x, Node.Path x ≠ NodeScenarios.target) NodeScenarios.mounts).
Proof.
  destruct (@isAlreadyPublished_first Examples.platform
              NodeScenarios.procMountsPath NodeScenarios.procMountsRetries
              NodeScenarios.target "rw" NodeScenarios.files 0
              NodeScenarios.mounts 2 eq_refl)
    as (result & Hrun & _ & Hnone & _).
  exists result. split; [exact Hrun|exact Hnone].
Defined.

Example isAlreadyPublished_example :
  @Node.isAlreadyPublished Examples.platform NodeScenarios.procMountsPath
     NodeScenarios.procMountsRetries NodeScenarios.target "rw"
     NodeScenarios.files 0 = ((true, None), 2%nat)
  ∧ @Node.isAlreadyPublished Examples.platform NodeScenarios.procMountsPath
      NodeScenarios.procMountsRetries NodeScenarios.target "ro"
      NodeScenarios.files 0
    = ((false, Some (StatusErr FailedPrecondition
         "volume already mounted but with different capabilities: [rw relatime]")),
       2%nat).
Proof. split; reflexivity. Qed.

(** X29 on the same mounts. *)
Lemma getTargetMount_remnant_witness :
  (∃ remnants,
     @Node.getRemnantTargetMounts Examples.platform NodeScenarios.procMountsPath
        NodeScenarios.procMountsRetries NodeScenarios.target
        NodeScenarios.files 0 = ((remnants, true, None), 2%nat)
     ∧ NodeScenarios.published ∈ remnants)
  ∧ @Node.getStagedDev Examples.platform NodeScenarios.procMountsPath
       NodeScenarios.procMountsRetries NodeScenarios.target
       NodeScenarios.files 0
    = ((if String.eqb (Node.Device NodeScenarios.published) "devtmpfs"
           || String.eqb (Node.Device NodeScenarios.published) "udev"
        then Node.Source NodeScenarios.published
        else Node.Device NodeScenarios.published, None), 2%nat).
Proof.
  exact (@getTargetMount_remnant Examples.platform
           NodeScenarios.procMountsPath NodeScenarios.procMountsRetries
           NodeScenarios.target NodeScenarios.files NodeScenarios.mounts
           0 2 0 2 0 2 NodeScenarios.published
           eq_refl eq_refl eq_refl eq_refl).
Defined.

(** A file that changes at every read is never read consistently. *)
Example consistentRead_changing :
  (@Node.consistentRead Examples.platform "/proc/self/mountinfo" 2
     {| Node.ReadFile := λ n _, inl (Node.Itoa (Z.of_nat n));
        Node.ParseProcMounts := λ _, inl [] |} 0)
  = (inr (PlainErr
       "could not get consistent content of /proc/self/mountinfo after 2 attempts"),
     3%nat).
Proof. reflexivity. Qed.

End NodeInstances.
